(** * Prize_Calculator: the proportional distribution engine

    A shallow embedding of [PrizeDistributionApp.calculate_distribution] and
    [PrizeDistributionApp.calculate_integer_distribution] of
    [prize_calculator.py], together with the winner selection of the
    state-update path of the same class.  Around them: the recomputation of
    the distributions in [update_current_state], the loop of
    [save_current_state] that collects them, [toggle_participant],
    [delete_participant] and [delete_prize], the dates of [DateRange], the
    period test and the batch input of [add_prizes] and [add_participants],
    and the history filters of [get_filtered_states].

    Numbers.  A number of the program, an [int] or a [float], is a rational
    of [Q], and the arithmetic on weights and quantities is exact: the
    rounding of the float operations, infinities and NaN are outside this
    model.  The one error of the arithmetic that the two functions can meet
    on numbers that the forms accept is kept: an [int] quantity too large
    for a float makes [quantity * ratio] raise [OverflowError].  Integers
    that the code computes are in [Z]; [round(x)] on a float is Python 3's
    round-half-to-even, [int(x)] truncates toward zero.

    What a statement says of the size or of the value of a result depends on
    this arithmetic, and carries the hypothesis under which Python's floats
    give the same answer: [float_sized] (no number above [2 ** 53], so that
    no conversion overflows), [computed_exactly] (every float operation
    returns the exact result) or [small_whole] (whole numbers whose
    rounding errors are far below the margins that decide the result).
    Statements about who is in a result, about its order, its sign or the
    state do not depend on it.

    Dynamic typing.  [Participant.damage] and [Prize.quantity] hold either a
    number or a string (the ['#'] marker is stored as the string itself), so
    both fields are a [pyval]; an operation applied to the wrong kind of value
    raises, and exceptions are values of [exn]. *)

From Stdlib Require Import ZArith QArith Qround Qabs List String Ascii Bool.
From Stdlib Require Import Lia Lqa Sorted Permutation.
Import ListNotations.

Local Open Scope Z_scope.

(** ** Python values and exceptions *)

Inductive pyval : Type :=
| PyFloat (x : Q)
| PyStr (s : string).

Inductive exn : Type :=
| TypeError
| ValueError
| ZeroDivisionError
| OverflowError.

Inductive result (A : Type) : Type :=
| Ok (a : A)
| Raise (e : exn).

Arguments Ok {A} a.
Arguments Raise {A} e.

Definition rbind {A B} (r : result A) (k : A -> result B) : result B :=
  match r with
  | Ok a => k a
  | Raise e => Raise e
  end.

Declare Scope result_scope.
Delimit Scope result_scope with result.
Notation "x <- c ;; k" := (rbind c (fun x => k))
  (at level 61, c at next level, right associativity) : result_scope.

Fixpoint rmap {A B} (f : A -> result B) (l : list A) : result (list B) :=
  match l with
  | [] => Ok []
  | a :: l' =>
      (b <- f a ;;
       bs <- rmap f l' ;;
       Ok (b :: bs))%result
  end.

(** ** Strings: [str.strip()] on the ASCII white space *)

Definition is_space (c : ascii) : bool :=
  let n := N_of_ascii c in
  ((9 <=? n) && (n <=? 13) || (28 <=? n) && (n <=? 32))%N.

Fixpoint lstrip (s : string) : string :=
  match s with
  | EmptyString => EmptyString
  | String c s' => if is_space c then lstrip s' else s
  end.

Fixpoint rstrip (s : string) : string :=
  match s with
  | EmptyString => EmptyString
  | String c s' =>
      match rstrip s' with
      | EmptyString => if is_space c then EmptyString else String c EmptyString
      | t => String c t
      end
  end.

Definition strip (s : string) : string := rstrip (lstrip s).

(** [isinstance(d, str) and d.strip() == '#'] *)
Definition is_hash (d : pyval) : bool :=
  match d with
  | PyStr s => String.eqb (strip s) "#"
  | PyFloat _ => false
  end.

(** ** Arithmetic *)

Definition Qltb (x y : Q) : bool :=
  match (x ?= y)%Q with
  | Lt => true
  | _ => false
  end.

(** [round(x)] for a float [x]: the nearest integer, a tie going to the even
    neighbour. *)
Definition py_round (x : Q) : Z :=
  let f := Qfloor x in
  match (x - inject_Z f ?= 1 # 2)%Q with
  | Lt => f
  | Gt => f + 1
  | Eq => if Z.even f then f else f + 1
  end.

(** Rounding with a tie going to the higher integer, as the comment at the
    call of [round] describes it; the code never calls it. *)
Definition round_half_up (x : Q) : Z := Qfloor (x + (1 # 2))%Q.

(** Truncation toward zero. *)
Definition Qtruncate (x : Q) : Z := Z.quot (Qnum x) (Z.pos (Qden x)).

(** [int(x)]: truncation toward zero for a float.  For a string, [int]
    raises [ValueError] unless the string is an integer literal; in that case
    the product [quantity * ratio] of the first loop iteration raises
    [TypeError], and both exceptions reach the same handler, so the model
    raises at once. *)
Definition py_int (v : pyval) : result Z :=
  match v with
  | PyFloat x => Ok (Qtruncate x)
  | PyStr _ => Raise ValueError
  end.

(** [sum(...)]: a left fold of [+] from the integer [0]; adding a string
    raises.  The sum is exact; Python's is exact on [int]s, on floats it is
    rounded at each addition, and an [int] too large for a float raises
    [OverflowError] when it meets a float. *)
Fixpoint py_sum_from (acc : Q) (l : list pyval) : result Q :=
  match l with
  | [] => Ok acc
  | PyFloat x :: l' => py_sum_from (acc + x)%Q l'
  | PyStr _ :: _ => Raise TypeError
  end.

Definition py_sum (l : list pyval) : result Q := py_sum_from 0%Q l.

(** [a / b] with a divisor that is a number.  The quotient is exact;
    Python's is the float nearest to it, and an [int] too large for a float
    raises [OverflowError] when the other operand is a float. *)
Definition py_truediv (a : pyval) (b : Q) : result Q :=
  match a with
  | PyStr _ => Raise TypeError
  | PyFloat x => if Qeq_bool b 0 then Raise ZeroDivisionError else Ok (x / b)%Q
  end.

(** The least magnitude that no float holds: an [int] of magnitude
    [2 ** 1024 - 2 ** 970] or more does not convert to a float. *)
Definition float_overflow : Q := inject_Z (2 ^ 1024 - 2 ^ 970).

(** [a * r] with a float [r]: [a], when it is an [int], is converted to a
    float first, and the conversion of an [int] that is too large raises
    [OverflowError]; a float [a] is never that large.  The product is
    exact; Python's is the float nearest to it. *)
Definition py_mul (a : pyval) (r : Q) : result Q :=
  match a with
  | PyStr _ => Raise TypeError
  | PyFloat x =>
      if Qle_bool float_overflow (Qabs x) then Raise OverflowError
      else Ok (x * r)%Q
  end.

(** ** Sequences *)

Section Sorting.
Context {A K : Type} (key : A -> K) (ltb : K -> K -> bool).

(** [x] stood before every element of [l]: it goes after the elements whose
    key is strictly smaller and before the first one that is not. *)
Fixpoint insert_by (x : A) (l : list A) : list A :=
  match l with
  | [] => [x]
  | y :: l' => if ltb (key y) (key x) then y :: insert_by x l' else x :: y :: l'
  end.

(** [sorted(l, key=key)]: the stable sort; [ltb] is [<] on the keys, or [>]
    for [reverse=True], which keeps the order of equal keys too. *)
Definition py_sorted (l : list A) : list A := fold_right insert_by [] l.

End Sorting.

(** [l[:n]] *)
Definition py_slice_to {A} (n : Z) (l : list A) : list A :=
  if n <? 0 then firstn (Z.to_nat (Z.of_nat (List.length l) + n)) l
  else firstn (Z.to_nat n) l.

(** ** Data model *)

Module Prize.
Record t : Type := mk {
  id : Z;
  name : string;
  quantity : pyval;
  is_special : bool;
  top_winners : Z
}.
End Prize.

Module Participant.
Record t : Type := mk {
  id : Z;
  name : string;
  damage : pyval;
  enabled : bool
}.
End Participant.

(** The number of a result tuple: an [int] in integer mode, a [float]
    otherwise. *)
Inductive number : Type :=
| Int (z : Z)
| Float (x : Q).

Definition row : Type := (Z * string * number)%type.

Definition row_id (r : row) : Z := fst (fst r).
Definition row_name (r : row) : string := snd (fst r).
Definition row_qty (r : row) : number := snd r.

(** ** The application object and its effects

    [calculate_distribution] is a method: it reads [self.participants] and the
    [integer_only] check box, and its handlers write to the log through the
    translation manager.  A computation is a function of the application
    state that returns a value or a raised exception together with the state
    it leaves behind. *)

Record App : Type := mkApp {
  participants : list Participant.t;
  prizes : list Prize.t;
  integer_only : bool;
  log : list (string * string)
}.

Definition M (A : Type) : Type := App -> result A * App.

Definition ret {A} (a : A) : M A := fun st => (Ok a, st).

Definition bind {A B} (c : M A) (k : A -> M B) : M B :=
  fun st =>
    match c st with
    | (Ok a, st') => k a st'
    | (Raise e, st') => (Raise e, st')
    end.

Definition lift {A} (r : result A) : M A := fun st => (r, st).

(** [try: body except Exception as e: handler] *)
Definition try_except {A} (body : M A) (handler : exn -> M A) : M A :=
  fun st =>
    match body st with
    | (Ok a, st') => (Ok a, st')
    | (Raise e, st') => handler e st'
    end.

Definition get_participants : M (list Participant.t) :=
  fun st => (Ok (participants st), st).

Definition get_integer_only : M bool :=
  fun st => (Ok (integer_only st), st).

(** [self.translation_manager.log(level, key, error=str(e))]; the text of the
    exception is not kept. *)
Definition log_message (level key : string) : M unit :=
  fun st =>
    (Ok tt, {| participants := participants st;
               prizes := prizes st;
               integer_only := integer_only st;
               log := log st ++ [(level, key)] |}).

Declare Scope app_scope.
Delimit Scope app_scope with app.
Notation "x <- c ;; k" := (bind c (fun x => k))
  (at level 61, c at next level, right associativity) : app_scope.
Notation "c ;; k" := (bind c (fun _ => k))
  (at level 61, right associativity) : app_scope.

(** ** [calculate_integer_distribution] *)

(** An element [[participant, share, exact_share]] of [shares], once its
    second component has been rounded. *)
Record share : Type := mkShare {
  sh_participant : Participant.t;
  sh_qty : Z;
  sh_exact : Q
}.

Definition is_float (v : pyval) : bool :=
  match v with
  | PyFloat _ => true
  | PyStr _ => false
  end.

Definition damage_key (p : Participant.t) : Q :=
  match Participant.damage p with
  | PyFloat x => x
  | PyStr _ => 0%Q
  end.

(** [sorted(participants, key=lambda p: p.damage, reverse=True)].  A string
    among the keys makes either the comparisons of the sort or the arithmetic
    on [p.damage] that follows it in both callers raise [TypeError], inside
    the same [try]; the model raises at the sort. *)
Definition sorted_by_damage_desc (l : list Participant.t)
  : result (list Participant.t) :=
  if forallb (fun p => is_float (Participant.damage p)) l
  then Ok (py_sorted damage_key (fun a b => Qltb b a) l)
  else Raise TypeError.

(** The first loop: [shares.append([participant, exact_share, exact_share])]. *)
Definition exact_shares (participants : list Participant.t) (total_damage : Q)
    (quantity : pyval) : result (list (Participant.t * Q * Q)) :=
  (sorted <- sorted_by_damage_desc participants ;;
   rmap (fun participant =>
           ratio <- py_truediv (Participant.damage participant) total_damage ;;
           exact_share <- py_mul quantity ratio ;;
           Ok (participant, exact_share, exact_share))
        sorted)%result.

(** The second loop: [share[1] = round(share[1])]. *)
Definition round_shares (shares : list (Participant.t * Q * Q)) : list share :=
  map (fun '(p, s, e) => mkShare p (py_round s) e) shares.

(** [total_assigned], the sum of the rounded shares. *)
Definition total_assigned (shares : list share) : Z :=
  fold_left Z.add (map sh_qty shares) 0.

(** [float('inf')] or a finite float. *)
Inductive bound : Type :=
| Inf
| Fin (x : Q).

(** [x < b] *)
Definition below (x : Q) (b : bound) : bool :=
  match b with
  | Inf => true
  | Fin y => Qltb x y
  end.

(** [abs((share[1] - 1) - share[2])], an exact difference; Python's is the
    float nearest to it. *)
Definition loss (s : share) : Q :=
  Qabs (inject_Z (sh_qty s - 1) - sh_exact s).

(** [abs((share[1] + 1) - share[2])], an exact difference; Python's is the
    float nearest to it. *)
Definition gain (s : share) : Q :=
  Qabs (inject_Z (sh_qty s + 1) - sh_exact s).

(** [for j, share in enumerate(shares)] of the branch [diff > 0], from index
    [j] on, with the current [min_loss] and [min_idx]; returns [min_idx]. *)
Fixpoint scan_loss (shares : list share) (j : Z) (min_loss : bound)
    (min_idx : Z) : Z :=
  match shares with
  | [] => min_idx
  | s :: rest =>
      if 0 <? sh_qty s then
        if below (loss s) min_loss
        then scan_loss rest (j + 1) (Fin (loss s)) j
        else scan_loss rest (j + 1) min_loss min_idx
      else scan_loss rest (j + 1) min_loss min_idx
  end.

(** The same scan of the branch [diff < 0]: every share is a candidate. *)
Fixpoint scan_gain (shares : list share) (j : Z) (min_gain : bound)
    (min_idx : Z) : Z :=
  match shares with
  | [] => min_idx
  | s :: rest =>
      if below (gain s) min_gain
      then scan_gain rest (j + 1) (Fin (gain s)) j
      else scan_gain rest (j + 1) min_gain min_idx
  end.

(** [shares[i][1] += d] *)
Fixpoint add_at (i : nat) (d : Z) (shares : list share) : list share :=
  match shares, i with
  | [], _ => []
  | s :: rest, O => mkShare (sh_participant s) (sh_qty s + d) (sh_exact s) :: rest
  | s :: rest, S i' => s :: add_at i' d rest
  end.

(** One iteration of [for i in range(abs(diff))], branch [diff > 0]. *)
Definition decrement_once (shares : list share) : list share :=
  let min_idx := scan_loss shares 0 Inf (-1) in
  if 0 <=? min_idx then add_at (Z.to_nat min_idx) (-1) shares else shares.

(** One iteration of [for i in range(abs(diff))], branch [diff < 0]. *)
Definition increment_once (shares : list share) : list share :=
  let min_idx := scan_gain shares 0 Inf (-1) in
  if 0 <=? min_idx then add_at (Z.to_nat min_idx) 1 shares else shares.

(** [if diff != 0: if diff > 0: ... else: ...] *)
Definition correct_total (diff : Z) (shares : list share) : list share :=
  if diff =? 0 then shares
  else if 0 <? diff then Nat.iter (Z.to_nat (Z.abs diff)) decrement_once shares
  else Nat.iter (Z.to_nat (Z.abs diff)) increment_once shares.

Definition row_of_share (s : share) : row :=
  (Participant.id (sh_participant s), Participant.name (sh_participant s),
   Int (sh_qty s)).

Definition is_nil {A} (l : list A) : bool :=
  match l with
  | [] => true
  | _ :: _ => false
  end.

(** The body of the [try] of [calculate_integer_distribution]. *)
Definition calculate_integer_distribution_body
    (participants : list Participant.t) (total_damage : Q) (quantity : pyval)
  : result (list row) :=
  if is_nil participants || Qeq_bool total_damage 0 then Ok []
  else
    (total_to_distribute <- py_int quantity ;;
     shares <- exact_shares participants total_damage quantity ;;
     let shares := round_shares shares in
     let diff := total_assigned shares - total_to_distribute in
     let shares := correct_total diff shares in
     let result := map row_of_share shares in
     Ok (py_sorted row_id Z.ltb result))%result.

Definition calculate_integer_distribution
    (participants : list Participant.t) (total_damage : Q) (quantity : pyval)
  : M (list row) :=
  try_except
    (lift (calculate_integer_distribution_body participants total_damage quantity))
    (fun _ => log_message "error" "log_error_integer_distribution" ;; ret [])%app.

(** ** [calculate_distribution] *)

(** [[p for p in self.participants if p.enabled and not (isinstance(p.damage,
    str) and p.damage.strip() == '#')]] *)
Definition active_participants (ps : list Participant.t) : list Participant.t :=
  filter (fun p => Participant.enabled p && negb (is_hash (Participant.damage p))) ps.

(** [sorted(active_participants, key=lambda p: p.id)[:prize.top_winners]] *)
Definition top_participants (prize : Prize.t) (active : list Participant.t)
  : list Participant.t :=
  py_slice_to (Prize.top_winners prize) (py_sorted Participant.id Z.ltb active).

(** The loop [for p in ...: ratio = p.damage / total; qty = prize.quantity *
    ratio; distribution_data.append((p.id, p.name, qty))]. *)
Definition real_distribution (ps : list Participant.t) (total : Q)
    (quantity : pyval) : result (list row) :=
  rmap (fun p =>
          ratio <- py_truediv (Participant.damage p) total ;;
          qty <- py_mul quantity ratio ;;
          Ok (Participant.id p, Participant.name p, Float qty))%result
       ps.

(** The handler of the [try] of [calculate_distribution]. *)
Definition distribution_handler : exn -> M (list row) :=
  (fun _ => log_message "error" "log_error_distribution_calculation" ;; ret [])%app.

Definition calculate_distribution (prize : Prize.t) : M (list row) :=
  try_except
    (ps <- get_participants ;;
     let active := active_participants ps in
     if is_nil active then ret []
     else
       total_damage <- lift (py_sum (map Participant.damage active)) ;;
       if Qeq_bool total_damage 0 then ret []
       else if Prize.is_special prize then
         let top := top_participants prize active in
         winner_total_damage <- lift (py_sum (map Participant.damage top)) ;;
         integer <- get_integer_only ;;
         if integer
         then calculate_integer_distribution top winner_total_damage
                (Prize.quantity prize)
         else lift (real_distribution top winner_total_damage
                      (Prize.quantity prize))
       else
         integer <- get_integer_only ;;
         if integer
         then calculate_integer_distribution active total_damage
                (Prize.quantity prize)
         else lift (real_distribution (py_sorted Participant.id Z.ltb active)
                      total_damage (Prize.quantity prize)))%app
    distribution_handler.

(** The participants among whom [calculate_distribution] shares the prize:
    the branch taken on [prize.is_special]. *)
Definition recipients (prize : Prize.t) (ps : list Participant.t)
  : list Participant.t :=
  if Prize.is_special prize
  then top_participants prize (active_participants ps)
  else active_participants ps.

(** ** The state-update path

    The recomputation of the distributions when a saved state is updated
    selects the winners of a special prize with
    [sorted(active_participants, key=lambda p: p.damage,
    reverse=True)[:prize.top_winners]], under
    [if active_participants and total_damage > 0]. *)
Definition update_state_top_participants (prize : Prize.t)
    (ps : list Participant.t) : result (list Participant.t) :=
  let active := active_participants ps in
  (total_damage <- py_sum (map Participant.damage active) ;;
   if negb (is_nil active) && Qltb 0 total_damage then
     sorted <- sorted_by_damage_desc active ;;
     Ok (py_slice_to (Prize.top_winners prize) sorted)
   else Ok [])%result.

(** ** Roster operations: [toggle_participant], [delete_participant],
    [delete_prize]

    The calls that redraw the tables are not modelled; the answer of the
    confirmation dialog is an argument. *)

Definition set_participants (ps : list Participant.t) : M unit :=
  fun st =>
    (Ok tt, {| participants := ps;
               prizes := prizes st;
               integer_only := integer_only st;
               log := log st |}).

(** [next((p for p in self.participants if p.id == participant_id), None)] *)
Definition find_participant (participant_id : Z) (ps : list Participant.t)
  : option Participant.t :=
  find (fun p => Participant.id p =? participant_id) ps.

(** [participant.enabled = not participant.enabled], on the object that
    [next] returned: the first of the list with that id. *)
Fixpoint toggle_first (participant_id : Z) (ps : list Participant.t)
  : list Participant.t :=
  match ps with
  | [] => []
  | p :: rest =>
      if Participant.id p =? participant_id
      then Participant.mk (Participant.id p) (Participant.name p)
             (Participant.damage p) (negb (Participant.enabled p)) :: rest
      else p :: toggle_first participant_id rest
  end.

Definition toggle_participant (participant_id : Z) : M unit :=
  (ps <- get_participants ;;
   match find_participant participant_id ps with
   | Some _ =>
       set_participants (toggle_first participant_id ps) ;;
       log_message "debug" "log_participant_toggled"
   | None => ret tt
   end)%app.

(** [confirmed] is the answer of [messagebox.askyesno]. *)
Definition delete_participant (confirmed : bool) (participant_id : Z) : M unit :=
  (if confirmed then
     ps <- get_participants ;;
     match find_participant participant_id ps with
     | Some _ =>
         set_participants
           (filter (fun p => negb (Participant.id p =? participant_id)) ps) ;;
         log_message "info" "log_participant_deleted"
     | None => ret tt
     end
   else ret tt)%app.

Definition get_prizes : M (list Prize.t) :=
  fun st => (Ok (prizes st), st).

Definition set_prizes (ps : list Prize.t) : M unit :=
  fun st =>
    (Ok tt, {| participants := participants st;
               prizes := ps;
               integer_only := integer_only st;
               log := log st |}).

(** [next((p for p in self.prizes if p.id == prize_id), None)] *)
Definition find_prize (prize_id : Z) (ps : list Prize.t) : option Prize.t :=
  find (fun p => Prize.id p =? prize_id) ps.

(** [confirmed] is the answer of [messagebox.askyesno]. *)
Definition delete_prize (confirmed : bool) (prize_id : Z) : M unit :=
  (if confirmed then
     ps <- get_prizes ;;
     match find_prize prize_id ps with
     | Some _ =>
         set_prizes (filter (fun p => negb (Prize.id p =? prize_id)) ps) ;;
         log_message "info" "log_prize_deleted"
     | None => ret tt
     end
   else ret tt)%app.

(** ** The distributions of [save_current_state]

    The loop under [# Calcola distribuzioni]:
    [for prize in self.prizes: distributions =
    self.calculate_distribution(prize); all_distributions[prize.id] =
    [(name, qty) for name, qty in distributions]]. *)

(** A [dict] with integer keys, in insertion order. *)
Definition dict (V : Type) : Type := list (Z * V).

(** [d[k] = v] *)
Fixpoint dict_set {V} (k : Z) (v : V) (d : dict V) : dict V :=
  match d with
  | [] => [(k, v)]
  | (k', v') :: rest =>
      if k' =? k then (k, v) :: rest else (k', v') :: dict_set k v rest
  end.

(** [[(name, qty) for name, qty in distributions]]: every element of
    [distributions] is a tuple of three, and unpacking it into two names
    raises [ValueError]. *)
Definition unpack_name_qty (distributions : list row)
  : result (list (string * number)) :=
  rmap (fun _ : row => Raise ValueError) distributions.

Fixpoint save_distributions_loop (ps : list Prize.t)
    (all_distributions : dict (list (string * number)))
  : M (dict (list (string * number))) :=
  match ps with
  | [] => ret all_distributions
  | prize :: rest =>
      (distributions <- calculate_distribution prize ;;
       pairs <- lift (unpack_name_qty distributions) ;;
       save_distributions_loop rest
         (dict_set (Prize.id prize) pairs all_distributions))%app
  end.

Definition save_distributions : M (dict (list (string * number))) :=
  (ps <- get_prizes ;; save_distributions_loop ps [])%app.

(** ** The distributions of [update_current_state]

    The block under [# Calcola distribuzioni per gli elementi presenti]. *)

(** [(prize.quantity * ratio) if not self.integer_only.get() else max(1,
    round(prize.quantity * ratio))] *)
Definition update_state_quantity (integer : bool) (quantity : pyval) (ratio : Q)
  : result number :=
  (if integer then
     x <- py_mul quantity ratio ;;
     Ok (Int (Z.max 1 (py_round x)))
   else
     x <- py_mul quantity ratio ;;
     Ok (Float x))%result.

(** [for participant in ...: ratio = participant.damage / total; quantity =
    ...; distributions.append((participant.name, quantity))] *)
Definition update_state_shares (integer : bool) (ps : list Participant.t)
    (total : Q) (quantity : pyval) : result (list (string * number)) :=
  rmap (fun participant =>
          ratio <- py_truediv (Participant.damage participant) total ;;
          qty <- update_state_quantity integer quantity ratio ;;
          Ok (Participant.name participant, qty))%result
       ps.

(** The body of [for prize in self.prizes]: [None] when the guard
    [active_participants and total_damage > 0] fails and no entry is
    written. *)
Definition update_state_distribution (integer : bool) (prize : Prize.t)
    (active : list Participant.t) (total_damage : Q)
  : result (option (list (string * number))) :=
  (if negb (is_nil active) && Qltb 0 total_damage then
     if Prize.is_special prize then
       sorted <- sorted_by_damage_desc active ;;
       let top_participants := py_slice_to (Prize.top_winners prize) sorted in
       winner_total_damage <- py_sum (map Participant.damage top_participants) ;;
       distributions <- update_state_shares integer top_participants
                          winner_total_damage (Prize.quantity prize) ;;
       Ok (Some distributions)
     else
       distributions <- update_state_shares integer active total_damage
                          (Prize.quantity prize) ;;
       Ok (Some distributions)
   else Ok None)%result.

Fixpoint update_state_loop (integer : bool) (ps : list Prize.t)
    (active : list Participant.t) (total_damage : Q)
    (all_distributions : dict (list (string * number)))
  : result (dict (list (string * number))) :=
  match ps with
  | [] => Ok all_distributions
  | prize :: rest =>
      (d <- update_state_distribution integer prize active total_damage ;;
       update_state_loop integer rest active total_damage
         match d with
         | Some distributions =>
             dict_set (Prize.id prize) distributions all_distributions
         | None => all_distributions
         end)%result
  end.

(** [existing_participants] and [existing_distributions] are those of the
    saved state that is updated. *)
Definition update_state_distributions (st : App)
    (existing_participants : list Participant.t)
    (existing_distributions : dict (list (string * number)))
  : result (dict (list (string * number))) :=
  if is_nil (prizes st) then Ok existing_distributions
  else
    let active_participants :=
      if is_nil (participants st)
      then active_participants existing_participants
      else active_participants (participants st) in
    (total_damage <- py_sum (map Participant.damage active_participants) ;;
     update_state_loop (integer_only st) (prizes st) active_participants
       total_damage [])%result.

(** ** [DateRange] *)

Module DateRange.
Record t : Type := mk {
  start_year : Z;
  start_month : Z;
  start_day : option Z;
  end_year : option Z;
  end_month : option Z;
  end_day : option Z
}.
End DateRange.

(** The truth value of an [Optional[int]]: [None] and [0] are false. *)
Definition truthy (o : option Z) : bool :=
  match o with
  | Some v => negb (v =? 0)
  | None => false
  end.

(** [o or d] *)
Definition or_else (o : option Z) (d : Z) : Z :=
  match o with
  | Some v => if v =? 0 then d else v
  | None => d
  end.

(** [calendar.isleap] *)
Definition isleap (year : Z) : bool :=
  (year mod 4 =? 0) && (negb (year mod 100 =? 0) || (year mod 400 =? 0)).

(** [calendar.mdays] *)
Definition mdays (month : Z) : Z :=
  nth (Z.to_nat month) [0; 31; 28; 31; 30; 31; 30; 31; 31; 30; 31; 30; 31] 0.

(** [calendar.monthrange(year, month)[1]]; [IllegalMonthError] is a
    [ValueError]. *)
Definition monthrange_days (year month : Z) : result Z :=
  if (1 <=? month) && (month <=? 12)
  then Ok (mdays month + (if (month =? 2) && isleap year then 1 else 0))
  else Raise ValueError.

(** A [datetime.date]. *)
Definition date_t : Type := (Z * Z * Z)%type.

(** [datetime.date(year, month, day)] *)
Definition date (year month day : Z) : result date_t :=
  if (1 <=? year) && (year <=? 9999) && (1 <=? month) && (month <=? 12)
  then
    (n <- monthrange_days year month ;;
     if (1 <=? day) && (day <=? n) then Ok (year, month, day)
     else Raise ValueError)%result
  else Raise ValueError.

(** [a < b] on dates *)
Definition date_ltb (a b : date_t) : bool :=
  let '(y1, m1, d1) := a in
  let '(y2, m2, d2) := b in
  (y1 <? y2) || (y1 =? y2) && ((m1 <? m2) || (m1 =? m2) && (d1 <? d2)).

(** [a <= b] on dates *)
Definition date_leb (a b : date_t) : bool := negb (date_ltb b a).

(** [date(self.start_year, self.start_month, self.start_day or 1)] *)
Definition start_date (r : DateRange.t) : result date_t :=
  date (DateRange.start_year r) (DateRange.start_month r)
       (or_else (DateRange.start_day r) 1).

(** [date(self.end_year or self.start_year, self.end_month or
    self.start_month, self.end_day or monthrange(...)[1])] *)
Definition end_date (r : DateRange.t) : result date_t :=
  let year := or_else (DateRange.end_year r) (DateRange.start_year r) in
  let month := or_else (DateRange.end_month r) (DateRange.start_month r) in
  (day <- (if truthy (DateRange.end_day r)
           then Ok (or_else (DateRange.end_day r) 0)
           else monthrange_days year month) ;;
   date year month day)%result.

Definition is_valid (r : DateRange.t) : result bool :=
  if negb (truthy (DateRange.end_year r)) && negb (truthy (DateRange.end_month r))
     && negb (truthy (DateRange.end_day r))
  then Ok true
  else
    (s <- start_date r ;;
     e <- end_date r ;;
     Ok (date_leb s e))%result.

Definition overlaps (r other : DateRange.t) : result bool :=
  (s <- start_date r ;;
   e <- end_date r ;;
   other_start <- start_date other ;;
   other_end <- end_date other ;;
   Ok (negb (date_ltb e other_start || date_ltb other_end s)))%result.

(** ** The period test of [add_prizes] and [add_participants]

    [date(s.start...) <= date(date_range.end...) and date(date_range.start...)
    <= date(s.end...)], for the range [s] of a saved state and the range
    [date_range] of the form; [and] evaluates its second operand only when
    the first is true. *)
Definition active_in_period (s date_range : DateRange.t) : result bool :=
  (s_start <- start_date s ;;
   new_end <- end_date date_range ;;
   if date_leb s_start new_end then
     new_start <- start_date date_range ;;
     s_end <- end_date s ;;
     Ok (date_leb new_start s_end)
   else Ok false)%result.

(** ** Batch input: one line of [add_participants] and of [add_prizes]

    Text is ASCII text here: [len] is the number of characters, [lower]
    changes the letters [A] to [Z].  The builtin [int] is a parameter: it
    returns an integer or raises [ValueError].  The texts of the messages
    are their keys. *)

(** [s.split(sep)] for a separator of one character *)
Fixpoint split_on (sep : ascii) (s : string) : list string :=
  match s with
  | EmptyString => [EmptyString]
  | String c rest =>
      if Ascii.eqb c sep then EmptyString :: split_on sep rest
      else
        match split_on sep rest with
        | [] => [String c EmptyString]
        | part :: parts => String c part :: parts
        end
  end.

(** [c in s] *)
Fixpoint contains (c : ascii) (s : string) : bool :=
  match s with
  | EmptyString => false
  | String c' rest => Ascii.eqb c' c || contains c rest
  end.

(** [s.lower()] *)
Fixpoint lower (s : string) : string :=
  match s with
  | EmptyString => EmptyString
  | String c rest =>
      let n := N_of_ascii c in
      String (if (65 <=? n)%N && (n <=? 90)%N then ascii_of_N (n + 32) else c)
             (lower rest)
  end.

(** [any(p.name.lower() == name.lower() for p in self.participants)] *)
Definition participant_name_exists (name : string) (ps : list Participant.t)
  : bool :=
  existsb (fun p => String.eqb (lower (Participant.name p)) (lower name)) ps.

(** [any(p.name.lower() == name.lower() for p in self.prizes)] *)
Definition prize_name_exists (name : string) (ps : list Prize.t) : bool :=
  existsb (fun p => String.eqb (lower (Prize.name p)) (lower name)) ps.

(** What one line of the batch text does. *)
Inductive line_result (A : Type) : Type :=
| Blank
| Added (a : A)
| NameExists (name : string)
| Refused (message : string).

Arguments Blank {A}.
Arguments Added {A} a.
Arguments NameExists {A} name.
Arguments Refused {A} message.

Section Batch.
Variable int_of_str : string -> option Z.

(** The body of [for line in text.strip().split('\n')] of [add_participants],
    with the roster [ps] and [self.next_participant_id]. *)
Definition participant_of_line (ps : list Participant.t) (next_id : Z)
    (line : string) : line_result Participant.t :=
  if String.eqb (strip line) "" then Blank
  else if negb (contains ":" line) then Refused "missing_separator"
  else
    match split_on ":" line with
    | [name; damage] =>
        let name := strip name in
        let damage := strip damage in
        if String.eqb name "" then Refused "name_required"
        else if (String.length name <? 3)%nat
        then Refused "participant_name_too_short"
        else if (20 <? String.length name)%nat
        then Refused "participant_name_too_long"
        else if participant_name_exists name ps then NameExists name
        else if String.eqb damage "#"
        then Added (Participant.mk next_id name (PyStr damage) true)
        else
          match int_of_str damage with
          | Some damage_value =>
              if damage_value <? 0 then Refused "damage_must_be_integer"
              else Added (Participant.mk next_id name
                            (PyFloat (inject_Z damage_value)) true)
          | None => Refused "damage_must_be_integer"
          end
    | _ => Refused "too many values to unpack (expected 2)"
    end.

(** The loop over the lines: the roster, [self.next_participant_id] and
    [errors]. *)
Fixpoint add_participant_lines (lines : list string) (ps : list Participant.t)
    (next_id : Z) (errors : list string)
  : list Participant.t * Z * list string :=
  match lines with
  | [] => (ps, next_id, errors)
  | line :: rest =>
      match participant_of_line ps next_id line with
      | Blank => add_participant_lines rest ps next_id errors
      | Added p => add_participant_lines rest (ps ++ [p]) (next_id + 1) errors
      | NameExists name =>
          add_participant_lines rest ps next_id
            (errors ++ [("name_exists_msg: " ++ name)%string])
      | Refused message =>
          add_participant_lines rest ps next_id
            (errors ++ [(message ++ ": " ++ line)%string])
      end
  end.

(** The body of the loop of [add_prizes], with the prizes [ps] and
    [self.next_prize_id]. *)
Definition prize_of_line (ps : list Prize.t) (next_id : Z) (line : string)
  : line_result Prize.t :=
  if String.eqb (strip line) "" then Blank
  else if negb (contains ":" line) then Refused "missing_separator"
  else
    let parts := split_on ":" line in
    let name := strip (nth 0 parts EmptyString) in
    let quantity := strip (nth 1 parts EmptyString) in
    if String.eqb name "" then Refused "name_required"
    else if (String.length name <? 3)%nat then Refused "prize_name_too_short"
    else if (20 <? String.length name)%nat then Refused "prize_name_too_long"
    else if prize_name_exists name ps then NameExists name
    else
      let finish (is_special : bool) (top_winners : Z) : line_result Prize.t :=
        if String.eqb quantity "#"
        then Added (Prize.mk next_id name (PyStr quantity) is_special top_winners)
        else
          match int_of_str quantity with
          | Some quantity_value =>
              if quantity_value <=? 0 then Refused "quantity_must_be_integer"
              else Added (Prize.mk next_id name
                            (PyFloat (inject_Z quantity_value))
                            is_special top_winners)
          | None => Refused "quantity_must_be_integer"
          end in
      if (2 <? List.length parts)%nat then
        let special_part := lower (strip (nth 2 parts EmptyString)) in
        if String.eqb special_part "s" then
          if (List.length parts <? 4)%nat then Refused "missing_winners"
          else
            match int_of_str (strip (nth 3 parts EmptyString)) with
            | Some top_winners =>
                if top_winners <? 1 then Refused "invalid_winners"
                else finish true top_winners
            | None => Refused "invalid_winners"
            end
        else if negb (String.eqb special_part "") then Refused "invalid_special"
        else finish false 1
      else finish false 1.

End Batch.

(** ** [SavedState] and the history filters: [get_filtered_states]

    The texts of the three combo boxes are arguments; the handler of
    [get_filtered_states] logs and raises again, and the log entries are not
    kept here. *)

Module SavedState.
Record t : Type := mk {
  date_range : DateRange.t;
  event : string;
  prizes : list Prize.t;
  participants : list Participant.t;
  distributions : dict (list (string * number));
  total_damage : Q;
  saved_date : string
}.
End SavedState.

(** [o == v] for an [Optional[int]] *)
Definition opt_eqb (o : option Z) (v : Z) : bool :=
  match o with
  | Some x => x =? v
  | None => false
  end.

(** [o is not None] *)
Definition is_not_none (o : option Z) : bool :=
  match o with
  | Some _ => true
  | None => false
  end.

(** The test of the comprehension that filters by year. *)
Definition in_year (year : Z) (s : SavedState.t) : bool :=
  let r := SavedState.date_range s in
  (DateRange.start_year r =? year)
  || ((DateRange.start_year r =? year - 1)
      && opt_eqb (DateRange.end_year r) year
      && is_not_none (DateRange.end_month r)).

(** [end_month is not None and start_month < month and end_month >= month] *)
Definition spans_month (month : Z) (r : DateRange.t) : bool :=
  match DateRange.end_month r with
  | Some end_month => (DateRange.start_month r <? month) && (month <=? end_month)
  | None => false
  end.

(** The test of the comprehension that filters by month, a year being
    selected. *)
Definition in_month_of_year (year month : Z) (s : SavedState.t) : bool :=
  let r := SavedState.date_range s in
  ((DateRange.start_year r =? year) && (DateRange.start_month r =? month))
  || ((DateRange.start_year r =? year) && spans_month month r)
  || ((DateRange.start_year r =? year - 1)
      && opt_eqb (DateRange.end_year r) year
      && opt_eqb (DateRange.end_month r) month).

(** The test of the comprehension that filters by month, no year being
    selected. *)
Definition in_month (month : Z) (s : SavedState.t) : bool :=
  let r := SavedState.date_range s in
  (DateRange.start_month r =? month)
  || spans_month month r
  || (opt_eqb (DateRange.end_month r) month && (month <? DateRange.start_month r)).

(** [if event: filtered_states = [s for s in filtered_states if s.event ==
    event]] *)
Definition filter_event (event : string) (states : list SavedState.t)
  : list SavedState.t :=
  if String.eqb event "" then states
  else filter (fun s => String.eqb (SavedState.event s) event) states.

Section History.
Variable int_of_str : string -> option Z.

(** [int(text)] *)
Definition int_of_text (text : string) : result Z :=
  match int_of_str text with
  | Some v => Ok v
  | None => Raise ValueError
  end.

Definition get_filtered_states (saved_states : list SavedState.t)
    (history_year history_month history_event : string)
  : result (list SavedState.t) :=
  (let month := history_month in
   let event := history_event in
   if negb (String.eqb history_year "") then
     year <- int_of_text history_year ;;
     let filtered_states := filter (in_year year) saved_states in
     filtered_states <-
       (if negb (String.eqb month "") then
          month <- int_of_text month ;;
          Ok (filter (in_month_of_year year month) filtered_states)
        else Ok filtered_states) ;;
     Ok (filter_event event filtered_states)
   else
     let filtered_states := saved_states in
     filtered_states <-
       (if negb (String.eqb month "") then
          month <- int_of_text month ;;
          Ok (filter (in_month month) filtered_states)
        else Ok filtered_states) ;;
     Ok (filter_event event filtered_states))%result.

End History.

(** ** Vocabulary of the statements *)

(** [a] comes no later than [b] in ascending order of [key]. *)
Definition by_key {A} (key : A -> Z) (a b : A) : Prop := key a <= key b.

Section ScanShape.
Variable cand : share -> bool.
Variable cost : share -> Q.

(** The common shape of the two scans: keep the first candidate whose cost is
    strictly below the best one seen. *)
Fixpoint scan_min (shares : list share) (j : Z) (best : bound) (min_idx : Z) : Z :=
  match shares with
  | [] => min_idx
  | s :: rest =>
      if cand s && below (cost s) best
      then scan_min rest (j + 1) (Fin (cost s)) j
      else scan_min rest (j + 1) best min_idx
  end.

(** [s], at index [k], is a candidate of least cost, and the first such. *)
Definition first_minimum (shares : list share) (k : nat) (s : share) : Prop :=
  nth_error shares k = Some s /\ cand s = true /\
  forall k' s', nth_error shares k' = Some s' -> cand s' = true ->
    (cost s <= cost s')%Q /\ ((k' < k)%nat -> (cost s < cost s')%Q).

End ScanShape.

(** [share[1] > 0], the guard of the decrement scan. *)
Definition can_decrement (s : share) : bool := 0 <? sh_qty s.

(** What every iteration of either loop keeps. *)
Definition kept_by_corrections (P : list share -> Prop) : Prop :=
  forall k d shares s,
    nth_error shares k = Some s -> 0 < sh_qty s /\ d = -1 \/ d = 1 ->
    P shares -> P (add_at k d shares).

(** The weight of a participant as the data model has it: a number, not
    negative. *)
Definition weight_ok (p : Participant.t) : Prop :=
  exists x, Participant.damage p = PyFloat x /\ (0 <= x)%Q.

(** The quantity of a prize as the data model has it, where it is a number:
    not negative. *)
Definition quantity_ok (prize : Prize.t) : Prop :=
  match Prize.quantity prize with
  | PyFloat q => (0 <= q)%Q
  | PyStr _ => True
  end.

(** [quantity * (p.damage / total_damage)] *)
Definition exact_of (quantity total : Q) (p : Participant.t) : Q :=
  (quantity * (damage_key p / total))%Q.

(** The list [shares] after the rounding loop. *)
Definition rounded_shares (ps : list Participant.t) (total quantity : Q)
  : list share :=
  round_shares
    (map (fun p => (p, exact_of quantity total p, exact_of quantity total p))
         (py_sorted damage_key (fun a b => Qltb b a) ps)).

(** The quantities of [rows] are integers and add up to [n]. *)
Definition sums_to (rows : list row) (n : Z) : Prop :=
  exists zs, map row_qty rows = map Int zs /\ fold_right Z.add 0 zs = n.

(** [0 <= x] on the quantity of a result tuple *)
Definition nonneg (x : number) : Prop :=
  match x with
  | Int z => 0 <= z
  | Float y => (0 <= y)%Q
  end.

(** The value returned in integer mode. *)
Definition integer_rows (ps : list Participant.t) (total quantity : Q) : list row :=
  py_sorted row_id Z.ltb
    (map row_of_share
         (correct_total
            (total_assigned (rounded_shares ps total quantity) - Qtruncate quantity)
            (rounded_shares ps total quantity))).

(** The value returned in real-valued mode for the participants [ps], taken
    in the order of the list. *)
Definition real_rows (ps : list Participant.t) (total quantity : Q) : list row :=
  map (fun p => (Participant.id p, Participant.name p,
                 Float (exact_of quantity total p))) ps.

(** The integer of a result tuple of integer mode. *)
Definition int_of_row (r : row) : Z :=
  match row_qty r with
  | Int z => z
  | Float _ => 0
  end.

(** The hypotheses under which the prize is shared: the weights of the
    active participants are numbers that are not negative, and the recipients
    have a positive total weight. *)
Definition shareable (prize : Prize.t) (st : App) (t : Q) : Prop :=
  Forall weight_ok (active_participants (participants st)) /\
  py_sum (map Participant.damage (recipients prize (participants st))) = Ok t /\
  (0 < t)%Q.

(** The value of the number of a result tuple. *)
Definition number_value (x : number) : Q :=
  match x with
  | Int z => inject_Z z
  | Float y => y
  end.

(** The sum of the quantities of a result. *)
Definition row_total (rows : list row) : Q :=
  fold_right (fun r acc => (number_value (row_qty r) + acc)%Q) 0%Q rows.

(** The tuple [(name, qty)] of a result tuple [(id, name, qty)]. *)
Definition name_qty (r : row) : string * number := (row_name r, row_qty r).

(** The states agree on what [calculate_distribution] reads. *)
Definition same_inputs (st st' : App) : Prop :=
  participants st' = participants st /\ integer_only st' = integer_only st.

(** The tuple [r] carries the id and the name of [p]. *)
Definition row_of (p : Participant.t) (r : row) : Prop :=
  row_id r = Participant.id p /\ row_name r = Participant.name p.

(** The sum of the weights of [ps], those that are numbers. *)
Definition weight_total (ps : list Participant.t) : Q :=
  fold_right (fun p acc => (damage_key p + acc)%Q) 0%Q ps.

(** The quantity of an entry [(name, qty)] is an integer, at least 1. *)
Definition at_least_one (e : string * number) : Prop :=
  exists z, snd e = Int z /\ 1 <= z.

(** The range [r] is well formed and the day [d] lies between its first and
    its last day. *)
Definition covers (r : DateRange.t) (d : date_t) : Prop :=
  exists s e, start_date r = Ok s /\ end_date r = Ok e /\
              date_leb s d = true /\ date_leb d e = true.

(** A range that names a month only: no day, no end. *)
Definition month_only (r : DateRange.t) : Prop :=
  truthy (DateRange.start_day r) = false /\
  truthy (DateRange.end_year r) = false /\
  truthy (DateRange.end_month r) = false /\
  truthy (DateRange.end_day r) = false.

(** [a] is an earlier day than [b]. *)
Definition earlier (a b : date_t) : Prop :=
  let '(y1, m1, d1) := a in
  let '(y2, m2, d2) := b in
  y1 < y2 \/ y1 = y2 /\ (m1 < m2 \/ m1 = m2 /\ d1 < d2).

(** The prize [prize] made special, with [n] winners. *)
Definition as_special (prize : Prize.t) (n : Z) : Prize.t :=
  Prize.mk (Prize.id prize) (Prize.name prize) (Prize.quantity prize) true n.

(** The prize [prize] made normal. *)
Definition as_normal (prize : Prize.t) : Prize.t :=
  Prize.mk (Prize.id prize) (Prize.name prize) (Prize.quantity prize) false
    (Prize.top_winners prize).


(** A participant that is excluded by the ['#'] marker, or whose weight is a
    number that is not negative. *)
Definition weight_or_marker (p : Participant.t) : Prop :=
  is_hash (Participant.damage p) = true \/ weight_ok p.

(** What the batch input keeps of a roster and its next id: the ids grow
    along the roster and stay below the next id, every weight is the marker
    or a number that is not negative, and no two names are equal up to the
    case of their letters. *)
Definition roster_ok (ps : list Participant.t) (next_id : Z) : Prop :=
  StronglySorted (fun a b => Participant.id a < Participant.id b) ps /\
  Forall (fun p => Participant.id p < next_id) ps /\
  Forall weight_or_marker ps /\
  NoDup (map (fun p => lower (Participant.name p)) ps).

(** A builtin [int] for the examples: it reads the texts ["5"] and ["2"]. *)
Definition example_int (s : string) : option Z :=
  if String.eqb s "5" then Some 5
  else if String.eqb s "2" then Some 2
  else None.

(** The sum of the exact shares of [shares]. *)
Definition exact_sum (shares : list share) : Q :=
  fold_right Qplus 0%Q (map sh_exact shares).

(** The excess of a share over its exact share. *)
Definition excess (s : share) : Q := (inject_Z (sh_qty s) - sh_exact s)%Q.

(** What the decrements keep: no share is more than a half above its exact
    share, or as much as 1 below. *)
Definition within_after_decrements (s : share) : Prop :=
  (-(1) < excess s)%Q /\ (excess s <= 1 # 2)%Q.

(** What the increments keep: no share is more than a half below its exact
    share, or as much as 1 above. *)
Definition within_after_increments (s : share) : Prop :=
  (-(1 # 2) <= excess s)%Q /\ (excess s < 1)%Q.

(** The keys of a [dict]. *)
Definition keys {V} (d : dict V) : list Z := map fst d.

(** The range that names the month [month] of the year [year]. *)
Definition month_of (year month : Z) : DateRange.t :=
  DateRange.mk year month None None None None.

(** A builtin [int] for the examples of the history filters: it reads the
    texts ["2024"] and ["3"]. *)
Definition example_int_history (s : string) : option Z :=
  if String.eqb s "2024" then Some 2024
  else if String.eqb s "3" then Some 3
  else None.

(** A saved state of the event [event] with the range [r], nothing else. *)
Definition example_state (event : string) (r : DateRange.t) : SavedState.t :=
  SavedState.mk r event [] [] [] 0 "".

(** No share of a smaller exact share is above a share of a larger one. *)
Definition ordered_shares (shares : list share) : Prop :=
  forall a b, In a shares -> In b shares ->
    (sh_exact a < sh_exact b)%Q -> sh_qty a <= sh_qty b.

(** Up to [2 ** 53] every whole number is a float; a number of that size
    converts to a float, and the correction loops run for a number of
    iterations of the order of the number of participants. *)
Definition max_exact : Q := inject_Z (2 ^ 53).

(** The quantity of the prize, when it is a number, and the weights of the
    active participants are at most [2 ** 53] in magnitude. *)
Definition float_sized (prize : Prize.t) (st : App) : Prop :=
  (forall q, Prize.quantity prize = PyFloat q -> (Qabs q <= max_exact)%Q) /\
  Forall (fun p => (Qabs (damage_key p) <= max_exact)%Q)
    (active_participants (participants st)).

(** A whole number. *)
Definition whole (x : Q) : Prop := exists n : Z, (x == inject_Z n)%Q.

(** A float: [m * 2 ** e] with [|m| < 2 ** 53] and [-1074 <= e <= 971]. *)
Definition binary64 (x : Q) : Prop :=
  exists m e : Z,
    Z.abs m < 2 ^ 53 /\ -1074 <= e <= 971 /\ (x == inject_Z m * 2 ^ e)%Q.

(** Python computes the shares of the participants [ps] without rounding:
    the weights are whole numbers with a total of at most [2 ** 53], so that
    their sum is exact, the quantity is a float, and every quotient
    [weight / total] and every product [quantity * (weight / total)] is a
    float, so that the correctly rounded division and multiplication return
    it. *)
Definition computed_exactly (ps : list Participant.t) (t q : Q) : Prop :=
  binary64 q /\ (t <= max_exact)%Q /\
  Forall (fun p => whole (damage_key p) /\
                   binary64 (damage_key p / t) /\
                   binary64 (q * (damage_key p / t))) ps.

(** Whole numbers of moderate size: the quantity is a whole number from 0
    to [2 ** 30], the weights of [ps] are whole numbers with a total of at
    most [2 ** 48], and there are at most [2 ** 16] of them.  On such
    inputs the sum of the weights is exact and the rounding of a quotient
    and of a product moves a share by [2 ** -22] at most, far less than the
    margins, of [2 ** -16] at least, that decide the corrections. *)
Definition small_whole (ps : list Participant.t) (t q : Q) : Prop :=
  whole q /\ (0 <= q)%Q /\ (q <= inject_Z (2 ^ 30))%Q /\
  Forall (fun p => whole (damage_key p)) ps /\
  (t <= inject_Z (2 ^ 48))%Q /\
  Z.of_nat (List.length ps) <= 2 ^ 16.

(** ** Example data *)

Definition example_participant (i : Z) (n : string) (d : Q) : Participant.t :=
  Participant.mk i n (PyFloat d) true.

Definition example_prize (q : Q) (special : bool) (winners : Z) : Prize.t :=
  Prize.mk 1 "prize" (PyFloat q) special winners.

Definition example_app (integer : bool) (ps : list Participant.t) : App :=
  mkApp ps [] integer [].

Definition three_equal : list Participant.t :=
  [example_participant 1 "A" 1; example_participant 2 "B" 1;
   example_participant 3 "C" 1].

Definition one_one_two : list Participant.t :=
  [example_participant 1 "A" 1; example_participant 2 "B" 1;
   example_participant 3 "C" 2].

Definition five_participants : list Participant.t :=
  [example_participant 5 "E" 1; example_participant 2 "B" 1;
   example_participant 3 "C" 7; example_participant 1 "A" 2;
   example_participant 4 "D" 9].

(** * Properties *)

(** ** Comparisons and rounding *)

Lemma Qltb_true_iff (x y : Q) : Qltb x y = true <-> (x < y)%Q.
Proof.
  unfold Qltb. rewrite Qlt_alt.
  destruct (x ?= y)%Q; split; intro H; try reflexivity; discriminate.
Qed.

Lemma Qltb_false_iff (x y : Q) : Qltb x y = false <-> (y <= x)%Q.
Proof.
  rewrite <- Bool.not_true_iff_false, Qltb_true_iff.
  split; [apply Qnot_lt_le | apply Qle_not_lt].
Qed.

Lemma py_round_nonneg (x : Q) : (0 <= x)%Q -> 0 <= py_round x.
Proof.
  intro Hx. unfold py_round.
  assert (Hf : 0 <= Qfloor x).
  { change 0 with (Qfloor 0). now apply Qfloor_resp_le. }
  destruct (x - inject_Z (Qfloor x) ?= 1 # 2)%Q; [ destruct (Z.even _) | | ]; lia.
Qed.

Lemma Qtruncate_nonneg (x : Q) : (0 <= x)%Q -> 0 <= Qtruncate x.
Proof.
  intro Hx. unfold Qtruncate. apply Z.quot_pos; [ | lia ].
  unfold Qle in Hx. simpl in Hx. lia.
Qed.

(** On a whole number, [round] and [int] agree. *)
Lemma py_round_whole (n : Z) : py_round (inject_Z n) = Qtruncate (inject_Z n).
Proof.
  unfold py_round, Qtruncate. rewrite Qfloor_Z. simpl Qnum. simpl Qden.
  rewrite Z.quot_1_r.
  assert (H : (inject_Z n - inject_Z n ?= 1 # 2)%Q = Lt).
  { rewrite <- Qlt_alt. lra. }
  now rewrite H.
Qed.

(** ** The error monad on lists *)

Lemma rmap_ok {A B} (f : A -> result B) (g : A -> B) (l : list A) :
  (forall a, In a l -> f a = Ok (g a)) -> rmap f l = Ok (map g l).
Proof.
  induction l as [ | a l IH ]; intro H; simpl.
  - reflexivity.
  - rewrite (H a (or_introl eq_refl)). simpl.
    rewrite IH by (intros b Hb; apply H; now right). reflexivity.
Qed.

Lemma rmap_length {A B} (f : A -> result B) (l : list A) (bs : list B) :
  rmap f l = Ok bs -> List.length bs = List.length l.
Proof.
  revert bs. induction l as [ | a l IH ]; intros bs H; simpl in H.
  - injection H as <-. reflexivity.
  - destruct (f a) as [ b | e ]; simpl in H; [ | discriminate ].
    destruct (rmap f l) as [ bs' | e ]; simpl in H; [ | discriminate ].
    injection H as <-. simpl. f_equal. now apply IH.
Qed.

(** ** The stable sort *)

Section SortingFacts.
Context {A K : Type} (key : A -> K) (ltb : K -> K -> bool).

Lemma insert_by_perm (x : A) (l : list A) :
  Permutation (insert_by key ltb x l) (x :: l).
Proof.
  induction l as [ | y l IH ]; simpl.
  - reflexivity.
  - destruct (ltb (key y) (key x)).
    + rewrite IH. apply perm_swap.
    + reflexivity.
Qed.

Lemma py_sorted_perm (l : list A) : Permutation (py_sorted key ltb l) l.
Proof.
  induction l as [ | x l IH ]; simpl.
  - reflexivity.
  - rewrite insert_by_perm. now constructor.
Qed.

Lemma py_sorted_length (l : list A) :
  List.length (py_sorted key ltb l) = List.length l.
Proof. apply Permutation_length, py_sorted_perm. Qed.

Lemma py_sorted_In (l : list A) (x : A) : In x (py_sorted key ltb l) <-> In x l.
Proof.
  split; apply Permutation_in;
    [ apply py_sorted_perm | apply Permutation_sym, py_sorted_perm ].
Qed.

(** A list already in order is left as it is. *)
Lemma py_sorted_fixed (l : list A) :
  StronglySorted (fun a b => ltb (key b) (key a) = false) l ->
  py_sorted key ltb l = l.
Proof.
  induction 1 as [ | x l Hl IH Hx ]; simpl.
  - reflexivity.
  - rewrite IH. destruct l as [ | y l' ]; simpl.
    + reflexivity.
    + inversion Hx as [ | ? ? Hy _ ]; subst. now rewrite Hy.
Qed.

Variable le : K -> K -> Prop.
Hypothesis ltb_true : forall a b, ltb a b = true -> le a b.
Hypothesis ltb_false : forall a b, ltb a b = false -> le b a.
Hypothesis le_trans : forall a b c, le a b -> le b c -> le a c.

Let ordered (a b : A) : Prop := le (key a) (key b).

Lemma insert_by_sorted (x : A) (l : list A) :
  StronglySorted ordered l -> StronglySorted ordered (insert_by key ltb x l).
Proof.
  induction 1 as [ | y l Hl IH Hy ]; simpl.
  - constructor; constructor.
  - destruct (ltb (key y) (key x)) eqn:E.
    + constructor; [ exact IH | ].
      eapply Permutation_Forall; [ symmetry; apply insert_by_perm | ].
      constructor; [ now apply ltb_true | exact Hy ].
    + assert (Hxy : ordered x y) by now apply ltb_false.
      constructor; [ now constructor | ].
      constructor; [ exact Hxy | ].
      eapply Forall_impl; [ | exact Hy ].
      intros z Hz. unfold ordered in *. eapply le_trans; eassumption.
Qed.

Lemma py_sorted_sorted (l : list A) : StronglySorted ordered (py_sorted key ltb l).
Proof.
  induction l as [ | x l IH ]; simpl.
  - constructor.
  - now apply insert_by_sorted.
Qed.

End SortingFacts.

(** Sorting by an integer key. *)

Lemma py_sorted_by_key {A} (key : A -> Z) (l : list A) :
  StronglySorted (by_key key) (py_sorted key Z.ltb l).
Proof.
  apply (py_sorted_sorted key Z.ltb Z.le).
  - intros a b H. apply Z.ltb_lt in H. lia.
  - intros a b H. apply Z.ltb_ge in H. lia.
  - intros a b c. lia.
Qed.

Lemma py_sorted_by_key_fixed {A} (key : A -> Z) (l : list A) :
  StronglySorted (by_key key) l -> py_sorted key Z.ltb l = l.
Proof.
  intro H. apply py_sorted_fixed.
  eapply StronglySorted_ind with (P := StronglySorted _); [ constructor | | exact H ].
  intros a l' _ IH Ha. constructor; [ exact IH | ].
  eapply Forall_impl; [ | exact Ha ].
  intros b Hb. unfold by_key in Hb. apply Z.ltb_ge. lia.
Qed.

Lemma firstn_In {A} (n : nat) (l : list A) (x : A) : In x (firstn n l) -> In x l.
Proof.
  rewrite <- (firstn_skipn n l) at 2. intro H. apply in_or_app. now left.
Qed.

Lemma StronglySorted_firstn {A} (R : A -> A -> Prop) (n : nat) (l : list A) :
  StronglySorted R l -> StronglySorted R (firstn n l).
Proof.
  intro H. revert n. induction H as [ | x l Hl IH Hx ]; intros [ | n ]; simpl;
    try constructor.
  - apply IH.
  - rewrite Forall_forall in *. intros y Hy. apply Hx.
    eapply firstn_In; eassumption.
Qed.

Lemma StronglySorted_map {A B} (f : A -> B) (R : B -> B -> Prop) (l : list A) :
  StronglySorted (fun a b => R (f a) (f b)) l -> StronglySorted R (map f l).
Proof.
  induction 1 as [ | x l Hl IH Hx ]; simpl; constructor.
  - exact IH.
  - rewrite Forall_forall in *. intros y Hy.
    apply in_map_iff in Hy. destruct Hy as (a & <- & Ha). now apply Hx.
Qed.

(** Two ordered lists of integers with the same elements are equal. *)
Lemma sorted_perm_unique (l1 l2 : list Z) :
  StronglySorted Z.le l1 -> StronglySorted Z.le l2 -> Permutation l1 l2 ->
  l1 = l2.
Proof.
  intro H1. revert l2. induction H1 as [ | x l1 Hl1 IH Hx ]; intros l2 H2 HP.
  - apply Permutation_nil in HP. now subst.
  - destruct H2 as [ | y l2 Hl2 Hy ].
    + apply Permutation_sym, Permutation_nil in HP. discriminate.
    + assert (Hxy : x = y).
      { rewrite Forall_forall in Hx, Hy.
        assert (Hin1 : In x (y :: l2)) by (eapply Permutation_in; [ exact HP | now left ]).
        assert (Hin2 : In y (x :: l1))
          by (eapply Permutation_in; [ symmetry; exact HP | now left ]).
        destruct Hin1 as [ -> | Hin1 ]; [ reflexivity | ].
        destruct Hin2 as [ -> | Hin2 ]; [ reflexivity | ].
        specialize (Hx _ Hin2). specialize (Hy _ Hin1). lia. }
      subst y. f_equal. apply IH; [ exact Hl2 | ].
      eapply Permutation_cons_inv; exact HP.
Qed.

Lemma py_slice_to_nonneg {A} (n : Z) (l : list A) :
  0 <= n -> py_slice_to n l = firstn (Z.to_nat n) l.
Proof.
  intro H. unfold py_slice_to.
  destruct (n <? 0) eqn:E; [ apply Z.ltb_lt in E; lia | reflexivity ].
Qed.

Lemma py_slice_to_firstn {A} (n : Z) (l : list A) :
  exists k, py_slice_to n l = firstn k l.
Proof. unfold py_slice_to. destruct (n <? 0); eexists; reflexivity. Qed.

Lemma top_participants_sorted (prize : Prize.t) (active : list Participant.t) :
  StronglySorted (by_key Participant.id) (top_participants prize active).
Proof.
  unfold top_participants.
  destruct (py_slice_to_firstn (Prize.top_winners prize)
              (py_sorted Participant.id Z.ltb active)) as [ k -> ].
  apply StronglySorted_firstn, py_sorted_by_key.
Qed.

Lemma top_participants_In (prize : Prize.t) (active : list Participant.t)
    (p : Participant.t) :
  In p (top_participants prize active) -> In p active.
Proof.
  unfold top_participants.
  destruct (py_slice_to_firstn (Prize.top_winners prize)
              (py_sorted Participant.id Z.ltb active)) as [ k -> ].
  intro H. apply firstn_In in H. now apply py_sorted_In in H.
Qed.

Lemma recipients_In (prize : Prize.t) (ps : list Participant.t) (p : Participant.t) :
  In p (recipients prize ps) -> In p (active_participants ps).
Proof.
  unfold recipients. destruct (Prize.is_special prize).
  - apply top_participants_In.
  - trivial.
Qed.

(** ** The correction scans *)

Section Scan.
Variable cand : share -> bool.
Variable cost : share -> Q.

Lemma below_trans (x y : Q) (b : bound) :
  (x < y)%Q -> below y b = true -> below x b = true.
Proof.
  destruct b as [ | z ]; simpl; [ reflexivity | ].
  rewrite !Qltb_true_iff. intros. eapply Qlt_trans; eassumption.
Qed.

Lemma below_split (x y : Q) (b : bound) :
  below x b = true -> below y b = false -> (x < y)%Q.
Proof.
  destruct b as [ | z ]; simpl; [ discriminate | ].
  rewrite Qltb_true_iff, Qltb_false_iff. intros. eapply Qlt_le_trans; eassumption.
Qed.

Lemma scan_min_spec (shares : list share) :
  forall j best idx,
    (scan_min cand cost shares j best idx = idx /\
     forall s, In s shares -> cand s = true -> below (cost s) best = false)
    \/
    (exists k s, first_minimum cand cost shares k s /\
                 scan_min cand cost shares j best idx = j + Z.of_nat k /\
                 below (cost s) best = true).
Proof.
  induction shares as [ | s rest IH ]; intros j best idx.
  - left. split; [ reflexivity | intros s [] ].
  - simpl. destruct (cand s && below (cost s) best) eqn:E.
    + apply andb_true_iff in E. destruct E as [ Ec Eb ]. right.
      destruct (IH (j + 1) (Fin (cost s)) j) as [ [ Hr Hall ] | (k & s2 & Hmin & Hr & Hb) ].
      * exists O, s. repeat split; try assumption.
        -- destruct k' as [ | k' ]; simpl in H.
           ++ injection H as <-. apply Qle_refl.
           ++ apply nth_error_In in H. specialize (Hall _ H H0).
              simpl in Hall. now apply Qltb_false_iff.
        -- lia.
        -- rewrite Hr. simpl. lia.
      * simpl in Hb. apply Qltb_true_iff in Hb.
        destruct Hmin as (Hn & Hc & Hm).
        exists (S k), s2. repeat split; try assumption.
        -- destruct k' as [ | k' ]; simpl in H.
           ++ injection H as <-. now apply Qlt_le_weak.
           ++ now apply (Hm k' s').
        -- destruct k' as [ | k' ]; simpl in H.
           ++ injection H as <-. intros _. exact Hb.
           ++ intro Hlt. apply (Hm k' s'); [ assumption | assumption | lia ].
        -- rewrite Hr. lia.
        -- eapply below_trans; eassumption.
    + apply andb_false_iff in E.
      destruct (IH (j + 1) best idx) as [ [ Hr Hall ] | (k & s2 & Hmin & Hr & Hb) ].
      * left. split; [ exact Hr | ].
        intros s' [ <- | Hin ] Hc; [ | now apply Hall ].
        destruct E as [ E | E ]; [ congruence | exact E ].
      * destruct Hmin as (Hn & Hc & Hm).
        assert (Hs : cand s = true -> (cost s2 < cost s)%Q).
        { intro Hcs. destruct E as [ E | E ]; [ congruence | ].
          eapply below_split; eassumption. }
        right. exists (S k), s2. repeat split; try assumption.
        -- destruct k' as [ | k' ]; simpl in H.
           ++ injection H as <-. now apply Qlt_le_weak, Hs.
           ++ now apply (Hm k' s').
        -- destruct k' as [ | k' ]; simpl in H.
           ++ injection H as <-. intros _. now apply Hs.
           ++ intro Hlt. apply (Hm k' s'); [ assumption | assumption | lia ].
        -- rewrite Hr. lia.
Qed.

(** A scan started as the code starts it: from index [0], with
    [float('inf')] and [-1]. *)
Lemma scan_min_start (shares : list share) :
  (scan_min cand cost shares 0 Inf (-1) = -1 /\ forall s, In s shares -> cand s = false)
  \/
  (exists k s, first_minimum cand cost shares k s /\
               scan_min cand cost shares 0 Inf (-1) = Z.of_nat k).
Proof.
  destruct (scan_min_spec shares 0 Inf (-1)) as [ [ Hr Hall ] | (k & s & Hmin & Hr & _) ].
  - left. split; [ exact Hr | ].
    intros s Hin. destruct (cand s) eqn:E; [ | reflexivity ].
    specialize (Hall s Hin E). discriminate.
  - right. exists k, s. split; [ exact Hmin | ]. rewrite Hr. lia.
Qed.

End Scan.

Lemma scan_loss_eq (shares : list share) :
  forall j best idx,
    scan_loss shares j best idx = scan_min can_decrement loss shares j best idx.
Proof.
  induction shares as [ | s rest IH ]; intros j best idx; simpl.
  - reflexivity.
  - unfold can_decrement at 1.
    destruct (0 <? sh_qty s); destruct (below (loss s) best); simpl; apply IH.
Qed.

Lemma scan_gain_eq (shares : list share) :
  forall j best idx,
    scan_gain shares j best idx = scan_min (fun _ => true) gain shares j best idx.
Proof.
  induction shares as [ | s rest IH ]; intros j best idx; simpl.
  - reflexivity.
  - destruct (below (gain s) best); simpl; apply IH.
Qed.

Lemma decrement_once_spec (shares : list share) :
  (decrement_once shares = shares /\ forall s, In s shares -> sh_qty s <= 0)
  \/
  (exists k s, first_minimum can_decrement loss shares k s /\
               decrement_once shares = add_at k (-1) shares).
Proof.
  unfold decrement_once. rewrite scan_loss_eq.
  destruct (scan_min_start can_decrement loss shares) as [ [ -> Hall ] | (k & s & Hmin & ->) ].
  - left. split; [ reflexivity | ].
    intros s Hin. specialize (Hall s Hin). unfold can_decrement in Hall.
    apply Z.ltb_ge in Hall. exact Hall.
  - right. exists k, s. split; [ exact Hmin | ].
    destruct (0 <=? Z.of_nat k) eqn:E; [ | apply Z.leb_gt in E; lia ].
    now rewrite Nat2Z.id.
Qed.

Lemma increment_once_spec (shares : list share) :
  shares <> [] ->
  exists k s, first_minimum (fun _ => true) gain shares k s /\
              increment_once shares = add_at k 1 shares.
Proof.
  intro Hne. unfold increment_once. rewrite scan_gain_eq.
  destruct (scan_min_start (fun _ => true) gain shares) as [ [ _ Hall ] | (k & s & Hmin & ->) ].
  - destruct shares as [ | s rest ]; [ congruence | ].
    specialize (Hall s (or_introl eq_refl)). discriminate.
  - exists k, s. split; [ exact Hmin | ].
    destruct (0 <=? Z.of_nat k) eqn:E; [ | apply Z.leb_gt in E; lia ].
    now rewrite Nat2Z.id.
Qed.

(** ** The running total under the corrections *)

Lemma fold_left_add (l : list Z) (a : Z) :
  fold_left Z.add l a = a + fold_right Z.add 0 l.
Proof.
  revert a. induction l as [ | x l IH ]; intro a; simpl.
  - lia.
  - rewrite IH. lia.
Qed.

Lemma total_assigned_sum (shares : list share) :
  total_assigned shares = fold_right Z.add 0 (map sh_qty shares).
Proof. unfold total_assigned. rewrite fold_left_add. lia. Qed.

Lemma total_assigned_cons (s : share) (shares : list share) :
  total_assigned (s :: shares) = sh_qty s + total_assigned shares.
Proof. rewrite !total_assigned_sum. reflexivity. Qed.

Lemma add_at_total (k : nat) (d : Z) (shares : list share) (s : share) :
  nth_error shares k = Some s ->
  total_assigned (add_at k d shares) = total_assigned shares + d.
Proof.
  revert k. induction shares as [ | x rest IH ]; intros [ | k ] H; simpl in *;
    try discriminate.
  - rewrite !total_assigned_cons. simpl. lia.
  - rewrite !total_assigned_cons, (IH k H). lia.
Qed.

Lemma add_at_length (k : nat) (d : Z) (shares : list share) :
  List.length (add_at k d shares) = List.length shares.
Proof.
  revert k. induction shares as [ | x rest IH ]; intros [ | k ]; simpl; auto.
Qed.

Lemma add_at_participants (k : nat) (d : Z) (shares : list share) :
  map sh_participant (add_at k d shares) = map sh_participant shares.
Proof.
  revert k. induction shares as [ | x rest IH ]; intros [ | k ]; simpl;
    try reflexivity.
  now rewrite IH.
Qed.

Lemma add_at_exact (k : nat) (d : Z) (shares : list share) :
  map sh_exact (add_at k d shares) = map sh_exact shares.
Proof.
  revert k. induction shares as [ | x rest IH ]; intros [ | k ]; simpl;
    try reflexivity.
  now rewrite IH.
Qed.

Lemma add_at_nonneg (k : nat) (d : Z) (shares : list share) (s : share) :
  nth_error shares k = Some s -> 0 <= sh_qty s + d ->
  Forall (fun x => 0 <= sh_qty x) shares ->
  Forall (fun x => 0 <= sh_qty x) (add_at k d shares).
Proof.
  revert k. induction shares as [ | x rest IH ]; intros [ | k ] H Hd Hall;
    simpl in *; try discriminate; inversion Hall; subst; constructor; auto.
  - injection H as ->. exact Hd.
Qed.

Lemma total_nonpos (shares : list share) :
  (forall s, In s shares -> sh_qty s <= 0) -> total_assigned shares <= 0.
Proof.
  induction shares as [ | x rest IH ]; intro H.
  - reflexivity.
  - rewrite total_assigned_cons.
    assert (sh_qty x <= 0) by (apply H; now left).
    assert (total_assigned rest <= 0) by (apply IH; intros; apply H; now right).
    lia.
Qed.

Lemma decrement_once_keeps (P : list share -> Prop) (shares : list share) :
  kept_by_corrections P -> P shares -> P (decrement_once shares).
Proof.
  intros HP H.
  destruct (decrement_once_spec shares) as [ [ -> _ ] | (k & s & (Hn & Hc & _) & ->) ].
  - exact H.
  - apply (HP k (-1) shares s Hn); [ | exact H ].
    left. unfold can_decrement in Hc. apply Z.ltb_lt in Hc. now split.
Qed.

Lemma increment_once_keeps (P : list share -> Prop) (shares : list share) :
  kept_by_corrections P -> P shares -> P (increment_once shares).
Proof.
  intros HP H. destruct shares as [ | x rest ].
  - exact H.
  - destruct (increment_once_spec (x :: rest)) as (k & s & (Hn & _) & ->);
      [ discriminate | ].
    apply (HP k 1 (x :: rest) s Hn); [ now right | exact H ].
Qed.

Lemma iter_keeps {A} (P : A -> Prop) (f : A -> A) (n : nat) (x : A) :
  (forall y, P y -> P (f y)) -> P x -> P (Nat.iter n f x).
Proof.
  intros Hf Hx. induction n as [ | n IH ]; simpl; auto.
Qed.

Lemma correct_total_keeps (P : list share -> Prop) (diff : Z) (shares : list share) :
  kept_by_corrections P -> P shares -> P (correct_total diff shares).
Proof.
  intros HP H. unfold correct_total.
  destruct (diff =? 0); [ exact H | ].
  destruct (0 <? diff); apply iter_keeps; try exact H; intros y Hy.
  - now apply decrement_once_keeps.
  - now apply increment_once_keeps.
Qed.

Lemma correct_total_length (diff : Z) (shares : list share) :
  List.length (correct_total diff shares) = List.length shares.
Proof.
  apply (correct_total_keeps (fun l => List.length l = List.length shares));
    [ | reflexivity ].
  intros k d l s _ _ H. now rewrite add_at_length.
Qed.

Lemma correct_total_participants (diff : Z) (shares : list share) :
  map sh_participant (correct_total diff shares) = map sh_participant shares.
Proof.
  apply (correct_total_keeps
           (fun l => map sh_participant l = map sh_participant shares));
    [ | reflexivity ].
  intros k d l s _ _ H. now rewrite add_at_participants.
Qed.

Lemma correct_total_nonneg (diff : Z) (shares : list share) :
  Forall (fun x => 0 <= sh_qty x) shares ->
  Forall (fun x => 0 <= sh_qty x) (correct_total diff shares).
Proof.
  apply correct_total_keeps.
  intros k d l s Hn Hd Hall. eapply add_at_nonneg; try eassumption.
  assert (0 <= sh_qty s).
  { rewrite Forall_forall in Hall. apply Hall. eapply nth_error_In; eassumption. }
  lia.
Qed.

Lemma decrement_iter_total (n : nat) (shares : list share) :
  0 <= total_assigned shares - Z.of_nat n ->
  total_assigned (Nat.iter n decrement_once shares)
  = total_assigned shares - Z.of_nat n.
Proof.
  induction n as [ | n IH ]; intro H; simpl Nat.iter.
  - simpl. lia.
  - assert (IH' := IH ltac:(lia)).
    destruct (decrement_once_spec (Nat.iter n decrement_once shares))
      as [ [ _ Hall ] | (k & s & (Hn & _) & ->) ].
    + apply total_nonpos in Hall. lia.
    + rewrite (add_at_total _ _ _ _ Hn). lia.
Qed.

Lemma increment_iter_total (n : nat) (shares : list share) :
  shares <> [] ->
  total_assigned (Nat.iter n increment_once shares)
  = total_assigned shares + Z.of_nat n.
Proof.
  intro Hne. induction n as [ | n IH ]; simpl Nat.iter.
  - simpl. lia.
  - assert (Hne' : Nat.iter n increment_once shares <> []).
    { apply (iter_keeps (fun l => l <> [])); [ | exact Hne ].
      intros y Hy. apply (increment_once_keeps (fun l => l <> [])); [ | exact Hy ].
      intros k d l s Hn _ _ E. apply (f_equal (@List.length share)) in E.
      rewrite add_at_length in E. destruct l; [ now destruct k | discriminate ]. }
    destruct (increment_once_spec _ Hne') as (k & s & (Hn & _) & ->).
    rewrite (add_at_total _ _ _ _ Hn). lia.
Qed.

(** The corrections bring the total to the target, whenever the target is not
    negative and there is a share to increment. *)
Lemma correct_total_total (target : Z) (shares : list share) :
  0 <= target -> shares <> [] ->
  total_assigned (correct_total (total_assigned shares - target) shares) = target.
Proof.
  intros Ht Hne. unfold correct_total.
  destruct (total_assigned shares - target =? 0) eqn:E0.
  - apply Z.eqb_eq in E0. lia.
  - apply Z.eqb_neq in E0.
    destruct (0 <? total_assigned shares - target) eqn:E1.
    + apply Z.ltb_lt in E1. rewrite decrement_iter_total; lia.
    + apply Z.ltb_ge in E1. rewrite increment_iter_total by exact Hne. lia.
Qed.

(** ** Weights *)

Lemma weight_ok_float (p : Participant.t) :
  weight_ok p -> is_float (Participant.damage p) = true.
Proof. intros (x & -> & _). reflexivity. Qed.

Lemma weight_ok_key (p : Participant.t) :
  weight_ok p -> Participant.damage p = PyFloat (damage_key p) /\ (0 <= damage_key p)%Q.
Proof. intros (x & H & Hx). unfold damage_key. rewrite H. now split. Qed.

Lemma py_sum_from_weights (l : list Participant.t) :
  Forall weight_ok l ->
  forall acc, exists t,
    py_sum_from acc (map Participant.damage l) = Ok t /\ (acc <= t)%Q /\
    (t == acc -> forall p, In p l -> damage_key p == 0)%Q.
Proof.
  induction 1 as [ | p l Hp Hl IH ]; intro acc; simpl.
  - exists acc. split; [ reflexivity | ]. split; [ apply Qle_refl | ].
    intros _ p [].
  - destruct (weight_ok_key p Hp) as [ -> Hx ].
    destruct (IH (acc + damage_key p)%Q) as (t & Ht & Hle & Hz).
    exists t. split; [ exact Ht | ]. split; [ lra | ].
    intros E q [ <- | Hq ].
    + lra.
    + apply Hz; [ lra | exact Hq ].
Qed.

Lemma py_sum_from_zero (l : list Participant.t) :
  (forall p, In p l -> damage_key p == 0)%Q ->
  forall acc t, py_sum_from acc (map Participant.damage l) = Ok t -> (t == acc)%Q.
Proof.
  induction l as [ | p l IH ]; intros Hz acc t H; simpl in H.
  - injection H as <-. reflexivity.
  - assert (Hp := Hz p (or_introl eq_refl)). unfold damage_key in Hp.
    destruct (Participant.damage p) as [ x | s ]; [ | discriminate ].
    apply IH in H; [ | intros; apply Hz; now right ]. lra.
Qed.

(** With weights that are not negative, a positive total of a part of the
    active participants makes their whole total positive. *)
Lemma active_total_positive (prize : Prize.t) (ps : list Participant.t) (t : Q) :
  Forall weight_ok (active_participants ps) ->
  py_sum (map Participant.damage (recipients prize ps)) = Ok t -> (0 < t)%Q ->
  exists t0, py_sum (map Participant.damage (active_participants ps)) = Ok t0 /\
             (0 < t0)%Q.
Proof.
  intros Hw Ht Hpos.
  destruct (py_sum_from_weights _ Hw 0%Q) as (t0 & Ht0 & Hle & Hz).
  exists t0. split; [ exact Ht0 | ].
  destruct (Qlt_le_dec 0 t0) as [ H | H ]; [ exact H | exfalso ].
  assert (E : (t0 == 0)%Q) by lra.
  apply (py_sum_from_zero (recipients prize ps)) in Ht.
  - lra.
  - intros p Hp. apply Hz; [ exact E | ]. now apply recipients_In in Hp.
Qed.

Lemma Qeq_bool_pos (t : Q) : (0 < t)%Q -> Qeq_bool t 0 = false.
Proof.
  intro H. destruct (Qeq_bool t 0) eqn:E; [ | reflexivity ].
  apply Qeq_bool_eq in E. lra.
Qed.

Lemma recipients_weight_ok (prize : Prize.t) (ps : list Participant.t) :
  Forall weight_ok (active_participants ps) ->
  Forall weight_ok (recipients prize ps).
Proof.
  rewrite !Forall_forall. intros H p Hp. eapply H, recipients_In, Hp.
Qed.

Lemma recipients_sorted_fixed (prize : Prize.t) (ps : list Participant.t) :
  Prize.is_special prize = true ->
  py_sorted Participant.id Z.ltb (recipients prize ps) = recipients prize ps.
Proof.
  intro H. unfold recipients. rewrite H.
  apply py_sorted_by_key_fixed, top_participants_sorted.
Qed.

(** ** The two functions on well-formed input *)

Lemma py_mul_converts (x r : Q) :
  (Qabs x < float_overflow)%Q -> py_mul (PyFloat x) r = Ok (x * r)%Q.
Proof.
  intro H. unfold py_mul.
  destruct (Qle_bool float_overflow (Qabs x)) eqn:E; [ | reflexivity ].
  apply Qle_bool_iff in E. exfalso. eapply Qlt_not_le; eassumption.
Qed.

Lemma py_mul_overflows (x r : Q) (y : Q) :
  (float_overflow <= Qabs x)%Q -> py_mul (PyFloat x) r <> Ok y.
Proof.
  intro H. unfold py_mul. apply Qle_bool_iff in H. rewrite H. discriminate.
Qed.

Lemma exact_shares_ok (ps : list Participant.t) (total quantity : Q) :
  Forall weight_ok ps -> Qeq_bool total 0 = false ->
  (Qabs quantity < float_overflow)%Q ->
  exact_shares ps total (PyFloat quantity)
  = Ok (map (fun p => (p, exact_of quantity total p, exact_of quantity total p))
            (py_sorted damage_key (fun a b => Qltb b a) ps)).
Proof.
  intros Hw Ht Hc. unfold exact_shares, sorted_by_damage_desc.
  assert (Hf : forallb (fun p => is_float (Participant.damage p)) ps = true).
  { apply forallb_forall. rewrite Forall_forall in Hw.
    intros p Hp. now apply weight_ok_float, Hw. }
  rewrite Hf. cbn [rbind]. apply rmap_ok.
  intros p Hp. apply py_sorted_In in Hp. rewrite Forall_forall in Hw.
  destruct (weight_ok_key p (Hw p Hp)) as [ E _ ].
  rewrite E. unfold py_truediv. rewrite Ht. cbn [rbind].
  rewrite (py_mul_converts _ _ Hc). reflexivity.
Qed.

Lemma integer_body_ok (ps : list Participant.t) (total quantity : Q) :
  ps <> [] -> Forall weight_ok ps -> Qeq_bool total 0 = false ->
  (Qabs quantity < float_overflow)%Q ->
  calculate_integer_distribution_body ps total (PyFloat quantity)
  = Ok (py_sorted row_id Z.ltb
          (map row_of_share
               (correct_total
                  (total_assigned (rounded_shares ps total quantity)
                   - Qtruncate quantity)
                  (rounded_shares ps total quantity)))).
Proof.
  intros Hne Hw Ht Hc. unfold calculate_integer_distribution_body.
  destruct ps as [ | p ps ]; [ congruence | ].
  simpl is_nil. rewrite Ht. simpl orb. cbv iota.
  simpl py_int. unfold rbind at 1.
  rewrite (exact_shares_ok _ _ _ Hw Ht Hc). reflexivity.
Qed.

(** [calculate_integer_distribution] has a handler for every exception. *)
Lemma calculate_integer_distribution_run (ps : list Participant.t) (total : Q)
    (quantity : pyval) (st : App) :
  calculate_integer_distribution ps total quantity st
  = match calculate_integer_distribution_body ps total quantity with
    | Ok rows => (Ok rows, st)
    | Raise _ =>
        (Ok [], mkApp (participants st) (prizes st) (integer_only st)
                  (log st ++ [("error", "log_error_integer_distribution")]%string))
    end.
Proof.
  unfold calculate_integer_distribution, try_except, lift.
  destruct (calculate_integer_distribution_body ps total quantity); reflexivity.
Qed.

(** Past its two guards, [calculate_distribution] shares the prize among the
    [recipients]. *)
Lemma calculate_distribution_run (prize : Prize.t) (st : App) (t0 t : Q) :
  active_participants (participants st) <> [] ->
  py_sum (map Participant.damage (active_participants (participants st))) = Ok t0 ->
  Qeq_bool t0 0 = false ->
  py_sum (map Participant.damage (recipients prize (participants st))) = Ok t ->
  calculate_distribution prize st
  = if integer_only st
    then calculate_integer_distribution (recipients prize (participants st)) t
           (Prize.quantity prize) st
    else try_except
           (lift (real_distribution
                    (py_sorted Participant.id Z.ltb
                       (recipients prize (participants st)))
                    t (Prize.quantity prize)))
           distribution_handler st.
Proof.
  intros Hne H0 Hz Ht.
  assert (Hfix := recipients_sorted_fixed prize (participants st)).
  unfold recipients in *.
  unfold calculate_distribution, distribution_handler, try_except, bind,
    get_participants, get_integer_only, lift, ret.
  destruct (active_participants (participants st)) as [ | a l ] eqn:Ea;
    [ congruence | ].
  change (is_nil (a :: l)) with false. cbv beta iota.
  rewrite H0. rewrite Hz.
  destruct (Prize.is_special prize).
  - rewrite (Hfix eq_refl). rewrite Ht.
    destruct (integer_only st).
    + rewrite calculate_integer_distribution_run.
      destruct (calculate_integer_distribution_body _ _ _); reflexivity.
    + reflexivity.
  - assert (E : t0 = t) by congruence. subst t0.
    destruct (integer_only st).
    + rewrite calculate_integer_distribution_run.
      destruct (calculate_integer_distribution_body _ _ _); reflexivity.
    + reflexivity.
Qed.

(** ** The result on well-formed input *)

Lemma real_distribution_ok (ps : list Participant.t) (total quantity : Q) :
  Forall weight_ok ps -> Qeq_bool total 0 = false ->
  (Qabs quantity < float_overflow)%Q ->
  real_distribution ps total (PyFloat quantity) = Ok (real_rows ps total quantity).
Proof.
  intros Hw Ht Hc. unfold real_distribution, real_rows. apply rmap_ok.
  intros p Hp. rewrite Forall_forall in Hw.
  destruct (weight_ok_key p (Hw p Hp)) as [ E _ ].
  rewrite E. unfold py_truediv. rewrite Ht. cbn [rbind].
  rewrite (py_mul_converts _ _ Hc). reflexivity.
Qed.

Lemma rounded_shares_participants (ps : list Participant.t) (total quantity : Q) :
  map sh_participant (rounded_shares ps total quantity)
  = py_sorted damage_key (fun a b => Qltb b a) ps.
Proof.
  unfold rounded_shares, round_shares. rewrite !map_map. simpl. apply map_id.
Qed.

Lemma rounded_shares_length (ps : list Participant.t) (total quantity : Q) :
  List.length (rounded_shares ps total quantity) = List.length ps.
Proof.
  rewrite <- (length_map sh_participant), rounded_shares_participants.
  apply py_sorted_length.
Qed.

Lemma exact_of_nonneg (quantity total : Q) (p : Participant.t) :
  (0 <= quantity)%Q -> (0 < total)%Q -> weight_ok p ->
  (0 <= exact_of quantity total p)%Q.
Proof.
  intros Hq Ht Hp. destruct (weight_ok_key p Hp) as [ _ Hd ].
  unfold exact_of. apply Qmult_le_0_compat; [ exact Hq | ].
  unfold Qdiv. apply Qmult_le_0_compat; [ exact Hd | ].
  apply Qlt_le_weak, Qinv_lt_0_compat, Ht.
Qed.

Lemma rounded_shares_nonneg (ps : list Participant.t) (total quantity : Q) :
  (0 <= quantity)%Q -> (0 < total)%Q -> Forall weight_ok ps ->
  Forall (fun s => 0 <= sh_qty s) (rounded_shares ps total quantity).
Proof.
  intros Hq Ht Hw. unfold rounded_shares, round_shares. rewrite map_map.
  apply Forall_map, Forall_forall. intros p Hp. simpl.
  apply py_round_nonneg, exact_of_nonneg; try assumption.
  rewrite Forall_forall in Hw. apply Hw. now apply py_sorted_In in Hp.
Qed.

Lemma fold_right_add_perm (l l' : list Z) :
  Permutation l l' -> fold_right Z.add 0 l = fold_right Z.add 0 l'.
Proof.
  induction 1; simpl; lia.
Qed.

Lemma integer_rows_perm (ps : list Participant.t) (total quantity : Q) :
  Permutation (integer_rows ps total quantity)
    (map row_of_share
         (correct_total
            (total_assigned (rounded_shares ps total quantity) - Qtruncate quantity)
            (rounded_shares ps total quantity))).
Proof. apply py_sorted_perm. Qed.

Lemma integer_rows_length (ps : list Participant.t) (total quantity : Q) :
  List.length (integer_rows ps total quantity) = List.length ps.
Proof.
  rewrite (Permutation_length (integer_rows_perm ps total quantity)).
  rewrite length_map, correct_total_length. apply rounded_shares_length.
Qed.

Lemma integer_rows_sorted (ps : list Participant.t) (total quantity : Q) :
  StronglySorted (by_key row_id) (integer_rows ps total quantity).
Proof. apply py_sorted_by_key. Qed.

Lemma integer_rows_ids (ps : list Participant.t) (total quantity : Q) :
  Permutation (map row_id (integer_rows ps total quantity)) (map Participant.id ps).
Proof.
  rewrite (Permutation_map row_id (integer_rows_perm ps total quantity)).
  rewrite map_map.
  change (fun x => row_id (row_of_share x))
    with (fun x => Participant.id (sh_participant x)).
  rewrite <- (map_map sh_participant Participant.id).
  rewrite correct_total_participants, rounded_shares_participants.
  apply Permutation_map, py_sorted_perm.
Qed.

Lemma integer_rows_sum (ps : list Participant.t) (total quantity : Q) :
  ps <> [] -> 0 <= Qtruncate quantity ->
  sums_to (integer_rows ps total quantity) (Qtruncate quantity).
Proof.
  intros Hne Hq. exists (map int_of_row (integer_rows ps total quantity)). split.
  - rewrite map_map. apply map_ext_in. intros r Hr.
    apply (Permutation_in _ (integer_rows_perm ps total quantity)) in Hr.
    apply in_map_iff in Hr. destruct Hr as (s & <- & _). reflexivity.
  - rewrite (fold_right_add_perm _ _
               (Permutation_map int_of_row (integer_rows_perm ps total quantity))).
    rewrite map_map.
    change (fun x => int_of_row (row_of_share x)) with sh_qty.
    rewrite <- total_assigned_sum. apply correct_total_total; [ exact Hq | ].
    intro E. apply (f_equal (@List.length share)) in E.
    rewrite rounded_shares_length in E. destruct ps; [ congruence | discriminate ].
Qed.

Lemma integer_rows_nonneg (ps : list Participant.t) (total quantity : Q) :
  (0 <= quantity)%Q -> (0 < total)%Q -> Forall weight_ok ps ->
  Forall (fun r => nonneg (row_qty r)) (integer_rows ps total quantity).
Proof.
  intros Hq Ht Hw.
  eapply Permutation_Forall; [ symmetry; apply integer_rows_perm | ].
  apply Forall_map.
  eapply Forall_impl;
    [ | apply correct_total_nonneg, rounded_shares_nonneg; eassumption ].
  intros s Hs. exact Hs.
Qed.

Lemma real_rows_nonneg (ps : list Participant.t) (total quantity : Q) :
  (0 <= quantity)%Q -> (0 < total)%Q -> Forall weight_ok ps ->
  Forall (fun r => nonneg (row_qty r)) (real_rows ps total quantity).
Proof.
  intros Hq Ht Hw. unfold real_rows. apply Forall_map.
  eapply Forall_impl; [ | exact Hw ].
  intros p Hp. simpl. now apply exact_of_nonneg.
Qed.

Lemma shareable_recipients (prize : Prize.t) (st : App) (t : Q) :
  shareable prize st t -> recipients prize (participants st) <> [].
Proof.
  intros (_ & Ht & Hpos) E. rewrite E in Ht. injection Ht as <-. lra.
Qed.

Lemma max_exact_converts (x : Q) :
  (Qabs x <= max_exact)%Q -> (Qabs x < float_overflow)%Q.
Proof.
  intro H. eapply Qle_lt_trans; [ exact H | ].
  unfold max_exact, float_overflow. rewrite <- Zlt_Qlt. reflexivity.
Qed.

Lemma float_sized_converts (prize : Prize.t) (st : App) (q : Q) :
  float_sized prize st -> Prize.quantity prize = PyFloat q ->
  (Qabs q < float_overflow)%Q.
Proof. intros [ H _ ] Hq. now apply max_exact_converts, H. Qed.

Lemma small_whole_converts (ps : list Participant.t) (t q : Q) :
  small_whole ps t q -> (Qabs q < float_overflow)%Q.
Proof.
  intros (_ & H0 & H1 & _). rewrite (Qabs_pos q H0).
  eapply Qle_lt_trans; [ exact H1 | ].
  unfold float_overflow. rewrite <- Zlt_Qlt. reflexivity.
Qed.

Lemma integer_mode_run (prize : Prize.t) (st : App) (q t : Q) :
  integer_only st = true -> Prize.quantity prize = PyFloat q ->
  (Qabs q < float_overflow)%Q ->
  shareable prize st t ->
  calculate_distribution prize st
  = (Ok (integer_rows (recipients prize (participants st)) t q), st).
Proof.
  intros Hi Hq Hc Hs. assert (Hne := shareable_recipients _ _ _ Hs).
  destruct Hs as (Hw & Ht & Hpos).
  destruct (active_total_positive _ _ _ Hw Ht Hpos) as (t0 & Ht0 & Hpos0).
  rewrite (calculate_distribution_run prize st t0 t); try assumption.
  - rewrite Hi, calculate_integer_distribution_run, Hq.
    rewrite integer_body_ok; [ reflexivity | exact Hne | | | exact Hc ].
    + now apply recipients_weight_ok.
    + now apply Qeq_bool_pos.
  - intro E. destruct (recipients prize (participants st)) as [ | p l ] eqn:Er;
      [ congruence | ].
    assert (Hin : In p (active_participants (participants st))).
    { apply (recipients_In prize). rewrite Er. now left. }
    rewrite E in Hin. exact Hin.
  - now apply Qeq_bool_pos.
Qed.

Lemma real_mode_run (prize : Prize.t) (st : App) (q t : Q) :
  integer_only st = false -> Prize.quantity prize = PyFloat q ->
  (Qabs q < float_overflow)%Q ->
  shareable prize st t ->
  calculate_distribution prize st
  = (Ok (real_rows (py_sorted Participant.id Z.ltb
                      (recipients prize (participants st))) t q), st).
Proof.
  intros Hi Hq Hc Hs. assert (Hne := shareable_recipients _ _ _ Hs).
  destruct Hs as (Hw & Ht & Hpos).
  destruct (active_total_positive _ _ _ Hw Ht Hpos) as (t0 & Ht0 & Hpos0).
  rewrite (calculate_distribution_run prize st t0 t); try assumption.
  - rewrite Hi, Hq. unfold try_except, lift.
    rewrite real_distribution_ok;
      [ reflexivity | | now apply Qeq_bool_pos | exact Hc ].
    rewrite Forall_forall. intros p Hp. apply py_sorted_In in Hp.
    revert p Hp. rewrite <- Forall_forall. now apply recipients_weight_ok.
  - intro E. destruct (recipients prize (participants st)) as [ | p l ] eqn:Er;
      [ congruence | ].
    assert (Hin : In p (active_participants (participants st))).
    { apply (recipients_In prize). rewrite Er. now left. }
    rewrite E in Hin. exact Hin.
  - now apply Qeq_bool_pos.
Qed.

(** ** Every path returns *)

Lemma integer_body_length (ps : list Participant.t) (total : Q) (quantity : pyval)
    (rows : list row) :
  calculate_integer_distribution_body ps total quantity = Ok rows ->
  (List.length rows <= List.length ps)%nat.
Proof.
  unfold calculate_integer_distribution_body.
  destruct (is_nil ps || Qeq_bool total 0).
  - intro H. injection H as <-. simpl. lia.
  - destruct (py_int quantity) as [ n | e ]; simpl; [ | discriminate ].
    destruct (exact_shares ps total quantity) as [ sh | e ] eqn:E; simpl;
      [ | discriminate ].
    intro H. injection H as <-.
    rewrite py_sorted_length, length_map, correct_total_length.
    unfold round_shares. rewrite length_map.
    unfold exact_shares, sorted_by_damage_desc in E.
    destruct (forallb _ ps); simpl in E; [ | discriminate ].
    apply rmap_length in E. rewrite E, py_sorted_length. lia.
Qed.

Ltac returned :=
  eexists _, _; split; [ reflexivity | ];
  repeat (split; [ assumption || reflexivity | ]).

(** Every path of [calculate_distribution] returns a list, which is empty or
    comes from one of the two computations on the recipients, and changes at
    most the log. *)
Lemma calculate_distribution_cases (prize : Prize.t) (st : App) :
  exists rows st',
    calculate_distribution prize st = (Ok rows, st') /\
    participants st' = participants st /\
    prizes st' = prizes st /\
    integer_only st' = integer_only st /\
    (rows = [] \/
     exists t,
       if integer_only st
       then calculate_integer_distribution_body
              (recipients prize (participants st)) t (Prize.quantity prize)
            = Ok rows
       else real_distribution
              (py_sorted Participant.id Z.ltb (recipients prize (participants st)))
              t (Prize.quantity prize)
            = Ok rows).
Proof.
  assert (Hfix := recipients_sorted_fixed prize (participants st)).
  unfold calculate_distribution, distribution_handler, try_except, bind,
    get_participants, get_integer_only, lift, ret, log_message, recipients in *.
  destruct (active_participants (participants st)) as [ | a l ] eqn:Ea;
    [ returned; now left | ].
  change (is_nil (a :: l)) with false. cbv beta iota.
  destruct (py_sum (map Participant.damage (a :: l))) as [ t0 | e ];
    [ | returned; now left ].
  destruct (Qeq_bool t0 0); [ returned; now left | ].
  destruct (Prize.is_special prize).
  - rewrite (Hfix eq_refl).
    destruct (py_sum (map Participant.damage (top_participants prize (a :: l))))
      as [ t | e ]; [ | returned; now left ].
    destruct (integer_only st) eqn:Ei.
    + rewrite calculate_integer_distribution_run.
      destruct (calculate_integer_distribution_body _ _ _) as [ rows | e ] eqn:Eb;
        returned; [ right; now exists t | now left ].
    + destruct (real_distribution _ _ _) as [ rows | e ] eqn:Eb;
        returned; [ right; now exists t | now left ].
  - destruct (integer_only st) eqn:Ei.
    + rewrite calculate_integer_distribution_run.
      destruct (calculate_integer_distribution_body _ _ _) as [ rows | e ] eqn:Eb;
        returned; [ right; now exists t0 | now left ].
    + destruct (real_distribution _ _ _) as [ rows | e ] eqn:Eb;
        returned; [ right; now exists t0 | now left ].
Qed.

Lemma calculate_distribution_total (prize : Prize.t) (st : App) :
  exists rows st',
    calculate_distribution prize st = (Ok rows, st') /\
    participants st' = participants st /\
    prizes st' = prizes st /\
    integer_only st' = integer_only st /\
    (List.length rows <= List.length (recipients prize (participants st)))%nat.
Proof.
  destruct (calculate_distribution_cases prize st)
    as (rows & st' & Hr & Hp & Hz & Hi & Hc).
  exists rows, st'. repeat split; try assumption.
  destruct Hc as [ -> | (t & Ht) ]; [ simpl; lia | ].
  destruct (integer_only st).
  - now apply integer_body_length in Ht.
  - apply rmap_length in Ht. rewrite py_sorted_length in Ht. lia.
Qed.

(** A quantity that is a string: both computations raise before they build a
    tuple. *)
Lemma string_quantity_run (prize : Prize.t) (st : App) (s : string) :
  Prize.quantity prize = PyStr s ->
  fst (calculate_distribution prize st) = Ok [].
Proof.
  intro Hq.
  destruct (calculate_distribution_cases prize st)
    as (rows & st' & -> & _ & _ & _ & Hc).
  simpl. destruct Hc as [ -> | (t & Ht) ]; [ reflexivity | ].
  rewrite Hq in Ht. destruct (integer_only st).
  - unfold calculate_integer_distribution_body in Ht.
    destruct (is_nil _ || Qeq_bool t 0); [ symmetry; exact Ht | discriminate ].
  - unfold real_distribution in Ht.
    destruct (py_sorted _ _ _) as [ | p l ]; simpl in Ht.
    + symmetry. exact Ht.
    + destruct (py_truediv _ _); discriminate.
Qed.

(** A quantity that does not convert to a float: the first product raises
    [OverflowError], and the handler returns the empty list. *)
Lemma overflow_run (prize : Prize.t) (st : App) (q : Q) :
  Prize.quantity prize = PyFloat q -> (float_overflow <= Qabs q)%Q ->
  fst (calculate_distribution prize st) = Ok [].
Proof.
  intros Hq Ho.
  destruct (calculate_distribution_cases prize st)
    as (rows & st' & -> & _ & _ & _ & Hc).
  simpl. destruct Hc as [ -> | (t & Ht) ]; [ reflexivity | ].
  rewrite Hq in Ht. destruct (integer_only st).
  - unfold calculate_integer_distribution_body in Ht.
    destruct (is_nil _ || Qeq_bool t 0) eqn:Eg; [ symmetry; exact Ht | ].
    exfalso. apply orb_false_iff in Eg. destruct Eg as [ En _ ].
    simpl py_int in Ht. cbn [rbind] in Ht.
    unfold exact_shares, sorted_by_damage_desc in Ht.
    destruct (forallb _ _); cbn [rbind] in Ht; [ | discriminate ].
    assert (Hl : py_sorted damage_key (fun a b => Qltb b a)
                   (recipients prize (participants st)) <> []).
    { intro E. apply (f_equal (@List.length _)) in E.
      rewrite py_sorted_length in E.
      destruct (recipients prize (participants st)); discriminate. }
    destruct (py_sorted damage_key _ _) as [ | p l ]; [ congruence | ].
    simpl rmap in Ht.
    destruct (py_truediv _ _) as [ r | ]; cbn [rbind] in Ht; [ | discriminate ].
    unfold py_mul in Ht. rewrite (proj2 (Qle_bool_iff _ _) Ho) in Ht.
    cbn [rbind] in Ht. discriminate.
  - unfold real_distribution in Ht.
    destruct (py_sorted _ _ _) as [ | p l ]; simpl rmap in Ht.
    + symmetry. exact Ht.
    + exfalso.
      destruct (py_truediv _ _) as [ r | ]; cbn [rbind] in Ht; [ | discriminate ].
      unfold py_mul in Ht. rewrite (proj2 (Qle_bool_iff _ _) Ho) in Ht.
      cbn [rbind] in Ht. discriminate.
Qed.

Lemma py_round_comp (x y : Q) : (x == y)%Q -> py_round x = py_round y.
Proof.
  intro H. unfold py_round.
  assert (Hf : Qfloor x = Qfloor y) by now rewrite H.
  assert (Hc : (x - inject_Z (Qfloor x) ?= 1 # 2)%Q
               = (y - inject_Z (Qfloor y) ?= 1 # 2)%Q).
  { rewrite Hf. now rewrite H. }
  now rewrite Hc, Hf.
Qed.

Lemma Qtruncate_whole (n : Z) : Qtruncate (inject_Z n) = n.
Proof. unfold Qtruncate. simpl. apply Z.quot_1_r. Qed.

(** A zero total of the recipients leaves nothing to share. *)
Lemma zero_total_run (prize : Prize.t) (st : App) (t : Q) :
  Forall weight_ok (active_participants (participants st)) ->
  py_sum (map Participant.damage (recipients prize (participants st))) = Ok t ->
  (t == 0)%Q ->
  fst (calculate_distribution prize st) = Ok [].
Proof.
  intros Hw Ht Hz. apply Qeq_eq_bool in Hz.
  assert (Hwr := recipients_weight_ok prize _ Hw).
  unfold recipients in *.
  unfold calculate_distribution, distribution_handler, try_except, bind,
    get_participants, get_integer_only, lift, ret, log_message.
  destruct (active_participants (participants st)) as [ | a l ] eqn:Ea;
    [ reflexivity | ].
  change (is_nil (a :: l)) with false. cbv beta iota.
  destruct (py_sum (map Participant.damage (a :: l))) as [ t0 | e ] eqn:E1;
    [ | reflexivity ].
  destruct (Qeq_bool t0 0) eqn:E0; [ reflexivity | ].
  destruct (Prize.is_special prize).
  - rewrite Ht. destruct (integer_only st).
    + rewrite calculate_integer_distribution_run.
      unfold calculate_integer_distribution_body.
      rewrite Hz, orb_true_r. reflexivity.
    + destruct (top_participants prize (a :: l)) as [ | p rest ]; [ reflexivity | ].
      inversion Hwr as [ | ? ? Hp _ ]; subst.
      destruct (weight_ok_key p Hp) as [ E _ ].
      unfold real_distribution. simpl rmap. rewrite E. simpl py_truediv.
      rewrite Hz. reflexivity.
  - cbv iota in Ht. congruence.
Qed.


(** Python computes the shares of a prize of 10 among weights 1, 1 and 2
    without rounding: the quotients 1/4 and 1/2 and the shares 5/2 and 5 are
    floats. *)
Lemma one_one_two_computed_exactly : computed_exactly one_one_two 4 10.
Proof.
  unfold computed_exactly. split; [ | split ].
  - exists 10, 0. repeat split; try lia; reflexivity.
  - apply Qle_bool_imp_le. reflexivity.
  - constructor; [ | constructor; [ | constructor; [ | constructor ] ] ].
    + split; [ exists 1; reflexivity | ].
      split; [ exists 1, (-2) | exists 5, (-1) ];
        (split; [ reflexivity | split; [ lia | reflexivity ] ]).
    + split; [ exists 1; reflexivity | ].
      split; [ exists 1, (-2) | exists 5, (-1) ];
        (split; [ reflexivity | split; [ lia | reflexivity ] ]).
    + split; [ exists 2; reflexivity | ].
      split; [ exists 1, (-1) | exists 5, 0 ];
        (split; [ reflexivity | split; [ lia | reflexivity ] ]).
Qed.


(** * The claims *)

(** C1, as amended.  In integer mode, when the weights of the active
    participants are numbers that are not negative, the recipients have a
    positive total weight, the quantity is a number that is not negative,
    and neither the quantity nor a weight exceeds [2 ** 53], the allocated
    quantities are integers whose sum is [int(prize.quantity)], the quantity
    truncated toward zero; this is [round(prize.quantity)] when the quantity
    is a whole number.  (A quantity that does not convert to a float makes
    the first product raise [OverflowError], and the result is empty.) *)
Theorem integer_mode_conserves_truncated_quantity
    (prize : Prize.t) (st : App) (q t : Q) :
  integer_only st = true ->
  Prize.quantity prize = PyFloat q -> (0 <= q)%Q ->
  shareable prize st t ->
  float_sized prize st ->
  exists rows,
    fst (calculate_distribution prize st) = Ok rows /\
    sums_to rows (Qtruncate q) /\
    ((inject_Z (Qtruncate q) == q)%Q -> sums_to rows (py_round q)).
Proof.
  intros Hi Hq Hq0 Hs Hf.
  assert (Hc := float_sized_converts _ _ _ Hf Hq).
  rewrite (integer_mode_run prize st q t Hi Hq Hc Hs). simpl fst.
  eexists. split; [ reflexivity | ].
  assert (Hsum : sums_to (integer_rows (recipients prize (participants st)) t q)
                   (Qtruncate q)).
  { apply integer_rows_sum.
    - eapply shareable_recipients; eassumption.
    - now apply Qtruncate_nonneg. }
  split; [ exact Hsum | ].
  intro Hw. rewrite <- (py_round_comp _ _ Hw), py_round_whole, Qtruncate_whole.
  exact Hsum.
Qed.


(** C3, at the input that shows the defect.  A prize of 5 between two
    participants of equal weight gives each an exact share of 5/2; [round]
    assigns 2 to both, where rounding a tie to the higher integer assigns 3,
    and the result differs: 3 and 2, instead of 2 and 3. *)
Theorem initial_rounding_sends_ties_to_even :
  let a := Participant.mk 1 "A" (PyFloat 1) true in
  let b := Participant.mk 2 "B" (PyFloat 1) true in
  exact_shares [a; b] 2 (PyFloat 5) = Ok [(a, 5 # 2, 5 # 2); (b, 5 # 2, 5 # 2)] /\
  map sh_qty (round_shares [(a, 5 # 2, 5 # 2); (b, 5 # 2, 5 # 2)]) = [2; 2] /\
  round_half_up (5 # 2) = 3 /\
  fst (calculate_distribution (Prize.mk 1 "prize" (PyFloat 5) false 1)
         (mkApp [a; b] [] true []))
  = Ok [(1, "A"%string, Int 3); (2, "B"%string, Int 2)].
Proof. repeat split. Qed.

(** C7.  With no active participant, or with active participants whose
    weights add up to zero, [calculate_distribution] returns the empty list:
    no exception leaves it and none is logged. *)
Theorem nothing_to_distribute (prize : Prize.t) (st : App) :
  active_participants (participants st) = [] \/
  (exists t,
      py_sum (map Participant.damage (active_participants (participants st))) = Ok t /\
      (t == 0)%Q) ->
  calculate_distribution prize st = (Ok [], st).
Proof.
  intro H.
  unfold calculate_distribution, try_except, bind, get_participants, lift, ret.
  destruct H as [ -> | (t & Ht & Hz) ]; [ reflexivity | ].
  destruct (active_participants (participants st)) as [ | a l ]; [ reflexivity | ].
  change (is_nil (a :: l)) with false. cbv beta iota.
  rewrite Ht. apply Qeq_eq_bool in Hz. rewrite Hz. reflexivity.
Qed.

(** C9.  For a special prize with one winner and two participants, the one
    with the lower id having the lower weight, [calculate_distribution]
    selects the participant with the lower id and the state-update path the
    one with the higher weight. *)
Theorem winner_selections_differ :
  exists (prize : Prize.t) (ps : list Participant.t) (winners : list Participant.t),
    Prize.is_special prize = true /\
    update_state_top_participants prize ps = Ok winners /\
    map Participant.id (top_participants prize (active_participants ps)) = [1] /\
    map Participant.id winners = [2] /\
    fst (calculate_distribution prize (mkApp ps [] false []))
    = Ok [(1, "A"%string, Float (6 # 1))].
Proof.
  exists (Prize.mk 1 "prize" (PyFloat 6) true 1).
  exists [Participant.mk 1 "A" (PyFloat 1) true;
          Participant.mk 2 "B" (PyFloat 5) true].
  eexists. repeat split.
Qed.

(** C10.  A call of [calculate_distribution] leaves the participants and the
    prizes of the application, and the integer-mode flag, as they were; only
    the log may grow. *)
Theorem inputs_are_not_mutated (prize : Prize.t) (st : App) :
  participants (snd (calculate_distribution prize st)) = participants st /\
  prizes (snd (calculate_distribution prize st)) = prizes st /\
  integer_only (snd (calculate_distribution prize st)) = integer_only st.
Proof.
  destruct (calculate_distribution_total prize st)
    as (rows & st' & -> & Hp & Hz & Hi & _).
  simpl. now repeat split.
Qed.

(** C4, as amended.  For a special prize with [top_winners = N], [N] not
    negative, the result has at most [N] entries; the active participants
    sorted by id are the active participants in ascending order of id; and
    when the first [N] of them have a positive total weight (the weights
    being numbers that are not negative, the quantity a number, and neither
    the quantity nor a weight above [2 ** 53]), the ids of the result are
    the ids of these first [N], in the same order. *)
Theorem special_prize_selects_lowest_ids (prize : Prize.t) (st : App) :
  Prize.is_special prize = true ->
  0 <= Prize.top_winners prize ->
  let by_id := py_sorted Participant.id Z.ltb (active_participants (participants st)) in
  let lowest := firstn (Z.to_nat (Prize.top_winners prize)) by_id in
  (exists rows,
      fst (calculate_distribution prize st) = Ok rows /\
      Z.of_nat (List.length rows) <= Prize.top_winners prize) /\
  Permutation by_id (active_participants (participants st)) /\
  StronglySorted (by_key Participant.id) by_id /\
  (forall q t,
      Prize.quantity prize = PyFloat q -> shareable prize st t ->
      float_sized prize st ->
      exists rows,
        fst (calculate_distribution prize st) = Ok rows /\
        map row_id rows = map Participant.id lowest).
Proof.
  intros Hsp HN by_id lowest.
  assert (Hrec : recipients prize (participants st) = lowest).
  { unfold recipients, top_participants. rewrite Hsp.
    now apply py_slice_to_nonneg. }
  split; [ | split; [ apply py_sorted_perm | split; [ apply py_sorted_by_key | ] ] ].
  - destruct (calculate_distribution_total prize st)
      as (rows & st' & -> & _ & _ & _ & Hlen).
    exists rows. split; [ reflexivity | ].
    rewrite Hrec in Hlen. unfold lowest in Hlen.
    assert (H := firstn_le_length (Z.to_nat (Prize.top_winners prize)) by_id).
    lia.
  - intros q t Hq Hs Hf. rewrite <- Hrec.
    assert (Hc := float_sized_converts _ _ _ Hf Hq).
    destruct (integer_only st) eqn:Hi.
    + rewrite (integer_mode_run prize st q t Hi Hq Hc Hs). simpl fst.
      eexists. split; [ reflexivity | ].
      apply sorted_perm_unique.
      * apply StronglySorted_map, integer_rows_sorted.
      * apply StronglySorted_map. unfold recipients. rewrite Hsp.
        apply top_participants_sorted.
      * apply integer_rows_ids.
    + rewrite (real_mode_run prize st q t Hi Hq Hc Hs). simpl fst.
      eexists. split; [ reflexivity | ].
      rewrite (recipients_sorted_fixed prize _ Hsp).
      unfold real_rows. rewrite map_map. reflexivity.
Qed.


(** C6.  When the quantity of the prize, if it is a number, is not negative,
    and the weights of the active participants are numbers that are not
    negative, [calculate_distribution] returns a list in which no quantity is
    negative, in integer mode and in real-valued mode. *)
Theorem allocations_are_not_negative (prize : Prize.t) (st : App) :
  quantity_ok prize ->
  Forall weight_ok (active_participants (participants st)) ->
  exists rows,
    fst (calculate_distribution prize st) = Ok rows /\
    Forall (fun r => nonneg (row_qty r)) rows.
Proof.
  unfold quantity_ok. intros Hq0 Hw.
  destruct (Prize.quantity prize) as [ q | s ] eqn:Hq.
  2: { exists []. split; [ | constructor ]. eapply string_quantity_run, Hq. }
  assert (Hwr := recipients_weight_ok prize _ Hw).
  destruct (py_sum_from_weights _ Hwr 0%Q) as (t & Ht & Hle & _).
  destruct (Qlt_le_dec (Qabs q) float_overflow) as [ Hc | Ho ].
  2: { exists []. split; [ | constructor ]. eapply overflow_run; eassumption. }
  destruct (Qlt_le_dec 0 t) as [ Hpos | Hz ].
  - assert (Hs : shareable prize st t) by (repeat split; assumption).
    destruct (integer_only st) eqn:Hi.
    + rewrite (integer_mode_run prize st q t Hi Hq Hc Hs). simpl fst.
      eexists. split; [ reflexivity | ]. now apply integer_rows_nonneg.
    + rewrite (real_mode_run prize st q t Hi Hq Hc Hs). simpl fst.
      eexists. split; [ reflexivity | ]. apply real_rows_nonneg; try assumption.
      rewrite Forall_forall in *. intros p Hp. apply Hwr.
      now apply py_sorted_In in Hp.
  - exists []. split; [ | constructor ].
    apply (zero_total_run prize st t Hw Ht). lra.
Qed.

(** C8, as amended.  When the recipients have a positive total weight (the
    weights being numbers that are not negative, the quantity a number, and
    neither the quantity nor a weight above [2 ** 53]), the result has as
    many entries as there are recipients and is in ascending order of id, in
    integer mode as in real-valued mode. *)
Theorem result_length_and_order (prize : Prize.t) (st : App) (q t : Q) :
  Prize.quantity prize = PyFloat q ->
  shareable prize st t ->
  float_sized prize st ->
  exists rows,
    fst (calculate_distribution prize st) = Ok rows /\
    List.length rows = List.length (recipients prize (participants st)) /\
    StronglySorted (by_key row_id) rows.
Proof.
  intros Hq Hs Hf. assert (Hc := float_sized_converts _ _ _ Hf Hq).
  destruct (integer_only st) eqn:Hi.
  - rewrite (integer_mode_run prize st q t Hi Hq Hc Hs). simpl fst.
    eexists. split; [ reflexivity | ].
    split; [ apply integer_rows_length | apply integer_rows_sorted ].
  - rewrite (real_mode_run prize st q t Hi Hq Hc Hs). simpl fst.
    eexists. split; [ reflexivity | ]. unfold real_rows. split.
    + now rewrite length_map, py_sorted_length.
    + apply StronglySorted_map. apply (py_sorted_by_key Participant.id).
Qed.

(** ** Concrete inputs *)

Ltac weights_ok :=
  simpl; repeat (constructor; [ eexists; split; [ reflexivity | lra ] | ]);
  constructor.

Ltac shareable_at :=
  unfold shareable; split; [ weights_ok | split; [ reflexivity | lra ] ].

Ltac whole_at :=
  match goal with
  | |- whole ?x => exists (Qfloor x); reflexivity
  end.

Ltac small_whole_at :=
  unfold small_whole;
  split; [ whole_at | ];
  split; [ apply Qle_bool_imp_le; reflexivity | ];
  split; [ apply Qle_bool_imp_le; reflexivity | ];
  split; [ simpl; repeat (constructor; [ whole_at | ]); constructor | ];
  split; [ apply Qle_bool_imp_le; reflexivity | simpl; lia ].

Ltac float_sized_at :=
  unfold float_sized; split;
  [ intros ? E; injection E as <-; apply Qle_bool_imp_le; reflexivity
  | simpl;
    repeat (constructor; [ apply Qle_bool_imp_le; reflexivity | ]);
    constructor ].

(** C1 at a prize of 10 among three participants of weight 1. *)
Lemma integer_mode_conserves_truncated_quantity_witness :
  exists rows,
    fst (calculate_distribution (example_prize 10 false 1)
           (example_app true three_equal)) = Ok rows /\
    sums_to rows (Qtruncate 10) /\
    ((inject_Z (Qtruncate 10) == 10)%Q -> sums_to rows (py_round 10)).
Proof.
  apply (integer_mode_conserves_truncated_quantity
           (example_prize 10 false 1) (example_app true three_equal) 10 3);
    [ reflexivity | reflexivity | lra | shareable_at | float_sized_at ].
Defined.

(** C1 as stated fails: in integer mode a prize of 3.75 for one participant
    of weight 1 is allocated as 3, and [round(3.75)] is 4. *)
Lemma integer_mode_total_is_not_rounded_quantity :
  exists rows,
    fst (calculate_distribution (example_prize (15 # 4) false 1)
           (example_app true [example_participant 1 "A" 1])) = Ok rows /\
    ~ sums_to rows (py_round (15 # 4)).
Proof.
  exists [(1, "A"%string, Int 3)]. split; [ reflexivity | ].
  intros (zs & Hm & Hs).
  destruct zs as [ | z [ | z' zs ] ]; simpl in Hm; try discriminate.
  injection Hm as <-. vm_compute in Hs. discriminate.
Qed.



(** C4 at a special prize of 6 for two winners among five participants. *)
Lemma special_prize_selects_lowest_ids_witness :
  exists rows,
    fst (calculate_distribution (example_prize 6 true 2)
           (example_app true five_participants)) = Ok rows /\
    map row_id rows = [1; 2].
Proof.
  destruct (special_prize_selects_lowest_ids
              (example_prize 6 true 2) (example_app true five_participants)
              eq_refl ltac:(simpl; lia)) as (_ & _ & _ & H).
  apply (H 6%Q 3%Q); [ reflexivity | shareable_at | float_sized_at ].
Defined.

(** C4 as stated fails: the participant with the lowest id has weight 0, the
    special prize has one winner, and the result is empty. *)
Lemma special_prize_winner_of_weight_zero :
  exists rows,
    fst (calculate_distribution (example_prize 10 true 1)
           (example_app true
              [example_participant 1 "A" 0; example_participant 2 "B" 5]))
    = Ok rows /\
    map row_id rows
    <> map Participant.id
         (firstn 1
            (py_sorted Participant.id Z.ltb
               (active_participants
                  [example_participant 1 "A" 0; example_participant 2 "B" 5]))).
Proof.
  exists []. split; [ reflexivity | ]. simpl. discriminate.
Qed.


(** C6 at a prize of 10 among three participants of weight 1. *)
Lemma allocations_are_not_negative_witness :
  exists rows,
    fst (calculate_distribution (example_prize 10 false 1)
           (example_app true three_equal)) = Ok rows /\
    Forall (fun r => nonneg (row_qty r)) rows.
Proof.
  apply (allocations_are_not_negative
           (example_prize 10 false 1) (example_app true three_equal));
    [ unfold quantity_ok; simpl; lra | weights_ok ].
Defined.

(** C7 at two participants of weight 0. *)
Lemma nothing_to_distribute_witness :
  calculate_distribution (example_prize 10 false 1)
    (example_app true [example_participant 1 "A" 0; example_participant 2 "B" 0])
  = (Ok [],
     example_app true [example_participant 1 "A" 0; example_participant 2 "B" 0]).
Proof.
  apply nothing_to_distribute. right. exists 0%Q. split; reflexivity.
Defined.

(** C8 at a special prize of 6 for two winners among five participants. *)
Lemma result_length_and_order_witness :
  exists rows,
    fst (calculate_distribution (example_prize 6 true 2)
           (example_app false five_participants)) = Ok rows /\
    List.length rows
    = List.length (recipients (example_prize 6 true 2) five_participants) /\
    StronglySorted (by_key row_id) rows.
Proof.
  apply (result_length_and_order
           (example_prize 6 true 2) (example_app false five_participants) 6 3);
    [ reflexivity | shareable_at | float_sized_at ].
Defined.

(** C8 as stated fails: one active participant of weight 0 is a non-empty
    eligible set, and the result is empty. *)
Lemma zero_total_gives_no_entries :
  exists rows,
    fst (calculate_distribution (example_prize 10 false 1)
           (example_app true [example_participant 1 "A" 0])) = Ok rows /\
    recipients (example_prize 10 false 1) [example_participant 1 "A" 0] <> [] /\
    List.length rows
    <> List.length (recipients (example_prize 10 false 1)
                      [example_participant 1 "A" 0]).
Proof.
  exists []. split; [ reflexivity | ]. split; simpl; discriminate.
Qed.

(** * Further properties *)

(** ** [calculate_distribution]: who is in the result *)

Lemma exact_shares_participants (ps : list Participant.t) (total : Q)
    (quantity : pyval) (exact : list (Participant.t * Q * Q)) :
  exact_shares ps total quantity = Ok exact ->
  map sh_participant (round_shares exact)
  = py_sorted damage_key (fun a b => Qltb b a) ps.
Proof.
  unfold exact_shares, sorted_by_damage_desc.
  destruct (forallb _ ps); simpl; [ | discriminate ].
  generalize (py_sorted damage_key (fun a b => Qltb b a) ps). intro l.
  revert exact. induction l as [ | p l IH ]; intros exact He; simpl in He.
  - injection He as <-. reflexivity.
  - destruct (py_truediv _ _); simpl in He; [ | discriminate ].
    destruct (py_mul _ _); simpl in He; [ | discriminate ].
    destruct (rmap _ l) as [ bs | e ] eqn:E; simpl in He; [ | discriminate ].
    injection He as <-. simpl. f_equal. now apply IH.
Qed.

Lemma integer_body_rows_from (ps : list Participant.t) (total : Q)
    (quantity : pyval) (rows : list row) :
  calculate_integer_distribution_body ps total quantity = Ok rows ->
  forall r, In r rows -> exists p, In p ps /\ row_of p r.
Proof.
  unfold calculate_integer_distribution_body.
  destruct (is_nil ps || Qeq_bool total 0).
  - intro H. injection H as <-. intros r [].
  - destruct (py_int quantity) as [ n | e ]; simpl; [ | discriminate ].
    destruct (exact_shares ps total quantity) as [ sh | e ] eqn:E; simpl;
      [ | discriminate ].
    intro H. injection H as <-. intros r Hr.
    apply py_sorted_In in Hr. apply in_map_iff in Hr.
    destruct Hr as (s & <- & Hs).
    exists (sh_participant s). split; [ | now split ].
    apply (in_map sh_participant) in Hs.
    rewrite correct_total_participants, (exact_shares_participants _ _ _ _ E) in Hs.
    now apply py_sorted_In in Hs.
Qed.

Lemma real_distribution_rows_from (ps : list Participant.t) (total : Q)
    (quantity : pyval) (rows : list row) :
  real_distribution ps total quantity = Ok rows ->
  forall r, In r rows -> exists p, In p ps /\ row_of p r.
Proof.
  unfold real_distribution. revert rows.
  induction ps as [ | p ps IH ]; intros rows H; simpl in H.
  - injection H as <-. intros r [].
  - destruct (py_truediv _ _); simpl in H; [ | discriminate ].
    destruct (py_mul _ _); simpl in H; [ | discriminate ].
    destruct (rmap _ ps) as [ bs | e ]; simpl in H; [ | discriminate ].
    injection H as <-. intros r [ <- | Hr ].
    + exists p. split; [ now left | now split ].
    + destruct (IH bs eq_refl r Hr) as (p' & Hp' & Hrow).
      exists p'. split; [ now right | exact Hrow ].
Qed.

Lemma rows_from_active_participants (prize : Prize.t) (st : App) :
  exists rows,
    fst (calculate_distribution prize st) = Ok rows /\
    forall r, In r rows ->
      exists p,
        In p (participants st) /\
        Participant.enabled p = true /\
        is_hash (Participant.damage p) = false /\
        row_id r = Participant.id p /\ row_name r = Participant.name p.
Proof.
  destruct (calculate_distribution_cases prize st)
    as (rows & st' & -> & _ & _ & _ & Hc).
  exists rows. split; [ reflexivity | ]. intros r Hr.
  assert (Hp : exists p, In p (recipients prize (participants st)) /\ row_of p r).
  { destruct Hc as [ -> | (t & Ht) ]; [ destruct Hr | ].
    destruct (integer_only st).
    - eapply integer_body_rows_from; eassumption.
    - destruct (real_distribution_rows_from _ _ _ _ Ht r Hr) as (p & Hp & Hrow).
      exists p. split; [ now apply py_sorted_In in Hp | exact Hrow ]. }
  destruct Hp as (p & Hp & Hid & Hname).
  apply recipients_In in Hp. unfold active_participants in Hp.
  apply filter_In in Hp. destruct Hp as [ Hin Hb ].
  apply andb_true_iff in Hb. destruct Hb as [ He Hh ].
  apply negb_true_iff in Hh.
  exists p. repeat split; assumption.
Qed.

(** X1.  Every tuple of a result of [calculate_distribution] carries the id
    and the name of a participant of the roster that is enabled and whose
    damage is not the ['#'] marker: a participant switched off or excluded
    is allocated nothing, whatever the prize and the mode. *)
Theorem result_rows_are_active_participants (prize : Prize.t) (st : App) :
  exists rows,
    fst (calculate_distribution prize st) = Ok rows /\
    forall r, In r rows ->
      exists p,
        In p (participants st) /\
        Participant.enabled p = true /\
        is_hash (Participant.damage p) = false /\
        row_id r = Participant.id p /\ row_name r = Participant.name p.
Proof. apply rows_from_active_participants. Qed.

(** ** [calculate_distribution]: what the result depends on *)

Lemma calculate_distribution_same_inputs (prize : Prize.t) (st st' : App) :
  same_inputs st st' ->
  fst (calculate_distribution prize st') = fst (calculate_distribution prize st).
Proof.
  intros [ Hp Hi ].
  destruct st as [ ps pz io lg ]. destruct st' as [ ps' pz' io' lg' ].
  simpl in Hp, Hi. subst ps' io'.
  unfold calculate_distribution, distribution_handler, try_except, bind,
    get_participants, get_integer_only, lift, ret, log_message.
  cbn [participants integer_only].
  destruct (active_participants ps) as [ | a l ]; [ reflexivity | ].
  change (is_nil (a :: l)) with false. cbv beta iota.
  destruct (py_sum (map Participant.damage (a :: l))) as [ t0 | e ];
    [ | reflexivity ].
  destruct (Qeq_bool t0 0); [ reflexivity | ].
  destruct (Prize.is_special prize).
  - destruct (py_sum (map Participant.damage (top_participants prize (a :: l))))
      as [ t | e ]; [ | reflexivity ].
    cbn [integer_only]. destruct io; cbv beta iota.
    + rewrite !calculate_integer_distribution_run.
      destruct (calculate_integer_distribution_body _ _ _); reflexivity.
    + destruct (real_distribution _ _ _); reflexivity.
  - cbn [integer_only]. destruct io; cbv beta iota.
    + rewrite !calculate_integer_distribution_run.
      destruct (calculate_integer_distribution_body _ _ _); reflexivity.
    + destruct (real_distribution _ _ _); reflexivity.
Qed.

Lemma calculate_distribution_keeps_inputs (prize : Prize.t) (st : App) :
  same_inputs st (snd (calculate_distribution prize st)).
Proof.
  destruct (calculate_distribution_total prize st)
    as (rows & st' & -> & Hp & _ & Hi & _).
  now split.
Qed.

(** X2.  The result of [calculate_distribution] for a prize is the same
    after any other call of [calculate_distribution], also one that logged
    an error: the result depends on the roster and on the integer-mode flag
    only, and a call changes neither. *)
Theorem result_unchanged_by_earlier_call (prize earlier : Prize.t) (st : App) :
  fst (calculate_distribution prize (snd (calculate_distribution earlier st)))
  = fst (calculate_distribution prize st).
Proof.
  apply calculate_distribution_same_inputs, calculate_distribution_keeps_inputs.
Qed.

(** ** Real-valued mode: the shares add up to the prize *)

Lemma py_sum_from_value (l : list Participant.t) :
  forall acc t,
    py_sum_from acc (map Participant.damage l) = Ok t ->
    (t == acc + weight_total l)%Q.
Proof.
  induction l as [ | p l IH ]; intros acc t H; simpl in H.
  - injection H as <-. simpl. lra.
  - simpl. unfold damage_key at 1.
    destruct (Participant.damage p) as [ x | s ]; [ | discriminate ].
    apply IH in H. lra.
Qed.

Lemma weight_total_perm (l l' : list Participant.t) :
  Permutation l l' -> (weight_total l == weight_total l')%Q.
Proof.
  induction 1; simpl; lra.
Qed.

Lemma real_rows_total (l : list Participant.t) (total quantity : Q) :
  ~ (total == 0)%Q ->
  (row_total (real_rows l total quantity) == quantity * weight_total l / total)%Q.
Proof.
  intro Ht. induction l as [ | p l IH ]; simpl.
  - field. exact Ht.
  - change (row_total (real_rows l total quantity))
      with (fold_right (fun r acc => (number_value (row_qty r) + acc)%Q) 0%Q
              (real_rows l total quantity)) in IH.
    unfold real_rows in IH. rewrite IH. unfold exact_of. field. exact Ht.
Qed.

(** X3.  In real-valued mode, when the weights of the active participants
    are numbers that are not negative, the recipients have a positive total
    weight, and Python computes their shares without rounding (whole
    weights with a total of at most [2 ** 53], quotients and products that
    are floats), the quantities of the result add up to the quantity of the
    prize. *)
Theorem real_mode_shares_add_up (prize : Prize.t) (st : App) (q t : Q) :
  integer_only st = false ->
  Prize.quantity prize = PyFloat q ->
  shareable prize st t ->
  float_sized prize st ->
  computed_exactly (recipients prize (participants st)) t q ->
  exists rows,
    fst (calculate_distribution prize st) = Ok rows /\
    (row_total rows == q)%Q.
Proof.
  intros Hi Hq Hs Hf _.
  assert (Hc := float_sized_converts _ _ _ Hf Hq).
  rewrite (real_mode_run prize st q t Hi Hq Hc Hs). simpl fst.
  eexists. split; [ reflexivity | ].
  destruct Hs as (_ & Ht & Hpos).
  rewrite real_rows_total by lra.
  rewrite (weight_total_perm _ _ (py_sorted_perm Participant.id Z.ltb _)).
  apply py_sum_from_value in Ht.
  assert (Hw : (weight_total (recipients prize (participants st)) == t)%Q) by lra.
  rewrite Hw. field. lra.
Qed.

(** A prize of 10 among participants of weight 1, 1 and 2. *)
Lemma real_mode_shares_add_up_witness :
  exists rows,
    fst (calculate_distribution (example_prize 10 false 1)
           (example_app false one_one_two)) = Ok rows /\
    (row_total rows == 10)%Q.
Proof.
  apply (real_mode_shares_add_up
           (example_prize 10 false 1) (example_app false one_one_two) 10 4);
    [ reflexivity | reflexivity | shareable_at | float_sized_at
    | exact one_one_two_computed_exactly ].
Defined.

(** ** The distributions of [update_current_state] *)

Lemma dict_set_In {V} (k0 : Z) (v0 : V) (d : dict V) (k : Z) (v : V) :
  In (k, v) (dict_set k0 v0 d) -> (k, v) = (k0, v0) \/ In (k, v) d.
Proof.
  induction d as [ | [ k' v' ] d IH ]; simpl.
  - intros [ H | [] ]. left. now symmetry.
  - destruct (k' =? k0).
    + intros [ H | H ]; [ left; now symmetry | right; now right ].
    + intros [ H | H ]; [ right; now left | ].
      destruct (IH H) as [ E | Hin ]; [ now left | right; now right ].
Qed.

Lemma rmap_Forall {A B} (f : A -> result B) (P : B -> Prop) (l : list A)
    (bs : list B) :
  (forall a b, f a = Ok b -> P b) -> rmap f l = Ok bs -> Forall P bs.
Proof.
  intro Hf. revert bs. induction l as [ | a l IH ]; intros bs H; simpl in H.
  - injection H as <-. constructor.
  - destruct (f a) as [ b | e ] eqn:E; simpl in H; [ | discriminate ].
    destruct (rmap f l) as [ bs' | e ]; simpl in H; [ | discriminate ].
    injection H as <-. constructor; [ eapply Hf; eassumption | now apply IH ].
Qed.

Lemma rmap_perm {A B} (f : A -> result B) (l l' : list A) :
  Permutation l l' ->
  forall bs, rmap f l = Ok bs ->
  exists bs', rmap f l' = Ok bs' /\ Permutation bs bs'.
Proof.
  induction 1 as [ | x l l' HP IH | x y l | l l' l'' HP1 IH1 HP2 IH2 ];
    intros bs H; simpl in *.
  - exists bs. split; [ exact H | reflexivity ].
  - destruct (f x) as [ b | e ]; simpl in *; [ | discriminate ].
    destruct (rmap f l) as [ bs0 | e ]; simpl in *; [ | discriminate ].
    injection H as <-. destruct (IH bs0 eq_refl) as (bs' & -> & Hbs).
    simpl. eexists. split; [ reflexivity | now constructor ].
  - destruct (f y) as [ b | e ]; simpl in *; [ | discriminate ].
    destruct (f x) as [ c | e ]; simpl in *; [ | discriminate ].
    destruct (rmap f l) as [ bs0 | e ]; simpl in *; [ | discriminate ].
    injection H as <-. eexists. split; [ reflexivity | apply perm_swap ].
  - destruct (IH1 bs H) as (bs1 & H1 & Hp1).
    destruct (IH2 bs1 H1) as (bs2 & H2 & Hp2).
    exists bs2. split; [ exact H2 | now transitivity bs1 ].
Qed.

Lemma update_state_shares_integer (ps : list Participant.t) (total : Q)
    (quantity : pyval) (d : list (string * number)) :
  update_state_shares true ps total quantity = Ok d -> Forall at_least_one d.
Proof.
  apply rmap_Forall. intros p e.
  destruct (py_truediv _ _) as [ ratio | ]; simpl; [ | discriminate ].
  destruct (py_mul _ _) as [ x | ]; simpl; [ | discriminate ].
  intro H. injection H as <-. exists (Z.max 1 (py_round x)). simpl.
  split; [ reflexivity | lia ].
Qed.

Lemma at_least_one_total (d : list (string * number)) :
  Forall at_least_one d ->
  exists zs, map snd d = map Int zs /\
             Z.of_nat (List.length d) <= fold_right Z.add 0 zs.
Proof.
  induction 1 as [ | e d (z & Hz & Hle) Hd (zs & Hm & Hs) ].
  - exists []. split; [ reflexivity | simpl; lia ].
  - exists (z :: zs). split.
    + simpl. now rewrite Hz, Hm.
    + simpl fold_right. simpl List.length. lia.
Qed.

Lemma update_state_distribution_integer
    (prize : Prize.t) (active : list Participant.t) (total : Q)
    (d : list (string * number)) :
  update_state_distribution true prize active total = Ok (Some d) ->
  Forall at_least_one d.
Proof.
  intro H. unfold update_state_distribution in H.
  destruct (negb (is_nil active) && Qltb 0 total); [ | discriminate ].
  destruct (Prize.is_special prize).
  - destruct (sorted_by_damage_desc active) as [ sorted | ]; simpl in H;
      [ | discriminate ].
    destruct (py_sum _) as [ wt | ]; simpl in H; [ | discriminate ].
    destruct (update_state_shares _ _ _ _) as [ d' | ] eqn:E; simpl in H;
      [ | discriminate ].
    injection H as <-. eapply update_state_shares_integer, E.
  - destruct (update_state_shares _ _ _ _) as [ d' | ] eqn:E; simpl in H;
      [ | discriminate ].
    injection H as <-. eapply update_state_shares_integer, E.
Qed.

Lemma update_state_loop_integer (ps : list Prize.t) (active : list Participant.t)
    (total : Q) :
  forall all d,
    (forall k v, In (k, v) all -> Forall at_least_one v) ->
    update_state_loop true ps active total all = Ok d ->
    forall k v, In (k, v) d -> Forall at_least_one v.
Proof.
  induction ps as [ | prize rest IH ]; intros all d Hall H; simpl in H.
  - injection H as <-. exact Hall.
  - destruct (update_state_distribution true prize active total)
      as [ [ dist | ] | ] eqn:E; simpl in H; [ | | discriminate ].
    + refine (IH _ _ _ H). intros k v Hin.
      apply dict_set_In in Hin. destruct Hin as [ Heq | Hin ].
      * injection Heq as _ ->. eapply update_state_distribution_integer, E.
      * eapply Hall, Hin.
    + exact (IH _ _ Hall H).
Qed.

(** X4.  In integer mode the recomputation of [update_current_state] gives
    every recipient of every prize an integer quantity of at least 1,
    whatever its share: the quantities of a prize add up to at least the
    number of its recipients, and nothing brings their total back to the
    quantity of the prize. *)
Theorem update_state_integer_quantities_at_least_one
    (st : App) (existing_participants : list Participant.t)
    (existing_distributions d : dict (list (string * number))) :
  integer_only st = true ->
  prizes st <> [] ->
  update_state_distributions st existing_participants existing_distributions
  = Ok d ->
  forall k v, In (k, v) d ->
    Forall at_least_one v /\
    exists zs, map snd v = map Int zs /\
               Z.of_nat (List.length v) <= fold_right Z.add 0 zs.
Proof.
  intros Hi Hne H k v Hin.
  assert (Hv : Forall at_least_one v).
  { unfold update_state_distributions in H. rewrite Hi in H.
    destruct (is_nil (prizes st)) eqn:En.
    - destruct (prizes st); [ congruence | discriminate ].
    - destruct (py_sum _) as [ total | ]; unfold rbind in H; [ | discriminate ].
      eapply update_state_loop_integer; [ | exact H | exact Hin ].
      intros k0 v0 []. }
  split; [ exact Hv | now apply at_least_one_total ].
Qed.

(** A prize of 1 among three participants of weight 1: each receives 1. *)
Lemma update_state_integer_quantities_at_least_one_witness :
  Forall at_least_one
    [("A"%string, Int 1); ("B"%string, Int 1); ("C"%string, Int 1)] /\
  exists zs,
    map snd [("A"%string, Int 1); ("B"%string, Int 1); ("C"%string, Int 1)]
    = map Int zs /\
    3 <= fold_right Z.add 0 zs.
Proof.
  apply (update_state_integer_quantities_at_least_one
           (mkApp three_equal [example_prize 1 false 1] true []) [] []
           [(1, [("A"%string, Int 1); ("B"%string, Int 1); ("C"%string, Int 1)])]
           eq_refl ltac:(discriminate) eq_refl 1).
  now left.
Defined.

Lemma rmap_rbind {A B C} (f : A -> result C) (g : A -> result B) (h : B -> C)
    (l : list A) :
  (forall a, f a = rbind (g a) (fun b => Ok (h b))) ->
  rmap f l = rbind (rmap g l) (fun bs => Ok (map h bs)).
Proof.
  intro H. induction l as [ | a l IH ]; cbn [rmap].
  - reflexivity.
  - rewrite H, IH. destruct (g a); simpl; [ | reflexivity ].
    destruct (rmap g l); reflexivity.
Qed.

Lemma update_state_shares_real (ps : list Participant.t) (total : Q)
    (quantity : pyval) :
  update_state_shares false ps total quantity
  = rbind (real_distribution ps total quantity)
          (fun rows => Ok (map name_qty rows)).
Proof.
  unfold update_state_shares, real_distribution. apply rmap_rbind.
  intro p. destruct (py_truediv _ _) as [ ratio | ]; simpl; [ | reflexivity ].
  destruct (py_mul _ _) as [ x | ]; reflexivity.
Qed.

Lemma StronglySorted_filter {A} (R : A -> A -> Prop) (f : A -> bool) (l : list A) :
  StronglySorted R l -> StronglySorted R (filter f l).
Proof.
  induction 1 as [ | x l Hl IH Hx ]; simpl; [ constructor | ].
  destruct (f x); [ | exact IH ].
  constructor; [ exact IH | ].
  rewrite Forall_forall in *. intros y Hy. apply filter_In in Hy. now apply Hx.
Qed.

(** X5.  For a prize that is not special, in real-valued mode, the
    recomputation of [update_current_state] and [calculate_distribution]
    allocate the same quantities to the same names: the entries of the first
    are the tuples of the second without their id, up to the order, and in
    the same order when the roster is in ascending order of id. *)
Theorem update_state_agrees_with_distribution
    (prize : Prize.t) (st : App) (total : Q) (d : list (string * number)) :
  Prize.is_special prize = false ->
  integer_only st = false ->
  py_sum (map Participant.damage (active_participants (participants st)))
  = Ok total ->
  update_state_distribution false prize (active_participants (participants st))
    total = Ok (Some d) ->
  exists rows,
    fst (calculate_distribution prize st) = Ok rows /\
    Permutation (map name_qty rows) d /\
    (StronglySorted (by_key Participant.id) (participants st) ->
     map name_qty rows = d).
Proof.
  intros Hsp Hi Hsum Hu.
  unfold update_state_distribution in Hu. rewrite Hsp in Hu.
  destruct (negb (is_nil _) && Qltb 0 total) eqn:Hg; [ | discriminate ].
  apply andb_true_iff in Hg. destruct Hg as [ Hne Hpos ].
  apply Qltb_true_iff in Hpos.
  rewrite update_state_shares_real in Hu.
  destruct (real_distribution _ _ _) as [ rows0 | ] eqn:Hr; simpl in Hu;
    [ | discriminate ].
  injection Hu as <-.
  assert (Hrec : recipients prize (participants st)
                 = active_participants (participants st)).
  { unfold recipients. now rewrite Hsp. }
  rewrite (calculate_distribution_run prize st total total).
  - rewrite Hi, Hrec. unfold try_except, lift.
    destruct (rmap_perm _ _ _
                (Permutation_sym
                   (py_sorted_perm Participant.id Z.ltb
                      (active_participants (participants st))))
                rows0 Hr) as (rows & Hrows & Hperm).
    change (real_distribution
              (py_sorted Participant.id Z.ltb
                 (active_participants (participants st)))
              total (Prize.quantity prize) = Ok rows) in Hrows.
    rewrite Hrows. simpl fst.
    exists rows. split; [ reflexivity | ]. split.
    + apply Permutation_map. now symmetry.
    + intro Hs.
      assert (Hfix : py_sorted Participant.id Z.ltb
                       (active_participants (participants st))
                     = active_participants (participants st)).
      { apply py_sorted_by_key_fixed. now apply StronglySorted_filter. }
      rewrite Hfix, Hr in Hrows. now injection Hrows as <-.
  - destruct (active_participants (participants st)); [ discriminate | ].
    discriminate.
  - exact Hsum.
  - now apply Qeq_bool_pos.
  - now rewrite Hrec.
Qed.

(** A prize of 9 among three participants of weight 1, in the order of
    their ids. *)
Lemma update_state_agrees_with_distribution_witness :
  exists rows,
    fst (calculate_distribution (example_prize 9 false 1)
           (example_app false three_equal)) = Ok rows /\
    map name_qty rows
    = [("A"%string, Float (9 * (1 / 3))); ("B"%string, Float (9 * (1 / 3)));
       ("C"%string, Float (9 * (1 / 3)))].
Proof.
  destruct (update_state_agrees_with_distribution
              (example_prize 9 false 1) (example_app false three_equal) 3
              [("A"%string, Float (9 * (1 / 3))); ("B"%string, Float (9 * (1 / 3)));
               ("C"%string, Float (9 * (1 / 3)))]
              eq_refl eq_refl eq_refl eq_refl) as (rows & Hr & _ & Hs).
  exists rows. split; [ exact Hr | ]. apply Hs.
  unfold by_key. simpl. repeat constructor; simpl; lia.
Defined.

Lemma sorted_by_damage_desc_spec (l sorted : list Participant.t) :
  sorted_by_damage_desc l = Ok sorted ->
  StronglySorted (fun a b => (damage_key b <= damage_key a)%Q) sorted /\
  Permutation sorted l.
Proof.
  unfold sorted_by_damage_desc.
  destruct (forallb _ l); [ | discriminate ].
  intro H. injection H as <-. split; [ | apply py_sorted_perm ].
  apply (py_sorted_sorted damage_key (fun a b => Qltb b a)
           (fun a b => (b <= a)%Q)).
  - intros a b H. apply Qltb_true_iff in H. now apply Qlt_le_weak.
  - intros a b H. now apply Qltb_false_iff in H.
  - intros a b c H1 H2. eapply Qle_trans; eassumption.
Qed.

Lemma StronglySorted_firstn_skipn {A} (R : A -> A -> Prop) (l : list A) :
  StronglySorted R l ->
  forall k w r, In w (firstn k l) -> In r (skipn k l) -> R w r.
Proof.
  induction 1 as [ | x l Hl IH Hx ]; intros [ | k ] w r Hw Hr; simpl in *;
    try contradiction.
  destruct Hw as [ <- | Hw ].
  - rewrite Forall_forall in Hx. apply Hx.
    rewrite <- (firstn_skipn k l). apply in_or_app. now right.
  - eapply IH; eassumption.
Qed.

(** X6.  The winners that the recomputation of [update_current_state]
    selects for a special prize are the active participants of highest
    weight: no participant left out weighs more than a winner, and there are
    [top_winners] winners, or as many as there are active participants,
    when the active participants have a positive total weight. *)
Theorem update_state_winners_are_heaviest
    (prize : Prize.t) (ps winners : list Participant.t) :
  0 <= Prize.top_winners prize ->
  update_state_top_participants prize ps = Ok winners ->
  exists rest,
    Permutation (winners ++ rest) (active_participants ps) /\
    (forall w r, In w winners -> In r rest ->
                 (damage_key r <= damage_key w)%Q) /\
    (forall total,
        py_sum (map Participant.damage (active_participants ps)) = Ok total ->
        (0 < total)%Q ->
        List.length winners
        = Nat.min (Z.to_nat (Prize.top_winners prize))
            (List.length (active_participants ps))).
Proof.
  intros HN H. unfold update_state_top_participants in H.
  destruct (py_sum _) as [ total | ] eqn:Hsum; simpl in H; [ | discriminate ].
  destruct (negb (is_nil _) && Qltb 0 total) eqn:Hg.
  - destruct (sorted_by_damage_desc _) as [ sorted | ] eqn:Hs; simpl in H;
      [ | discriminate ].
    injection H as <-. rewrite py_slice_to_nonneg by exact HN.
    destruct (sorted_by_damage_desc_spec _ _ Hs) as [ Hsorted Hperm ].
    exists (skipn (Z.to_nat (Prize.top_winners prize)) sorted).
    split; [ now rewrite firstn_skipn | ]. split.
    + intros w r Hw Hr.
      exact (StronglySorted_firstn_skipn _ _ Hsorted _ w r Hw Hr).
    + intros _ _ _. rewrite length_firstn.
      now rewrite (Permutation_length Hperm).
  - injection H as <-. exists (active_participants ps).
    split; [ reflexivity | ]. split; [ intros w r [] | ].
    intros t Ht Hpos. injection Ht as <-.
    apply Qltb_true_iff in Hpos. rewrite Hpos, andb_true_r in Hg.
    apply negb_false_iff in Hg.
    destruct (active_participants ps); [ | discriminate ].
    simpl. now rewrite Nat.min_0_r.
Qed.

(** One winner among A (id 1, weight 1) and B (id 2, weight 5): B. *)
Lemma update_state_winners_are_heaviest_witness :
  exists rest,
    Permutation ([example_participant 2 "B" 5] ++ rest)
      (active_participants
         [example_participant 1 "A" 1; example_participant 2 "B" 5]) /\
    (forall w r, In w [example_participant 2 "B" 5] -> In r rest ->
                 (damage_key r <= damage_key w)%Q).
Proof.
  destruct (update_state_winners_are_heaviest
              (example_prize 6 true 1)
              [example_participant 1 "A" 1; example_participant 2 "B" 5]
              [example_participant 2 "B" 5]
              ltac:(simpl; lia) eq_refl) as (rest & Hp & Hr & _).
  exists rest. split; assumption.
Defined.

(** ** The distributions of [save_current_state] *)

Lemma same_inputs_trans (st st1 st2 : App) :
  same_inputs st st1 -> same_inputs st1 st2 -> same_inputs st st2.
Proof.
  intros [ H1 H2 ] [ H3 H4 ]. split; congruence.
Qed.

Lemma save_distributions_loop_step (prize : Prize.t) (rest : list Prize.t)
    (all : dict (list (string * number))) (st1 st1' : App) (rows : list row) :
  calculate_distribution prize st1 = (Ok rows, st1') ->
  save_distributions_loop (prize :: rest) all st1
  = match unpack_name_qty rows with
    | Ok pairs =>
        save_distributions_loop rest (dict_set (Prize.id prize) pairs all) st1'
    | Raise e => (Raise e, st1')
    end.
Proof.
  intro H. cbn [save_distributions_loop]. unfold bind, lift. rewrite H.
  destruct (unpack_name_qty rows); reflexivity.
Qed.

Lemma save_distributions_loop_spec (ps : list Prize.t) (st : App) :
  forall all st1,
    same_inputs st st1 ->
    (forall k v, In (k, v) all -> v = []) ->
    (exists d st2,
        save_distributions_loop ps all st1 = (Ok d, st2) /\
        (forall k v, In (k, v) d -> v = []) /\
        (forall prize, In prize ps ->
                       fst (calculate_distribution prize st) = Ok []))
    \/
    (exists st2,
        save_distributions_loop ps all st1 = (Raise ValueError, st2) /\
        exists prize, In prize ps /\
                      fst (calculate_distribution prize st) <> Ok []).
Proof.
  induction ps as [ | prize rest IH ]; intros all st1 Hst Hall.
  - left. exists all, st1. repeat split; [ exact Hall | intros p [] ].
  - assert (Hres := calculate_distribution_same_inputs prize st st1 Hst).
    assert (Hkeep := calculate_distribution_keeps_inputs prize st1).
    destruct (calculate_distribution_total prize st1)
      as (rows & st1' & Hcalc & _).
    rewrite (save_distributions_loop_step _ _ _ _ _ _ Hcalc).
    rewrite Hcalc in *. simpl in Hres, Hkeep.
    destruct rows as [ | r rows ]; simpl unpack_name_qty; cbv iota.
    + destruct (IH (dict_set (Prize.id prize) [] all) st1') as
        [ (d & st2 & Hrun & Hd & Hps) | (st2 & Hrun & p & Hp & Hne) ].
      * eapply same_inputs_trans; eassumption.
      * intros k v Hin. apply dict_set_In in Hin.
        destruct Hin as [ E | Hin ]; [ now injection E | eapply Hall, Hin ].
      * left. exists d, st2. repeat split; try assumption.
        intros p [ <- | Hp ]; [ now symmetry | now apply Hps ].
      * right. exists st2. split; [ exact Hrun | ].
        exists p. split; [ now right | exact Hne ].
    + right. exists st1'. split; [ reflexivity | ].
      exists prize. split; [ now left | ]. rewrite <- Hres. discriminate.
Qed.

Lemma save_distributions_cases (st : App) :
  (exists d st',
      save_distributions st = (Ok d, st') /\
      (forall k v, In (k, v) d -> v = []) /\
      (forall prize, In prize (prizes st) ->
                     fst (calculate_distribution prize st) = Ok []))
  \/
  (exists st',
      save_distributions st = (Raise ValueError, st') /\
      exists prize, In prize (prizes st) /\
                    fst (calculate_distribution prize st) <> Ok []).
Proof.
  unfold save_distributions, bind, get_prizes.
  apply save_distributions_loop_spec.
  - now split.
  - intros k v [].
Qed.

(** X7.  The loop of [save_current_state] that collects the distributions
    either finds every distribution empty and records an empty list for
    every prize, or raises [ValueError], which happens as soon as one prize
    of the list has a distribution that is not empty: its tuples have three
    components and are unpacked into two names. *)
Theorem save_distributions_empty_or_error (st : App) :
  (exists d st',
      save_distributions st = (Ok d, st') /\
      (forall k v, In (k, v) d -> v = []) /\
      (forall prize, In prize (prizes st) ->
                     fst (calculate_distribution prize st) = Ok []))
  \/
  (exists st',
      save_distributions st = (Raise ValueError, st') /\
      exists prize, In prize (prizes st) /\
                    fst (calculate_distribution prize st) <> Ok []).
Proof. apply save_distributions_cases. Qed.

(** X8.  When one prize of the list can be shared (a numeric quantity,
    weights that are numbers and not negative, recipients of positive total
    weight, neither the quantity nor a weight above [2 ** 53]), the loop of
    [save_current_state] raises [ValueError]: the handler of
    [save_current_state] then reports an error and the state is not
    saved. *)
Theorem save_fails_when_a_prize_is_shared
    (prize : Prize.t) (st : App) (q t : Q) :
  In prize (prizes st) ->
  Prize.quantity prize = PyFloat q ->
  shareable prize st t ->
  float_sized prize st ->
  fst (save_distributions st) = Raise ValueError.
Proof.
  intros Hin Hq Hs Hf.
  assert (Hc := float_sized_converts _ _ _ Hf Hq).
  destruct (save_distributions_cases st)
    as [ (d & st' & _ & _ & Hall) | (st' & -> & _) ]; [ | reflexivity ].
  exfalso. specialize (Hall prize Hin).
  assert (Hne := shareable_recipients _ _ _ Hs).
  assert (Hlen : forall rows, fst (calculate_distribution prize st) = Ok rows ->
                 List.length rows
                 = List.length (recipients prize (participants st))).
  { intros rows. destruct (integer_only st) eqn:Hi.
    - rewrite (integer_mode_run prize st q t Hi Hq Hc Hs). simpl.
      intro E. injection E as <-. apply integer_rows_length.
    - rewrite (real_mode_run prize st q t Hi Hq Hc Hs). simpl.
      intro E. injection E as <-. unfold real_rows.
      now rewrite length_map, py_sorted_length. }
  specialize (Hlen [] Hall).
  destruct (recipients prize (participants st)); [ congruence | discriminate ].
Qed.

(** A prize of 10 among three participants of weight 1. *)
Lemma save_fails_when_a_prize_is_shared_witness :
  fst (save_distributions
         (mkApp three_equal [example_prize 10 false 1] true []))
  = Raise ValueError.
Proof.
  apply (save_fails_when_a_prize_is_shared (example_prize 10 false 1)
           (mkApp three_equal [example_prize 10 false 1] true []) 10 3);
    [ now left | reflexivity | shareable_at | float_sized_at ].
Defined.

(** ** Roster operations and the distribution *)

Lemma toggle_participant_run (i : Z) (st : App) :
  toggle_participant i st
  = match find_participant i (participants st) with
    | Some _ =>
        (Ok tt, mkApp (toggle_first i (participants st)) (prizes st)
                  (integer_only st)
                  (log st ++ [("debug", "log_participant_toggled")]%string))
    | None => (Ok tt, st)
    end.
Proof.
  unfold toggle_participant, bind, get_participants.
  destruct (find_participant i (participants st)); reflexivity.
Qed.

Lemma toggle_first_involutive (i : Z) (ps : list Participant.t) :
  toggle_first i (toggle_first i ps) = ps.
Proof.
  induction ps as [ | p ps IH ]; simpl.
  - reflexivity.
  - destruct (Participant.id p =? i) eqn:E; simpl; rewrite E.
    + destruct p. simpl. now rewrite negb_involutive.
    + now rewrite IH.
Qed.

Lemma find_toggle_first (i : Z) (ps : list Participant.t) (p : Participant.t) :
  find_participant i ps = Some p ->
  exists p', find_participant i (toggle_first i ps) = Some p'.
Proof.
  unfold find_participant.
  induction ps as [ | x ps IH ]; simpl; [ discriminate | ].
  destruct (Participant.id x =? i) eqn:E; simpl.
  - intros _. rewrite E. eexists. reflexivity.
  - rewrite E. exact IH.
Qed.

(** X9.  Two calls of [toggle_participant] with the same id leave the roster
    as it was. *)
Theorem toggle_participant_twice (i : Z) (st : App) :
  participants (snd (toggle_participant i (snd (toggle_participant i st))))
  = participants st.
Proof.
  rewrite (toggle_participant_run i st).
  destruct (find_participant i (participants st)) as [ p | ] eqn:E; simpl snd.
  - rewrite toggle_participant_run. simpl participants.
    destruct (find_toggle_first i _ p E) as (p' & ->). simpl.
    apply toggle_first_involutive.
  - rewrite toggle_participant_run, E. reflexivity.
Qed.

Lemma toggle_first_disables (i : Z) (ps : list Participant.t) (p : Participant.t) :
  find_participant i ps = Some p -> Participant.enabled p = true ->
  NoDup (map Participant.id ps) ->
  forall p', In p' (toggle_first i ps) -> Participant.id p' = i ->
             Participant.enabled p' = false.
Proof.
  unfold find_participant.
  induction ps as [ | x ps IH ]; simpl; [ discriminate | ].
  intros Hf He Hnd p' Hin Hid. inversion Hnd as [ | ? ? Hx Hnd' ]; subst.
  destruct (Participant.id x =? Participant.id p') eqn:E.
  - injection Hf as <-. apply Z.eqb_eq in E.
    destruct Hin as [ <- | Hin ]; [ simpl; now rewrite He | ].
    exfalso. apply Hx. rewrite E. now apply in_map.
  - destruct Hin as [ <- | Hin ]; [ rewrite Z.eqb_refl in E; discriminate | ].
    now apply (IH Hf He Hnd').
Qed.

(** X10.  After [toggle_participant] has switched off an enabled
    participant, the ids of the roster being distinct, no result of
    [calculate_distribution] has a tuple with the id of that participant. *)
Theorem toggled_off_participant_gets_nothing
    (i : Z) (st : App) (p : Participant.t) (prize : Prize.t) :
  find_participant i (participants st) = Some p ->
  Participant.enabled p = true ->
  NoDup (map Participant.id (participants st)) ->
  exists rows,
    fst (calculate_distribution prize (snd (toggle_participant i st))) = Ok rows /\
    ~ In i (map row_id rows).
Proof.
  intros Hf He Hnd.
  destruct (rows_from_active_participants prize (snd (toggle_participant i st)))
    as (rows & Hr & Hrows).
  exists rows. split; [ exact Hr | ].
  intro Hin. apply in_map_iff in Hin. destruct Hin as (r & Hid & Hin).
  destruct (Hrows r Hin) as (p' & Hp' & He' & _ & Hid' & _).
  rewrite toggle_participant_run, Hf in Hp'. simpl in Hp'.
  rewrite (toggle_first_disables i _ p Hf He Hnd p' Hp') in He'
    by congruence.
  discriminate.
Qed.

(** Switching off B among three participants of weight 1. *)
Lemma toggled_off_participant_gets_nothing_witness :
  exists rows,
    fst (calculate_distribution (example_prize 10 false 1)
           (snd (toggle_participant 2 (example_app true three_equal))))
    = Ok rows /\
    ~ In 2 (map row_id rows).
Proof.
  apply (toggled_off_participant_gets_nothing 2 (example_app true three_equal)
           (example_participant 2 "B" 1));
    [ reflexivity | reflexivity | ].
  simpl. repeat constructor; simpl; intuition discriminate.
Defined.

Lemma find_participant_none (i : Z) (ps : list Participant.t) :
  find_participant i ps = None ->
  filter (fun p => negb (Participant.id p =? i)) ps = ps.
Proof.
  unfold find_participant.
  induction ps as [ | x ps IH ]; simpl; [ reflexivity | ].
  destruct (Participant.id x =? i); simpl; [ discriminate | ].
  intro H. now rewrite IH.
Qed.

Lemma delete_participant_roster (i : Z) (st : App) :
  participants (snd (delete_participant true i st))
  = filter (fun p => negb (Participant.id p =? i)) (participants st).
Proof.
  unfold delete_participant, bind, get_participants.
  destruct (find_participant i (participants st)) eqn:E; simpl.
  - reflexivity.
  - symmetry. now apply find_participant_none.
Qed.

(** X11.  A confirmed [delete_participant] removes from the roster every
    participant with the given id and keeps the others in their order;
    afterwards no result of [calculate_distribution] has a tuple with that
    id. *)
Theorem deleted_participant_gets_nothing (i : Z) (st : App) (prize : Prize.t) :
  participants (snd (delete_participant true i st))
  = filter (fun p => negb (Participant.id p =? i)) (participants st) /\
  exists rows,
    fst (calculate_distribution prize (snd (delete_participant true i st)))
    = Ok rows /\
    ~ In i (map row_id rows).
Proof.
  split; [ apply delete_participant_roster | ].
  destruct (rows_from_active_participants prize
              (snd (delete_participant true i st))) as (rows & Hr & Hrows).
  exists rows. split; [ exact Hr | ].
  intro Hin. apply in_map_iff in Hin. destruct Hin as (r & Hid & Hin).
  destruct (Hrows r Hin) as (p' & Hp' & _ & _ & Hid' & _).
  rewrite delete_participant_roster in Hp'. apply filter_In in Hp'.
  destruct Hp' as [ _ Hne ]. apply negb_true_iff, Z.eqb_neq in Hne. congruence.
Qed.

(** ** [DateRange] *)

Lemma date_ltb_true (a b : date_t) : date_ltb a b = true <-> earlier a b.
Proof.
  destruct a as [ [ y1 m1 ] d1 ]. destruct b as [ [ y2 m2 ] d2 ].
  unfold date_ltb, earlier.
  rewrite orb_true_iff, andb_true_iff, orb_true_iff, andb_true_iff.
  rewrite !Z.ltb_lt, !Z.eqb_eq. reflexivity.
Qed.

Lemma date_ltb_false (a b : date_t) : date_ltb a b = false <-> ~ earlier a b.
Proof.
  rewrite <- date_ltb_true. destruct (date_ltb a b); split; intro H;
    try reflexivity; try discriminate; try (intro; discriminate).
  now elim H.
Qed.

Lemma date_leb_true (a b : date_t) : date_leb a b = true <-> ~ earlier b a.
Proof. unfold date_leb. rewrite negb_true_iff. apply date_ltb_false. Qed.

Ltac date_order :=
  repeat match goal with
         | H : date_ltb _ _ = true |- _ => apply date_ltb_true in H
         | H : date_ltb _ _ = false |- _ => apply date_ltb_false in H
         | H : date_leb _ _ = true |- _ => apply date_leb_true in H
         | |- date_ltb _ _ = true => apply date_ltb_true
         | |- date_ltb _ _ = false => apply date_ltb_false
         | |- date_leb _ _ = true => apply date_leb_true
         end;
  repeat match goal with
         | d : date_t |- _ => destruct d as [ [ ? ? ] ? ]
         end;
  unfold earlier in *; lia.

Lemma monthrange_days_bounds (year month n : Z) :
  monthrange_days year month = Ok n -> 28 <= n <= 31.
Proof.
  unfold monthrange_days.
  destruct ((1 <=? month) && (month <=? 12)) eqn:E; [ | discriminate ].
  apply andb_true_iff in E. destruct E as [ E1 E2 ].
  apply Z.leb_le in E1, E2. intro H. injection H as <-.
  assert (Hm : month = 1 \/ month = 2 \/ month = 3 \/ month = 4 \/ month = 5 \/
               month = 6 \/ month = 7 \/ month = 8 \/ month = 9 \/ month = 10 \/
               month = 11 \/ month = 12) by lia.
  repeat (destruct Hm as [ -> | Hm ];
          [ match goal with
            | |- context [ mdays ?m ] =>
                let v := eval vm_compute in (mdays m) in change (mdays m) with v
            end;
            match goal with
            | |- context [ ?m =? 2 ] =>
                let v := eval vm_compute in (m =? 2) in change (m =? 2) with v
            end;
            cbn [andb]; try destruct (isleap year); lia | ]).
  subst. vm_compute. split; discriminate.
Qed.

Lemma monthrange_days_raises (year month : Z) (e : exn) :
  monthrange_days year month = Raise e -> e = ValueError.
Proof.
  unfold monthrange_days. destruct (_ && _); [ discriminate | ].
  intro H. now injection H.
Qed.

Lemma date_raises (year month day : Z) (e : exn) :
  date year month day = Raise e -> e = ValueError.
Proof.
  unfold date. destruct (_ && _ && _ && _); [ | intro H; now injection H ].
  destruct (monthrange_days year month) eqn:E; simpl.
  - destruct (_ && _); [ discriminate | intro H; now injection H ].
  - intro H. injection H as <-. eapply monthrange_days_raises, E.
Qed.

Lemma date_ok (year month day : Z) (d : date_t) :
  date year month day = Ok d ->
  d = (year, month, day) /\
  exists n, monthrange_days year month = Ok n /\ 1 <= day <= n.
Proof.
  unfold date. destruct (_ && _ && _ && _); [ | discriminate ].
  destruct (monthrange_days year month) as [ n | ]; simpl; [ | discriminate ].
  destruct ((1 <=? day) && (day <=? n)) eqn:E; [ | discriminate ].
  intro H. injection H as <-. split; [ reflexivity | ].
  apply andb_true_iff in E. destruct E as [ E1 E2 ].
  apply Z.leb_le in E1, E2. exists n. now split.
Qed.

Lemma start_date_raises (r : DateRange.t) (e : exn) :
  start_date r = Raise e -> e = ValueError.
Proof. apply date_raises. Qed.

Lemma end_date_raises (r : DateRange.t) (e : exn) :
  end_date r = Raise e -> e = ValueError.
Proof.
  unfold end_date. destruct (truthy (DateRange.end_day r)); simpl.
  - apply date_raises.
  - destruct (monthrange_days _ _) eqn:E; simpl.
    + apply date_raises.
    + intro H. injection H as <-. eapply monthrange_days_raises, E.
Qed.

(** X12.  [overlaps] is symmetric: [a.overlaps(b)] and [b.overlaps(a)]
    return the same boolean, or both raise [ValueError] because one of the
    four dates does not exist. *)
Theorem overlaps_symmetric (a b : DateRange.t) :
  overlaps a b = overlaps b a.
Proof.
  unfold overlaps.
  destruct (start_date a) as [ sa | e1 ] eqn:E1;
    destruct (end_date a) as [ ea | e2 ] eqn:E2;
    destruct (start_date b) as [ sb | e3 ] eqn:E3;
    destruct (end_date b) as [ eb | e4 ] eqn:E4; simpl;
    repeat match goal with
           | H : start_date _ = Raise _ |- _ => apply start_date_raises in H; subst
           | H : end_date _ = Raise _ |- _ => apply end_date_raises in H; subst
           end;
    try reflexivity.
  now rewrite orb_comm.
Qed.

Lemma is_valid_ordered (r : DateRange.t) (s e : date_t) :
  is_valid r = Ok true -> start_date r = Ok s -> end_date r = Ok e ->
  date_leb s e = true.
Proof.
  unfold is_valid. intros Hv Hs He.
  destruct (negb (truthy (DateRange.end_year r))
            && negb (truthy (DateRange.end_month r))
            && negb (truthy (DateRange.end_day r))) eqn:Hopen.
  - apply andb_true_iff in Hopen. destruct Hopen as [ Hopen Hd ].
    apply andb_true_iff in Hopen. destruct Hopen as [ Hy Hm ].
    apply negb_true_iff in Hy, Hm, Hd.
    unfold end_date in He. rewrite Hd in He.
    assert (Ey : or_else (DateRange.end_year r) (DateRange.start_year r)
                 = DateRange.start_year r).
    { unfold truthy, or_else in *. destruct (DateRange.end_year r) as [ v | ];
        [ | reflexivity ].
      apply negb_false_iff in Hy. now rewrite Hy. }
    assert (Em : or_else (DateRange.end_month r) (DateRange.start_month r)
                 = DateRange.start_month r).
    { unfold truthy, or_else in *. destruct (DateRange.end_month r) as [ v | ];
        [ | reflexivity ].
      apply negb_false_iff in Hm. now rewrite Hm. }
    rewrite Ey, Em in He.
    destruct (monthrange_days _ _) as [ n | ] eqn:En; simpl in He;
      [ | discriminate ].
    apply date_ok in Hs. destruct Hs as [ -> (n' & En' & Hday) ].
    apply date_ok in He. destruct He as [ -> _ ].
    rewrite En in En'. injection En' as <-.
    date_order.
  - rewrite Hs, He in Hv. simpl in Hv. now injection Hv.
Qed.

(** X13.  A range that [is_valid] accepts overlaps itself: when its two
    dates exist, [r.overlaps(r)] is [True], and it is [True] outright when
    the range has an end. *)
Theorem valid_range_overlaps_itself (r : DateRange.t) :
  is_valid r = Ok true ->
  (forall b, overlaps r r = Ok b -> b = true) /\
  (truthy (DateRange.end_year r) || truthy (DateRange.end_month r)
   || truthy (DateRange.end_day r) = true ->
   overlaps r r = Ok true).
Proof.
  intro Hv.
  assert (Hself : forall s e, start_date r = Ok s -> end_date r = Ok e ->
                              overlaps r r = Ok true).
  { intros s e Hs He. assert (Hle := is_valid_ordered r s e Hv Hs He).
    unfold overlaps. rewrite Hs, He. simpl.
    unfold date_leb in Hle. apply negb_true_iff in Hle. now rewrite Hle. }
  split.
  - intros b Hb.
    destruct (start_date r) as [ s | ] eqn:Hs;
      [ | unfold overlaps in Hb; rewrite Hs in Hb; discriminate ].
    destruct (end_date r) as [ e | ] eqn:He;
      [ | unfold overlaps in Hb; rewrite Hs, He in Hb; discriminate ].
    rewrite (Hself s e eq_refl eq_refl) in Hb. now injection Hb.
  - intro Hend. unfold is_valid in Hv.
    rewrite <- !negb_orb in Hv. rewrite Hend in Hv. simpl in Hv.
    destruct (start_date r) as [ s | ] eqn:Hs; simpl in Hv; [ | discriminate ].
    destruct (end_date r) as [ e | ] eqn:He; simpl in Hv; [ | discriminate ].
    unfold is_valid in Hself. now apply (Hself s e).
Qed.

(** 10 to 20 March 2024. *)
Lemma valid_range_overlaps_itself_witness :
  overlaps (DateRange.mk 2024 3 (Some 10) (Some 2024) (Some 3) (Some 20))
           (DateRange.mk 2024 3 (Some 10) (Some 2024) (Some 3) (Some 20))
  = Ok true.
Proof.
  apply (valid_range_overlaps_itself
           (DateRange.mk 2024 3 (Some 10) (Some 2024) (Some 3) (Some 20)));
    reflexivity.
Defined.

Lemma or_else_falsy (o : option Z) (d : Z) : truthy o = false -> or_else o d = d.
Proof.
  unfold truthy, or_else. destruct o as [ v | ]; [ | reflexivity ].
  intro H. apply negb_false_iff in H. now rewrite H.
Qed.

(** X14.  For two ranges that each cover a day, [overlaps] is [True]
    exactly when some day lies in both. *)
Theorem overlaps_iff_common_day (a b : DateRange.t) :
  (exists d, covers a d) -> (exists d, covers b d) ->
  (overlaps a b = Ok true <-> exists d, covers a d /\ covers b d).
Proof.
  intros (da & sa & ea & Hsa & Hea & Ha1 & Ha2)
         (db & sb & eb & Hsb & Heb & Hb1 & Hb2).
  unfold overlaps, covers. rewrite Hsa, Hea, Hsb, Heb. simpl. split.
  - intro H. injection H as H. apply negb_true_iff, orb_false_iff in H.
    destruct H as [ H1 H2 ].
    destruct (date_ltb sa sb) eqn:E.
    + exists sb. split; [ exists sa, ea | exists sb, eb ];
        repeat split; date_order.
    + exists sa. split; [ exists sa, ea | exists sb, eb ];
        repeat split; date_order.
  - intros (d & (s1 & e1 & Hs1 & He1 & H1 & H2) & (s2 & e2 & Hs2 & He2 & H3 & H4)).
    injection Hs1 as <-. injection He1 as <-.
    injection Hs2 as <-. injection He2 as <-.
    f_equal. apply negb_true_iff, orb_false_iff. split; date_order.
Qed.

(** March 2024 and 20 March to 5 April 2024 share 25 March. *)
Lemma overlaps_iff_common_day_witness :
  overlaps (DateRange.mk 2024 3 None None None None)
           (DateRange.mk 2024 3 (Some 20) (Some 2024) (Some 4) (Some 5))
  = Ok true
  <-> exists d,
        covers (DateRange.mk 2024 3 None None None None) d /\
        covers (DateRange.mk 2024 3 (Some 20) (Some 2024) (Some 4) (Some 5)) d.
Proof.
  apply overlaps_iff_common_day;
    exists (2024, 3, 25); eexists _, _; repeat split.
Defined.

Lemma month_only_dates (r : DateRange.t) :
  month_only r ->
  1 <= DateRange.start_year r <= 9999 -> 1 <= DateRange.start_month r <= 12 ->
  exists n,
    1 <= n /\
    start_date r = Ok (DateRange.start_year r, DateRange.start_month r, 1) /\
    end_date r = Ok (DateRange.start_year r, DateRange.start_month r, n).
Proof.
  intros (Hd & Hy & Hm & He) Hyear Hmonth.
  unfold start_date, end_date. rewrite He.
  rewrite (or_else_falsy _ _ Hd), (or_else_falsy _ _ Hy), (or_else_falsy _ _ Hm).
  assert (Hg : (1 <=? DateRange.start_year r) && (DateRange.start_year r <=? 9999)
               && (1 <=? DateRange.start_month r)
               && (DateRange.start_month r <=? 12) = true).
  { rewrite !andb_true_iff, !Z.leb_le. lia. }
  destruct (monthrange_days (DateRange.start_year r) (DateRange.start_month r))
    as [ n | e ] eqn:En.
  - assert (Hn := monthrange_days_bounds _ _ _ En).
    exists n. split; [ lia | ]. unfold date. rewrite Hg, En. cbn [rbind].
    assert (H1 : (1 <=? 1) && (1 <=? n) = true)
      by (rewrite andb_true_iff, !Z.leb_le; lia).
    assert (H2 : (1 <=? n) && (n <=? n) = true)
      by (rewrite andb_true_iff, !Z.leb_le; lia).
    rewrite H1, H2. now split.
  - exfalso. unfold monthrange_days in En.
    assert (Hm' : (1 <=? DateRange.start_month r)
                  && (DateRange.start_month r <=? 12) = true)
      by (rewrite andb_true_iff, !Z.leb_le; lia).
    rewrite Hm' in En. discriminate.
Qed.

(** X15.  Two ranges that name a month only, with no day and no end, overlap
    exactly when they name the same month of the same year. *)
Theorem month_only_ranges_overlap (a b : DateRange.t) :
  month_only a -> month_only b ->
  1 <= DateRange.start_year a <= 9999 -> 1 <= DateRange.start_month a <= 12 ->
  1 <= DateRange.start_year b <= 9999 -> 1 <= DateRange.start_month b <= 12 ->
  overlaps a b
  = Ok ((DateRange.start_year a =? DateRange.start_year b)
        && (DateRange.start_month a =? DateRange.start_month b)).
Proof.
  intros Ha Hb Hya Hma Hyb Hmb.
  destruct (month_only_dates a Ha Hya Hma) as (na & Hna & Hsa & Hea).
  destruct (month_only_dates b Hb Hyb Hmb) as (nb & Hnb & Hsb & Heb).
  unfold overlaps. rewrite Hsa, Hea, Hsb, Heb. simpl rbind. f_equal.
  apply eq_true_iff_eq.
  rewrite negb_true_iff, !orb_false_iff, !andb_false_iff, !orb_false_iff,
    !andb_false_iff, andb_true_iff.
  rewrite !Z.ltb_ge, !Z.eqb_neq, !Z.eqb_eq. lia.
Qed.

(** March 2024 and April 2024. *)
Lemma month_only_ranges_overlap_witness :
  overlaps (DateRange.mk 2024 3 None None None None)
           (DateRange.mk 2024 4 None None None None)
  = Ok false.
Proof.
  apply (month_only_ranges_overlap
           (DateRange.mk 2024 3 None None None None)
           (DateRange.mk 2024 4 None None None None));
    try (repeat split; reflexivity); simpl; lia.
Defined.

(** ** Special prizes with room for everybody *)

(** X16.  On a roster in ascending order of id, a special prize whose
    [top_winners] is at least the number of active participants is
    distributed exactly like the normal prize of the same quantity, in both
    modes and on every input. *)
Theorem special_prize_for_all_is_normal (prize : Prize.t) (st : App) (n : Z) :
  StronglySorted (by_key Participant.id) (participants st) ->
  Z.of_nat (List.length (active_participants (participants st))) <= n ->
  calculate_distribution (as_special prize n) st
  = calculate_distribution (as_normal prize) st.
Proof.
  intros Hs Hn.
  assert (Hfix : py_sorted Participant.id Z.ltb
                   (active_participants (participants st))
                 = active_participants (participants st)).
  { apply py_sorted_by_key_fixed. now apply StronglySorted_filter. }
  assert (Htop : top_participants (as_special prize n)
                   (active_participants (participants st))
                 = active_participants (participants st)).
  { unfold top_participants. rewrite Hfix. simpl Prize.top_winners.
    rewrite py_slice_to_nonneg by lia. apply firstn_all2. lia. }
  unfold calculate_distribution, try_except, bind, get_participants,
    get_integer_only, lift, ret.
  destruct (is_nil (active_participants (participants st))); [ reflexivity | ].
  destruct (py_sum (map Participant.damage
                      (active_participants (participants st))))
    as [ t0 | e ] eqn:E; [ | reflexivity ].
  destruct (Qeq_bool t0 0); [ reflexivity | ].
  simpl Prize.is_special. cbv iota. rewrite Htop, E, Hfix. reflexivity.
Qed.

(** Three participants in the order of their ids, three winners. *)
Lemma special_prize_for_all_is_normal_witness :
  calculate_distribution (as_special (example_prize 10 false 1) 3)
    (example_app true three_equal)
  = calculate_distribution (as_normal (example_prize 10 false 1))
      (example_app true three_equal).
Proof.
  apply special_prize_for_all_is_normal.
  - unfold by_key. simpl. repeat constructor; simpl; lia.
  - simpl. lia.
Defined.

(** ** Integer mode on whole shares *)








(** ** The period test of [add_prizes] and [add_participants] *)

(** X18.  Whenever [date_range.overlaps(s)] returns, the period test that
    [add_prizes] and [add_participants] spell out on the same two ranges
    returns the same boolean. *)
Theorem period_test_agrees_with_overlaps (s date_range : DateRange.t) (b : bool) :
  overlaps date_range s = Ok b -> active_in_period s date_range = Ok b.
Proof.
  unfold overlaps, active_in_period.
  destruct (start_date date_range) as [ ns | ]; simpl; [ | discriminate ].
  destruct (end_date date_range) as [ ne | ]; simpl; [ | discriminate ].
  destruct (start_date s) as [ ss | ]; simpl; [ | discriminate ].
  destruct (end_date s) as [ se | ]; simpl; [ | discriminate ].
  intro H. injection H as <-. unfold date_leb.
  destruct (date_ltb ne ss); simpl; reflexivity.
Qed.

(** March 2024 against 20 March to 5 April 2024. *)
Lemma period_test_agrees_with_overlaps_witness :
  active_in_period
    (DateRange.mk 2024 3 (Some 20) (Some 2024) (Some 4) (Some 5))
    (DateRange.mk 2024 3 None None None None)
  = Ok true.
Proof.
  apply period_test_agrees_with_overlaps. reflexivity.
Defined.

(** ** Batch input *)

Section BatchFacts.
Variable int_of_str : string -> option Z.

Lemma participant_of_line_added (ps : list Participant.t) (next_id : Z)
    (line : string) (p : Participant.t) :
  participant_of_line int_of_str ps next_id line = Added p ->
  Participant.id p = next_id /\
  Participant.enabled p = true /\
  weight_or_marker p /\
  participant_name_exists (Participant.name p) ps = false.
Proof.
  unfold participant_of_line.
  destruct (String.eqb (strip line) ""); [ discriminate | ].
  destruct (negb (contains ":" line)); [ discriminate | ].
  destruct (split_on ":" line) as [ | name [ | damage [ | ? ? ] ] ];
    try discriminate.
  destruct (String.eqb (strip name) ""); [ discriminate | ].
  destruct (_ <? 3)%nat; [ discriminate | ].
  destruct (20 <? _)%nat; [ discriminate | ].
  destruct (participant_name_exists (strip name) ps) eqn:En; [ discriminate | ].
  destruct (String.eqb (strip damage) "#") eqn:Eh.
  - intro H. injection H as <-. simpl. repeat split; [ | exact En ].
    left. apply String.eqb_eq in Eh. rewrite Eh. reflexivity.
  - destruct (int_of_str (strip damage)) as [ v | ]; [ | discriminate ].
    destruct (v <? 0) eqn:Ev; [ discriminate | ].
    intro H. injection H as <-. simpl. repeat split; [ | exact En ].
    right. exists (inject_Z v). split; [ reflexivity | ].
    apply Z.ltb_ge in Ev. unfold Qle. simpl. lia.
Qed.

Lemma StronglySorted_snoc {A} (R : A -> A -> Prop) (l : list A) (x : A) :
  StronglySorted R l -> Forall (fun a => R a x) l -> StronglySorted R (l ++ [x]).
Proof.
  induction 1 as [ | a l Hl IH Ha ]; intro Hx; simpl.
  - constructor; constructor.
  - inversion Hx; subst. constructor; [ now apply IH | ].
    apply Forall_app. split; [ exact Ha | now constructor ].
Qed.

Lemma roster_ok_added (ps : list Participant.t) (next_id : Z) (p : Participant.t) :
  roster_ok ps next_id ->
  Participant.id p = next_id -> weight_or_marker p ->
  participant_name_exists (Participant.name p) ps = false ->
  roster_ok (ps ++ [p]) (next_id + 1).
Proof.
  intros (Hs & Hb & Hw & Hn) Hid Hp He. repeat split.
  - apply StronglySorted_snoc; [ exact Hs | ].
    eapply Forall_impl; [ | exact Hb ]. intros a Ha. simpl in Ha. lia.
  - apply Forall_app. split.
    + eapply Forall_impl; [ | exact Hb ]. intros a Ha. simpl in Ha. lia.
    + constructor; [ lia | constructor ].
  - apply Forall_app. split; [ exact Hw | now constructor ].
  - rewrite map_app. simpl.
    apply (Permutation_NoDup (l := lower (Participant.name p)
                                   :: map (fun p => lower (Participant.name p)) ps)).
    + apply Permutation_cons_append.
    + constructor; [ | exact Hn ].
      intro Hin. apply in_map_iff in Hin. destruct Hin as (p' & Heq & Hp').
      unfold participant_name_exists in He.
      assert (Hex : existsb (fun p0 => String.eqb (lower (Participant.name p0))
                                         (lower (Participant.name p))) ps = true).
      { apply existsb_exists. exists p'. split; [ exact Hp' | ].
        now apply String.eqb_eq. }
      congruence.
Qed.

Lemma add_participant_lines_keeps (lines : list string) :
  forall ps next_id errors,
    roster_ok ps next_id ->
    exists added,
      fst (fst (add_participant_lines int_of_str lines ps next_id errors))
      = ps ++ added /\
      snd (fst (add_participant_lines int_of_str lines ps next_id errors))
      = next_id + Z.of_nat (List.length added) /\
      roster_ok (ps ++ added) (next_id + Z.of_nat (List.length added)).
Proof.
  induction lines as [ | line rest IH ]; intros ps next_id errors Hok.
  - exists []. simpl. rewrite app_nil_r, Z.add_0_r.
    split; [ reflexivity | split; [ reflexivity | exact Hok ] ].
  - simpl.
    destruct (participant_of_line int_of_str ps next_id line) as [ | p | name | m ]
      eqn:E; try (apply IH; exact Hok).
    destruct (participant_of_line_added _ _ _ _ E) as (Hid & _ & Hw & He).
    destruct (IH (ps ++ [p]) (next_id + 1) errors
                 (roster_ok_added _ _ _ Hok Hid Hw He))
      as (added & H1 & H2 & H3).
    exists (p :: added). rewrite H1, H2. simpl List.length.
    rewrite <- app_assoc in *. simpl app in *.
    replace (next_id + Z.of_nat (S (List.length added)))
      with (next_id + 1 + Z.of_nat (List.length added)) by lia.
    split; [ reflexivity | split; [ reflexivity | exact H3 ] ].
Qed.

End BatchFacts.

Lemma roster_ok_active_weights (ps : list Participant.t) (next_id : Z) :
  roster_ok ps next_id -> Forall weight_ok (active_participants ps).
Proof.
  intros (_ & _ & Hw & _). rewrite Forall_forall in *. intros p Hp.
  unfold active_participants in Hp. apply filter_In in Hp.
  destruct Hp as [ Hin Hb ]. apply andb_true_iff in Hb.
  destruct Hb as [ _ Hh ]. apply negb_true_iff in Hh.
  destruct (Hw p Hin) as [ H | H ]; [ congruence | exact H ].
Qed.

Lemma roster_ok_ids (ps : list Participant.t) (next_id : Z) :
  roster_ok ps next_id ->
  StronglySorted (by_key Participant.id) ps /\ NoDup (map Participant.id ps).
Proof.
  intros (Hs & _). split.
  - eapply StronglySorted_ind with (P := StronglySorted _);
      [ constructor | | exact Hs ].
    intros a l _ IH Ha. constructor; [ exact IH | ].
    eapply Forall_impl; [ | exact Ha ]. intros b Hb. unfold by_key. simpl in Hb. lia.
  - induction Hs as [ | a l Hl IH Ha ]; simpl; constructor; [ | exact IH ].
    intro Hin. apply in_map_iff in Hin. destruct Hin as (b & Hb & Hin).
    rewrite Forall_forall in Ha. specialize (Ha b Hin). simpl in Ha. lia.
Qed.

(** X19.  The batch input of [add_participants] keeps a well-formed roster
    well formed, whatever the lines: it only appends participants, with the
    next ids in order; afterwards the ids are distinct and ascending, no two
    names are equal up to case, and every active participant has a weight
    that is a number and not negative, as the distribution expects. *)
Theorem batch_participants_keep_roster
    (int_of_str : string -> option Z) (lines : list string)
    (ps : list Participant.t) (next_id : Z) (errors : list string) :
  roster_ok ps next_id ->
  exists added,
    fst (fst (add_participant_lines int_of_str lines ps next_id errors))
    = ps ++ added /\
    snd (fst (add_participant_lines int_of_str lines ps next_id errors))
    = next_id + Z.of_nat (List.length added) /\
    roster_ok (ps ++ added) (next_id + Z.of_nat (List.length added)) /\
    Forall weight_ok (active_participants (ps ++ added)) /\
    StronglySorted (by_key Participant.id) (ps ++ added) /\
    NoDup (map Participant.id (ps ++ added)).
Proof.
  intro Hok.
  destruct (add_participant_lines_keeps int_of_str lines ps next_id errors Hok)
    as (added & H1 & H2 & H3).
  exists added.
  split; [ exact H1 | ]. split; [ exact H2 | ]. split; [ exact H3 | ].
  split; [ eapply roster_ok_active_weights, H3 | ].
  eapply roster_ok_ids, H3.
Qed.

(** Three lines on an empty roster: two are added, one is refused. *)
Lemma batch_participants_keep_roster_witness :
  exists added,
    fst (fst (add_participant_lines example_int
                ["Anna: 5"; "Bob:#"; "Carl"]%string [] 1 []))
    = [] ++ added /\
    List.length added = 2%nat /\
    Forall weight_ok (active_participants ([] ++ added)).
Proof.
  destruct (batch_participants_keep_roster example_int
              ["Anna: 5"; "Bob:#"; "Carl"]%string [] 1 [])
    as (added & H1 & H2 & _ & Hw & _).
  - repeat split; constructor.
  - exists added. split; [ exact H1 | ]. split; [ | exact Hw ].
    assert (E : snd (fst (add_participant_lines example_int
                            ["Anna: 5"; "Bob:#"; "Carl"]%string [] 1 [])) = 3)
      by reflexivity.
    rewrite E in H2. lia.
Defined.

Lemma batch_prize_is_well_formed_aux
    (int_of_str : string -> option Z) (ps : list Prize.t) (next_id : Z)
    (line : string) (prize : Prize.t) :
  prize_of_line int_of_str ps next_id line = Added prize ->
  Prize.id prize = next_id /\
  1 <= Prize.top_winners prize /\
  (Prize.is_special prize = false -> Prize.top_winners prize = 1) /\
  prize_name_exists (Prize.name prize) ps = false /\
  (Prize.quantity prize = PyStr "#" \/
   exists v, 0 < v /\ Prize.quantity prize = PyFloat (inject_Z v)).
Proof.
  unfold prize_of_line.
  destruct (String.eqb (strip line) ""); [ discriminate | ].
  destruct (negb (contains ":" line)); [ discriminate | ].
  set (parts := split_on ":" line).
  destruct (String.eqb (strip (nth 0 parts EmptyString)) ""); [ discriminate | ].
  destruct (_ <? 3)%nat; [ discriminate | ].
  destruct (20 <? _)%nat; [ discriminate | ].
  destruct (prize_name_exists _ ps) eqn:En; [ discriminate | ].
  assert (Hfinish : forall sp n,
             1 <= n -> (sp = false -> n = 1) ->
             (if String.eqb (strip (nth 1 parts EmptyString)) "#"
              then Added (Prize.mk next_id (strip (nth 0 parts EmptyString))
                            (PyStr (strip (nth 1 parts EmptyString))) sp n)
              else
                match int_of_str (strip (nth 1 parts EmptyString)) with
                | Some quantity_value =>
                    if quantity_value <=? 0
                    then Refused "quantity_must_be_integer"
                    else Added (Prize.mk next_id
                                  (strip (nth 0 parts EmptyString))
                                  (PyFloat (inject_Z quantity_value)) sp n)
                | None => Refused "quantity_must_be_integer"
                end) = Added prize ->
             Prize.id prize = next_id /\
             1 <= Prize.top_winners prize /\
             (Prize.is_special prize = false -> Prize.top_winners prize = 1) /\
             prize_name_exists (Prize.name prize) ps = false /\
             (Prize.quantity prize = PyStr "#" \/
              exists v, 0 < v /\ Prize.quantity prize = PyFloat (inject_Z v))).
  { intros sp n Hn Hsp.
    destruct (String.eqb (strip (nth 1 parts EmptyString)) "#") eqn:Eh.
    - intro H. injection H as <-. simpl. apply String.eqb_eq in Eh.
      rewrite Eh. repeat split; try assumption. now left.
    - destruct (int_of_str _) as [ v | ]; [ | discriminate ].
      destruct (v <=? 0) eqn:Ev; [ discriminate | ].
      intro H. injection H as <-. simpl. apply Z.leb_gt in Ev.
      repeat split; try assumption. right. now exists v. }
  destruct (2 <? List.length parts)%nat.
  - destruct (String.eqb (lower (strip (nth 2 parts EmptyString))) "s").
    + destruct (List.length parts <? 4)%nat; [ discriminate | ].
      destruct (int_of_str (strip (nth 3 parts EmptyString))) as [ n | ];
        [ | discriminate ].
      destruct (n <? 1) eqn:E1; [ discriminate | ].
      apply Z.ltb_ge in E1. apply Hfinish; [ exact E1 | discriminate ].
    + destruct (negb (String.eqb _ "")); [ discriminate | ].
      apply Hfinish; [ lia | reflexivity ].
  - apply Hfinish; [ lia | reflexivity ].
Qed.

(** X20.  A prize that the batch input of [add_prizes] creates from a line
    has the next id, at least one winner, exactly one when it is not
    special, a name that no prize of the list has up to case, and a
    quantity that is the ['#'] marker or a whole number greater than zero. *)
Theorem batch_prize_is_well_formed
    (int_of_str : string -> option Z) (ps : list Prize.t) (next_id : Z)
    (line : string) (prize : Prize.t) :
  prize_of_line int_of_str ps next_id line = Added prize ->
  Prize.id prize = next_id /\
  1 <= Prize.top_winners prize /\
  (Prize.is_special prize = false -> Prize.top_winners prize = 1) /\
  prize_name_exists (Prize.name prize) ps = false /\
  (Prize.quantity prize = PyStr "#" \/
   exists v, 0 < v /\ Prize.quantity prize = PyFloat (inject_Z v)).
Proof. apply batch_prize_is_well_formed_aux. Qed.

(** The line ["Gold: 5 : S : 2"]. *)
Lemma batch_prize_is_well_formed_witness :
  1 <= Prize.top_winners (Prize.mk 1 "Gold" (PyFloat (inject_Z 5)) true 2) /\
  (Prize.quantity (Prize.mk 1 "Gold" (PyFloat (inject_Z 5)) true 2) = PyStr "#" \/
   exists v, 0 < v /\
             Prize.quantity (Prize.mk 1 "Gold" (PyFloat (inject_Z 5)) true 2)
             = PyFloat (inject_Z v)).
Proof.
  destruct (batch_prize_is_well_formed example_int [] 1 "Gold: 5 : S : 2"
              (Prize.mk 1 "Gold" (PyFloat (inject_Z 5)) true 2) eq_refl)
    as (_ & H1 & _ & _ & H2).
  split; assumption.
Defined.

(** X21.  For a prize that the batch input of [add_prizes] created with a
    number as its quantity, integer mode allocates integers that add up to
    [round(prize.quantity)], whenever the recipients have a positive total
    weight, the active weights are numbers that are not negative, and
    neither the quantity nor a weight exceeds [2 ** 53]; for a special one
    the result has at most [top_winners] entries. *)
Theorem batch_prize_total_is_rounded_quantity
    (int_of_str : string -> option Z) (ps : list Prize.t) (next_id : Z)
    (line : string) (prize : Prize.t) (st : App) (q t : Q) :
  prize_of_line int_of_str ps next_id line = Added prize ->
  Prize.quantity prize = PyFloat q ->
  integer_only st = true ->
  shareable prize st t ->
  float_sized prize st ->
  exists rows,
    fst (calculate_distribution prize st) = Ok rows /\
    sums_to rows (py_round q) /\
    (Prize.is_special prize = true ->
     Z.of_nat (List.length rows) <= Prize.top_winners prize).
Proof.
  intros Hline Hq Hi Hs Hf.
  assert (Hc := float_sized_converts _ _ _ Hf Hq).
  destruct (batch_prize_is_well_formed_aux int_of_str ps next_id line prize Hline)
    as (_ & Hn & _ & _ & Hv).
  destruct Hv as [ Hv | (v & Hpos & Hv) ]; [ congruence | ].
  rewrite Hq in Hv. injection Hv as ->.
  rewrite (integer_mode_run prize st _ t Hi Hq Hc Hs). simpl fst.
  eexists. split; [ reflexivity | ]. split.
  - rewrite py_round_whole. apply integer_rows_sum.
    + eapply shareable_recipients, Hs.
    + rewrite Qtruncate_whole. lia.
  - intro Hsp. rewrite integer_rows_length.
    unfold recipients, top_participants. rewrite Hsp.
    rewrite py_slice_to_nonneg by lia.
    assert (H := firstn_le_length (Z.to_nat (Prize.top_winners prize))
                   (py_sorted Participant.id Z.ltb
                      (active_participants (participants st)))).
    lia.
Qed.

(** ** Integer mode: every share stays within 1 of the exact share *)

Lemma py_round_near (x : Q) :
  (-(1 # 2) <= inject_Z (py_round x) - x)%Q /\
  (inject_Z (py_round x) - x <= 1 # 2)%Q.
Proof.
  assert (H1 := Qfloor_le x). assert (H2 := Qlt_floor x).
  rewrite inject_Z_plus in H2. change (inject_Z 1) with 1%Q in H2.
  unfold py_round.
  destruct (x - inject_Z (Qfloor x) ?= 1 # 2)%Q eqn:E.
  - apply Qeq_alt in E.
    destruct (Z.even (Qfloor x));
      [ | rewrite inject_Z_plus; change (inject_Z 1) with 1%Q ]; split; lra.
  - apply Qlt_alt in E. split; lra.
  - apply Qgt_alt in E. rewrite inject_Z_plus. change (inject_Z 1) with 1%Q.
    split; lra.
Qed.

Lemma Qtruncate_bounds (q : Q) :
  (0 <= q)%Q ->
  (inject_Z (Qtruncate q) <= q)%Q /\ (q - 1 < inject_Z (Qtruncate q))%Q.
Proof.
  intro Hq.
  assert (E : Qtruncate q = Qfloor q).
  { unfold Qtruncate. destruct q as [ n d ]. simpl.
    apply Z.quot_div_nonneg; [ | lia ].
    unfold Qle in Hq. simpl in Hq. lia. }
  rewrite E. assert (H1 := Qfloor_le q). assert (H2 := Qlt_floor q).
  rewrite inject_Z_plus in H2. change (inject_Z 1) with 1%Q in H2. split; lra.
Qed.

Lemma add_at_Forall (P : share -> Prop) (k : nat) (d : Z) (shares : list share)
    (s : share) :
  nth_error shares k = Some s ->
  P (mkShare (sh_participant s) (sh_qty s + d) (sh_exact s)) ->
  Forall P shares -> Forall P (add_at k d shares).
Proof.
  revert k. induction shares as [ | x rest IH ]; intros [ | k ] H Hd Hall;
    simpl in *; try discriminate; inversion Hall; subst; constructor; auto.
  injection H as ->. exact Hd.
Qed.

Lemma excess_total (shares : list share) :
  (fold_right (fun s acc => excess s + acc) 0 shares
   == inject_Z (total_assigned shares) - exact_sum shares)%Q.
Proof.
  induction shares as [ | s rest IH ].
  - unfold exact_sum, total_assigned. simpl. change (inject_Z 0) with 0%Q. lra.
  - rewrite total_assigned_cons, inject_Z_plus. unfold exact_sum in *.
    cbn [fold_right map]. rewrite IH. unfold excess. lra.
Qed.

Lemma some_excess_positive (shares : list share) :
  (0 < fold_right (fun s acc => excess s + acc) 0 shares)%Q ->
  exists s, In s shares /\ (0 < excess s)%Q.
Proof.
  induction shares as [ | s rest IH ]; simpl; intro H.
  - lra.
  - destruct (Qlt_le_dec 0 (excess s)) as [ Hs | Hs ].
    + exists s. split; [ now left | exact Hs ].
    + destruct IH as (s' & Hin & Hs'); [ lra | ].
      exists s'. split; [ now right | exact Hs' ].
Qed.

Lemma some_excess_negative (shares : list share) :
  (fold_right (fun s acc => excess s + acc) 0 shares < 0)%Q ->
  exists s, In s shares /\ (excess s < 0)%Q.
Proof.
  induction shares as [ | s rest IH ]; simpl; intro H.
  - lra.
  - destruct (Qlt_le_dec (excess s) 0) as [ Hs | Hs ].
    + exists s. split; [ now left | exact Hs ].
    + destruct IH as (s' & Hin & Hs'); [ lra | ].
      exists s'. split; [ now right | exact Hs' ].
Qed.

Lemma loss_excess (s : share) : (loss s == Qabs (excess s - 1))%Q.
Proof.
  unfold loss, excess. apply Qabs_wd.
  unfold Z.sub. rewrite inject_Z_plus.
  change (inject_Z (Z.opp 1)) with (-(1))%Q. lra.
Qed.

Lemma gain_excess (s : share) : (gain s == Qabs (excess s + 1))%Q.
Proof.
  unfold gain, excess. apply Qabs_wd. rewrite inject_Z_plus.
  change (inject_Z 1) with 1%Q. lra.
Qed.

Lemma excess_add (s : share) (d : Z) :
  (excess (mkShare (sh_participant s) (sh_qty s + d) (sh_exact s))
   == excess s + inject_Z d)%Q.
Proof. unfold excess. simpl. rewrite inject_Z_plus. lra. Qed.

Lemma positive_excess_can_decrement (s : share) :
  (0 <= sh_exact s)%Q -> (0 < excess s)%Q -> can_decrement s = true.
Proof.
  unfold excess, can_decrement. intros He Hx. apply Z.ltb_lt.
  assert (H : (inject_Z 0 < inject_Z (sh_qty s))%Q)
    by (change (inject_Z 0) with 0%Q; lra).
  now rewrite <- Zlt_Qlt in H.
Qed.

Lemma decrement_once_within (shares : list share) (T : Z) (q : Q) :
  Forall (fun s => 0 <= sh_exact s)%Q shares ->
  Forall within_after_decrements shares ->
  (exact_sum shares == q)%Q -> (q - 1 < inject_Z T)%Q ->
  T + 1 <= total_assigned shares ->
  Forall within_after_decrements (decrement_once shares).
Proof.
  intros Hnn Hinv Hsum HT Hover.
  destruct (some_excess_positive shares) as (s0 & Hin0 & Hpos0).
  { rewrite excess_total, Hsum.
    assert (H : (inject_Z (T + 1) <= inject_Z (total_assigned shares))%Q)
      by now rewrite <- Zle_Qle.
    rewrite inject_Z_plus in H. change (inject_Z 1) with 1%Q in H. lra. }
  rewrite Forall_forall in Hnn, Hinv.
  assert (Hc0 := positive_excess_can_decrement s0 (Hnn s0 Hin0) Hpos0).
  destruct (decrement_once_spec shares)
    as [ [ _ Hall ] | (k & s & (Hn & Hc & Hmin) & ->) ].
  - specialize (Hall s0 Hin0). unfold can_decrement in Hc0.
    apply Z.ltb_lt in Hc0. lia.
  - destruct (In_nth_error _ _ Hin0) as (k0 & Hk0).
    destruct (Hmin k0 s0 Hk0 Hc0) as [ Hle _ ].
    assert (Hs := Hinv s (nth_error_In _ _ Hn)).
    assert (Hs0 := Hinv s0 Hin0).
    destruct Hs as [ Hs1 Hs2 ]. destruct Hs0 as [ Hs01 Hs02 ].
    rewrite !loss_excess in Hle.
    assert (Hl0 : (Qabs (excess s0 - 1) < 1)%Q).
    { apply Qabs_Qlt_condition. split; lra. }
    assert (Hl : (Qabs (excess s - 1) < 1)%Q).
    { eapply Qle_lt_trans; [ exact Hle | exact Hl0 ]. }
    apply Qabs_Qlt_condition in Hl. destruct Hl as [ Hl1 Hl2 ].
    apply (add_at_Forall _ _ _ _ _ Hn); [ | now apply Forall_forall ].
    unfold within_after_decrements. rewrite excess_add.
    change (inject_Z (-1)) with (-(1))%Q. split; lra.
Qed.

Lemma increment_once_within (shares : list share) (T : Z) (q : Q) :
  Forall within_after_increments shares ->
  (exact_sum shares == q)%Q -> (inject_Z T <= q)%Q ->
  total_assigned shares + 1 <= T ->
  Forall within_after_increments (increment_once shares).
Proof.
  intros Hinv Hsum HT Hunder.
  destruct (some_excess_negative shares) as (s0 & Hin0 & Hneg0).
  { rewrite excess_total, Hsum.
    assert (H : (inject_Z (total_assigned shares + 1) <= inject_Z T)%Q)
      by now rewrite <- Zle_Qle.
    rewrite inject_Z_plus in H. change (inject_Z 1) with 1%Q in H. lra. }
  rewrite Forall_forall in Hinv.
  destruct (increment_once_spec shares) as (k & s & (Hn & _ & Hmin) & ->).
  { intro E. rewrite E in Hin0. destruct Hin0. }
  destruct (In_nth_error _ _ Hin0) as (k0 & Hk0).
  destruct (Hmin k0 s0 Hk0 eq_refl) as [ Hle _ ].
  assert (Hs := Hinv s (nth_error_In _ _ Hn)).
  assert (Hs0 := Hinv s0 Hin0).
  destruct Hs as [ Hs1 Hs2 ]. destruct Hs0 as [ Hs01 Hs02 ].
  rewrite !gain_excess in Hle.
  assert (Hl0 : (Qabs (excess s0 + 1) < 1)%Q).
  { apply Qabs_Qlt_condition. split; lra. }
  assert (Hl : (Qabs (excess s + 1) < 1)%Q).
  { eapply Qle_lt_trans; [ exact Hle | exact Hl0 ]. }
  apply Qabs_Qlt_condition in Hl. destruct Hl as [ Hl1 Hl2 ].
  apply (add_at_Forall _ _ _ _ _ Hn); [ | now apply Forall_forall ].
  unfold within_after_increments. rewrite excess_add.
  change (inject_Z 1) with 1%Q. split; lra.
Qed.

Lemma corrections_keep_exact (shares : list share) :
  kept_by_corrections (fun l => map sh_exact l = map sh_exact shares).
Proof. intros k d l s _ _ H. now rewrite add_at_exact. Qed.

Lemma decrement_iter_exact (n : nat) (shares : list share) :
  map sh_exact (Nat.iter n decrement_once shares) = map sh_exact shares.
Proof.
  apply (iter_keeps (fun l => map sh_exact l = map sh_exact shares));
    [ | reflexivity ].
  intros y Hy. apply decrement_once_keeps; [ apply corrections_keep_exact | exact Hy ].
Qed.

Lemma increment_iter_exact (n : nat) (shares : list share) :
  map sh_exact (Nat.iter n increment_once shares) = map sh_exact shares.
Proof.
  apply (iter_keeps (fun l => map sh_exact l = map sh_exact shares));
    [ | reflexivity ].
  intros y Hy. apply increment_once_keeps; [ apply corrections_keep_exact | exact Hy ].
Qed.

Lemma exact_nonneg_map (shares shares' : list share) :
  map sh_exact shares' = map sh_exact shares ->
  Forall (fun s => 0 <= sh_exact s)%Q shares ->
  Forall (fun s => 0 <= sh_exact s)%Q shares'.
Proof.
  intros E H.
  apply (Forall_map sh_exact (fun e => 0 <= e)%Q) in H.
  apply (Forall_map sh_exact (fun e => 0 <= e)%Q). now rewrite E.
Qed.

Lemma decrement_iter_within (n : nat) (shares : list share) (T : Z) (q : Q) :
  0 <= T ->
  Forall (fun s => 0 <= sh_exact s)%Q shares ->
  Forall within_after_decrements shares ->
  (exact_sum shares == q)%Q -> (q - 1 < inject_Z T)%Q ->
  T + Z.of_nat n <= total_assigned shares ->
  Forall within_after_decrements (Nat.iter n decrement_once shares).
Proof.
  intros HT0 Hnn Hinv Hsum HT.
  induction n as [ | n IH ]; intro Hover; simpl Nat.iter.
  - exact Hinv.
  - assert (Htot : total_assigned (Nat.iter n decrement_once shares)
                   = total_assigned shares - Z.of_nat n)
      by (apply decrement_iter_total; lia).
    assert (Hex := decrement_iter_exact n shares).
    apply (decrement_once_within _ T q).
    + eapply exact_nonneg_map; eassumption.
    + apply IH. lia.
    + unfold exact_sum in *. now rewrite Hex.
    + exact HT.
    + lia.
Qed.

Lemma increment_iter_within (n : nat) (shares : list share) (T : Z) (q : Q) :
  shares <> [] ->
  Forall within_after_increments shares ->
  (exact_sum shares == q)%Q -> (inject_Z T <= q)%Q ->
  total_assigned shares + Z.of_nat n <= T ->
  Forall within_after_increments (Nat.iter n increment_once shares).
Proof.
  intros Hne Hinv Hsum HT.
  induction n as [ | n IH ]; intro Hunder; simpl Nat.iter.
  - exact Hinv.
  - assert (Htot : total_assigned (Nat.iter n increment_once shares)
                   = total_assigned shares + Z.of_nat n)
      by now apply increment_iter_total.
    assert (Hex := increment_iter_exact n shares).
    apply (increment_once_within _ T q).
    + apply IH. lia.
    + unfold exact_sum in *. now rewrite Hex.
    + exact HT.
    + lia.
Qed.

(** The share is less than 1 away from its exact share. *)
Lemma correct_total_within (shares : list share) (q : Q) :
  (0 <= q)%Q -> shares <> [] ->
  Forall (fun s => 0 <= sh_exact s)%Q shares ->
  Forall (fun s => sh_qty s = py_round (sh_exact s)) shares ->
  (exact_sum shares == q)%Q ->
  Forall (fun s => -(1) < excess s /\ excess s < 1)%Q
    (correct_total (total_assigned shares - Qtruncate q) shares).
Proof.
  intros Hq Hne Hnn Hround Hsum.
  destruct (Qtruncate_bounds q Hq) as [ HT1 HT2 ].
  assert (HT0 := Qtruncate_nonneg q Hq).
  assert (Hnear : Forall (fun s => -(1 # 2) <= excess s /\ excess s <= 1 # 2)%Q
                    shares).
  { eapply Forall_impl; [ | exact Hround ]. intros s Hs. unfold excess.
    rewrite Hs. apply py_round_near. }
  unfold correct_total.
  destruct (total_assigned shares - Qtruncate q =? 0) eqn:E0.
  - eapply Forall_impl; [ | exact Hnear ]. intros s [ H1 H2 ]. split; lra.
  - destruct (0 <? total_assigned shares - Qtruncate q) eqn:E1.
    + apply Z.ltb_lt in E1.
      eapply Forall_impl;
        [ | apply (decrement_iter_within _ shares (Qtruncate q) q);
            try assumption ].
      * intros s [ H1 H2 ]. split; lra.
      * eapply Forall_impl; [ | exact Hnear ].
        intros s [ H1 H2 ]. split; lra.
      * lia.
    + apply Z.ltb_ge in E1. apply Z.eqb_neq in E0.
      eapply Forall_impl;
        [ | apply (increment_iter_within _ shares (Qtruncate q) q);
            try assumption ].
      * intros s [ H1 H2 ]. split; lra.
      * eapply Forall_impl; [ | exact Hnear ].
        intros s [ H1 H2 ]. split; lra.
      * lia.
Qed.

Lemma correct_total_static (P : share -> Prop) (diff : Z) (shares : list share) :
  (forall s z, P s -> P (mkShare (sh_participant s) z (sh_exact s))) ->
  Forall P shares -> Forall P (correct_total diff shares).
Proof.
  intro HP. apply correct_total_keeps.
  intros k d l s Hn _ Hall. apply (add_at_Forall _ _ _ _ _ Hn); [ | exact Hall ].
  apply HP. rewrite Forall_forall in Hall. apply Hall.
  eapply nth_error_In; eassumption.
Qed.

Lemma exact_of_total (l : list Participant.t) (total quantity : Q) :
  ~ (total == 0)%Q ->
  (fold_right Qplus 0 (map (exact_of quantity total) l)
   == quantity * weight_total l / total)%Q.
Proof.
  intro Ht. induction l as [ | p l IH ]; simpl.
  - field. exact Ht.
  - rewrite IH. unfold exact_of. field. exact Ht.
Qed.

Lemma rounded_shares_exact (ps : list Participant.t) (total quantity : Q) :
  map sh_exact (rounded_shares ps total quantity)
  = map (exact_of quantity total)
        (py_sorted damage_key (fun a b => Qltb b a) ps).
Proof.
  unfold rounded_shares, round_shares. rewrite !map_map. reflexivity.
Qed.

Lemma integer_rows_within (ps : list Participant.t) (t q : Q) :
  (0 <= q)%Q -> (0 < t)%Q -> ps <> [] ->
  Forall weight_ok ps -> (weight_total ps == t)%Q ->
  forall r, In r (integer_rows ps t q) ->
    exists p z,
      In p ps /\ row_of p r /\ row_qty r = Int z /\
      (q * damage_key p / t - 1 < inject_Z z)%Q /\
      (inject_Z z < q * damage_key p / t + 1)%Q.
Proof.
  intros Hq Ht Hne Hw Hwt r Hr.
  unfold integer_rows in Hr. apply py_sorted_In in Hr.
  apply in_map_iff in Hr. destruct Hr as (s & <- & Hin).
  set (sh := rounded_shares ps t q) in *.
  assert (Hstatic : Forall (fun s => In (sh_participant s) ps /\
                                     sh_exact s
                                     = exact_of q t (sh_participant s))
                      (correct_total (total_assigned sh - Qtruncate q) sh)).
  { apply correct_total_static; [ intros s0 z H; exact H | ].
    apply Forall_forall. intros s0 Hs0. unfold sh, rounded_shares, round_shares in Hs0.
    rewrite map_map in Hs0. apply in_map_iff in Hs0.
    destruct Hs0 as (p & <- & Hp). simpl.
    split; [ now apply py_sorted_In in Hp | reflexivity ]. }
  assert (Hwithin : Forall (fun s => -(1) < excess s /\ excess s < 1)%Q
                      (correct_total (total_assigned sh - Qtruncate q) sh)).
  { apply correct_total_within.
    - exact Hq.
    - intro E. apply (f_equal (@List.length share)) in E. unfold sh in E.
      rewrite rounded_shares_length in E. destruct ps; [ congruence | discriminate ].
    - apply (Forall_map sh_exact (fun e => 0 <= e)%Q). unfold sh.
      rewrite rounded_shares_exact. apply Forall_map, Forall_forall.
      intros p Hp. apply exact_of_nonneg; try assumption.
      rewrite Forall_forall in Hw. apply Hw. now apply py_sorted_In in Hp.
    - apply Forall_forall. intros s0 Hs0. unfold sh, rounded_shares, round_shares in Hs0.
      rewrite map_map in Hs0. apply in_map_iff in Hs0.
      destruct Hs0 as (p & <- & Hp). reflexivity.
    - unfold exact_sum, sh. rewrite rounded_shares_exact, exact_of_total by lra.
      rewrite (weight_total_perm _ _ (py_sorted_perm damage_key _ ps)), Hwt.
      field. lra. }
  rewrite Forall_forall in Hstatic, Hwithin.
  destruct (Hstatic s Hin) as [ Hp He ]. destruct (Hwithin s Hin) as [ H1 H2 ].
  exists (sh_participant s), (sh_qty s). repeat split; try assumption.
  - unfold excess in H1. rewrite He in H1. unfold exact_of in H1.
    assert (E : (q * damage_key (sh_participant s) / t
                 == q * (damage_key (sh_participant s) / t))%Q) by (field; lra).
    lra.
  - unfold excess in H2. rewrite He in H2. unfold exact_of in H2.
    assert (E : (q * damage_key (sh_participant s) / t
                 == q * (damage_key (sh_participant s) / t))%Q) by (field; lra).
    lra.
Qed.

(** X22.  In integer mode, on whole numbers of moderate size and
    recipients of positive total weight, every allocated integer is less
    than 1 away from the exact share [quantity * weight / total_weight] of
    its participant: it is the exact share rounded down or rounded up. *)
Theorem integer_mode_within_one_of_exact_share
    (prize : Prize.t) (st : App) (q t : Q) :
  integer_only st = true ->
  Prize.quantity prize = PyFloat q ->
  shareable prize st t ->
  small_whole (recipients prize (participants st)) t q ->
  exists rows,
    fst (calculate_distribution prize st) = Ok rows /\
    forall r, In r rows ->
      exists p z,
        In p (recipients prize (participants st)) /\ row_of p r /\
        row_qty r = Int z /\
        (q * damage_key p / t - 1 < inject_Z z)%Q /\
        (inject_Z z < q * damage_key p / t + 1)%Q.
Proof.
  intros Hi Hq Hs Hsm.
  assert (Hc := small_whole_converts _ _ _ Hsm).
  assert (Hq0 : (0 <= q)%Q) by apply Hsm.
  rewrite (integer_mode_run prize st q t Hi Hq Hc Hs). simpl fst.
  eexists. split; [ reflexivity | ].
  assert (Hne := shareable_recipients _ _ _ Hs).
  destruct Hs as (Hw & Ht & Hpos).
  apply integer_rows_within; try assumption.
  - now apply recipients_weight_ok.
  - apply py_sum_from_value in Ht. lra.
Qed.

(** A prize of 10 among three participants of weight 1. *)
Lemma integer_mode_within_one_of_exact_share_witness :
  exists rows,
    fst (calculate_distribution (example_prize 10 false 1)
           (example_app true three_equal)) = Ok rows /\
    forall r, In r rows ->
      exists p z,
        In p (recipients (example_prize 10 false 1) three_equal) /\
        row_of p r /\ row_qty r = Int z /\
        (10 * damage_key p / 3 - 1 < inject_Z z)%Q /\
        (inject_Z z < 10 * damage_key p / 3 + 1)%Q.
Proof.
  apply (integer_mode_within_one_of_exact_share
           (example_prize 10 false 1) (example_app true three_equal) 10 3);
    [ reflexivity | reflexivity | shareable_at | small_whole_at ].
Defined.

(** X23.  In integer mode, under the same hypotheses and with distinct
    ids, a recipient of weight zero is allocated 0: the corrections never
    hand a unit to a participant whose exact share is zero. *)
Theorem integer_mode_zero_weight_gets_zero
    (prize : Prize.t) (st : App) (q t : Q) :
  integer_only st = true ->
  Prize.quantity prize = PyFloat q ->
  shareable prize st t ->
  small_whole (recipients prize (participants st)) t q ->
  NoDup (map Participant.id (participants st)) ->
  exists rows,
    fst (calculate_distribution prize st) = Ok rows /\
    forall r p, In r rows -> In p (recipients prize (participants st)) ->
                row_id r = Participant.id p -> (damage_key p == 0)%Q ->
                row_qty r = Int 0.
Proof.
  intros Hi Hq Hs Hsm Hnd.
  assert (Hc := small_whole_converts _ _ _ Hsm).
  assert (Hq0 : (0 <= q)%Q) by apply Hsm.
  rewrite (integer_mode_run prize st q t Hi Hq Hc Hs). simpl fst.
  eexists. split; [ reflexivity | ].
  assert (Hne := shareable_recipients _ _ _ Hs).
  destruct Hs as (Hw & Ht & Hpos).
  intros r p Hr Hp Hid Hz.
  destruct (integer_rows_within (recipients prize (participants st)) t q
              Hq0 Hpos Hne (recipients_weight_ok _ _ Hw)) with (r := r)
    as (p' & z & Hp' & (Hid' & _) & Hrow & H1 & H2); [ | exact Hr | ].
  { apply py_sum_from_value in Ht. lra. }
  assert (Epp : p' = p).
  { apply recipients_In in Hp, Hp'. unfold active_participants in Hp, Hp'.
    apply filter_In in Hp, Hp'. destruct Hp as [ Hp _ ]. destruct Hp' as [ Hp' _ ].
    revert Hnd Hp Hp'. rewrite Hid in Hid'. clear - Hid'.
    induction (participants st) as [ | x l IH ]; intros Hnd Hp Hp';
      [ destruct Hp | ].
    inversion Hnd as [ | ? ? Hx Hnd' ]; subst.
    destruct Hp as [ -> | Hp ]; destruct Hp' as [ -> | Hp' ].
    - reflexivity.
    - exfalso. apply Hx. rewrite Hid'. now apply in_map.
    - exfalso. apply Hx. rewrite <- Hid'. now apply in_map.
    - now apply IH. }
  subst p'. rewrite Hrow. f_equal.
  assert (E : (q * damage_key p / t == 0)%Q) by (rewrite Hz; field; lra).
  rewrite E in H1, H2.
  assert (H1' : (inject_Z (-1) < inject_Z z)%Q)
    by (change (inject_Z (-1)) with (-(1))%Q; lra).
  assert (H2' : (inject_Z z < inject_Z 1)%Q)
    by (change (inject_Z 1) with 1%Q; lra).
  rewrite <- Zlt_Qlt in H1', H2'. lia.
Qed.

(** A of weight 0 with B and C of weight 1, a prize of 3. *)
Lemma integer_mode_zero_weight_gets_zero_witness :
  exists rows,
    fst (calculate_distribution (example_prize 3 false 1)
           (example_app true
              [example_participant 1 "A" 0; example_participant 2 "B" 1;
               example_participant 3 "C" 1])) = Ok rows /\
    forall r p, In r rows ->
                In p (recipients (example_prize 3 false 1)
                        [example_participant 1 "A" 0; example_participant 2 "B" 1;
                         example_participant 3 "C" 1]) ->
                row_id r = Participant.id p -> (damage_key p == 0)%Q ->
                row_qty r = Int 0.
Proof.
  apply (integer_mode_zero_weight_gets_zero
           (example_prize 3 false 1)
           (example_app true
              [example_participant 1 "A" 0; example_participant 2 "B" 1;
               example_participant 3 "C" 1]) 3 2);
    [ reflexivity | reflexivity | shareable_at | small_whole_at | ].
  simpl. repeat constructor; simpl; intuition discriminate.
Defined.

(** The line ["Gold: 5"] and three participants of weight 1. *)
Lemma batch_prize_total_is_rounded_quantity_witness :
  exists rows,
    fst (calculate_distribution (Prize.mk 1 "Gold" (PyFloat (inject_Z 5)) false 1)
           (example_app true three_equal)) = Ok rows /\
    sums_to rows (py_round (inject_Z 5)).
Proof.
  destruct (batch_prize_total_is_rounded_quantity example_int [] 1 "Gold: 5"
              (Prize.mk 1 "Gold" (PyFloat (inject_Z 5)) false 1)
              (example_app true three_equal) (inject_Z 5) 3
              eq_refl eq_refl eq_refl) as (rows & Hr & Hs & _).
  - shareable_at.
  - float_sized_at.
  - exists rows. split; assumption.
Defined.

(** ** The entries of the recomputation of [update_current_state] *)

Lemma dict_set_keys {V} (k : Z) (v : V) (d : dict V) (k' : Z) :
  In k' (keys (dict_set k v d)) <-> k' = k \/ In k' (keys d).
Proof.
  unfold keys. induction d as [ | [ k0 v0 ] d IH ]; simpl.
  - intuition.
  - destruct (k0 =? k) eqn:E; simpl.
    + apply Z.eqb_eq in E. subst. intuition.
    + rewrite IH. intuition.
Qed.

Lemma dict_set_NoDup {V} (k : Z) (v : V) (d : dict V) :
  NoDup (keys d) -> NoDup (keys (dict_set k v d)).
Proof.
  unfold keys. induction d as [ | [ k0 v0 ] d IH ]; simpl; intro H.
  - constructor; [ intros [] | constructor ].
  - inversion H as [ | ? ? Hnot Hd ]; subst.
    destruct (k0 =? k) eqn:E; simpl.
    + apply Z.eqb_eq in E. subst. now constructor.
    + apply Z.eqb_neq in E. constructor; [ | now apply IH ].
      intro Hin. apply (dict_set_keys k v d k0) in Hin.
      destruct Hin as [ -> | Hin ]; [ now elim E | now elim Hnot ].
Qed.

Lemma update_state_distribution_guard (integer : bool) (prize : Prize.t)
    (active : list Participant.t) (total : Q)
    (o : option (list (string * number))) :
  update_state_distribution integer prize active total = Ok o ->
  (negb (is_nil active) && Qltb 0 total = true <-> o <> None).
Proof.
  unfold update_state_distribution.
  destruct (negb (is_nil active) && Qltb 0 total).
  - intro H. split; [ intros _ | reflexivity ].
    destruct (Prize.is_special prize).
    + destruct (sorted_by_damage_desc active); simpl in H; [ | discriminate ].
      destruct (py_sum _); simpl in H; [ | discriminate ].
      destruct (update_state_shares _ _ _ _); simpl in H; [ | discriminate ].
      injection H as <-. discriminate.
    + destruct (update_state_shares _ _ _ _); simpl in H; [ | discriminate ].
      injection H as <-. discriminate.
  - intro H. injection H as <-. split; [ discriminate | intro H; now elim H ].
Qed.

Lemma update_state_loop_keys (integer : bool) (ps : list Prize.t)
    (active : list Participant.t) (total : Q) :
  forall all d,
    update_state_loop integer ps active total all = Ok d ->
    (NoDup (keys all) -> NoDup (keys d)) /\
    (forall k, In k (keys d) -> In k (keys all) \/ In k (map Prize.id ps)) /\
    (negb (is_nil active) && Qltb 0 total = false -> d = all) /\
    (negb (is_nil active) && Qltb 0 total = true ->
     forall k, In k (keys all) \/ In k (map Prize.id ps) -> In k (keys d)).
Proof.
  induction ps as [ | prize rest IH ]; intros all d H; simpl in H.
  - injection H as <-. repeat split; try tauto.
    intros _ k [ Hk | [] ]. exact Hk.
  - destruct (update_state_distribution integer prize active total)
      as [ o | ] eqn:E; simpl in H; [ | discriminate ].
    apply update_state_distribution_guard in E.
    destruct (IH _ _ H) as (Hnd & Hsub & Hoff & Hon).
    destruct o as [ dist | ].
    + assert (Hg : negb (is_nil active) && Qltb 0 total = true)
        by (apply E; discriminate).
      repeat split.
      * intro Hall. apply Hnd. now apply dict_set_NoDup.
      * intros k Hk. destruct (Hsub k Hk) as [ Hin | Hin ].
        -- apply dict_set_keys in Hin. destruct Hin as [ -> | Hin ].
           ++ right. now left.
           ++ now left.
        -- right. now right.
      * rewrite Hg. discriminate.
      * intros _ k Hk. apply (Hon Hg).
        destruct Hk as [ Hk | [ <- | Hk ] ].
        -- left. apply dict_set_keys. now right.
        -- left. apply dict_set_keys. now left.
        -- now right.
    + assert (Hg : negb (is_nil active) && Qltb 0 total = false).
      { destruct (negb (is_nil active) && Qltb 0 total); [ | reflexivity ].
        destruct E as [ E _ ]. now elim (E eq_refl). }
      repeat split.
      * exact Hnd.
      * intros k Hk. destruct (Hsub k Hk) as [ Hin | Hin ];
          [ now left | right; now right ].
      * exact Hoff.
      * rewrite Hg. discriminate.
Qed.

Lemma update_state_distributions_keys (st : App)
    (existing_participants : list Participant.t)
    (existing_distributions d : dict (list (string * number))) :
  prizes st <> [] ->
  update_state_distributions st existing_participants existing_distributions
  = Ok d ->
  NoDup (keys d) /\
  (d = [] \/ forall k, In k (keys d) <-> In k (map Prize.id (prizes st))).
Proof.
  intros Hne H. unfold update_state_distributions in H.
  destruct (is_nil (prizes st)) eqn:En.
  { destruct (prizes st); [ congruence | discriminate ]. }
  destruct (py_sum _) as [ total | ]; unfold rbind in H; [ | discriminate ].
  apply update_state_loop_keys in H. destruct H as (Hnd & Hsub & Hoff & Hon).
  split; [ apply Hnd; constructor | ].
  match type of Hoff with ?g = false -> _ => destruct g end.
  - right. intro k. split.
    + intro Hk. destruct (Hsub k Hk) as [ [] | Hin ]. exact Hin.
    + intro Hk. apply (Hon eq_refl). now right.
  - left. now apply Hoff.
Qed.

(** X24.  The recomputation of [update_current_state], when there are
    prizes, writes the entries of all the prizes or of none: the keys of the
    dictionary it builds are distinct, and either the dictionary is empty
    (no active participant, or a total weight that is not positive) or its
    keys are exactly the ids of the prizes. *)
Theorem update_state_entries_follow_prizes (st : App)
    (existing_participants : list Participant.t)
    (existing_distributions d : dict (list (string * number))) :
  prizes st <> [] ->
  update_state_distributions st existing_participants existing_distributions
  = Ok d ->
  NoDup (keys d) /\
  (d = [] \/ forall k, In k (keys d) <-> In k (map Prize.id (prizes st))).
Proof.
  intros Hne H.
  exact (update_state_distributions_keys st existing_participants
           existing_distributions d Hne H).
Qed.

(** Two prizes shared among three participants of equal weight. *)
Lemma update_state_entries_follow_prizes_witness :
  exists d,
    update_state_distributions
      (mkApp three_equal
             [example_prize 6 false 1; Prize.mk 2 "Silver" (PyFloat 3) true 2]
             false [])
      [] [] = Ok d /\
    NoDup (keys d) /\
    (d = [] \/
     forall k, In k (keys d) <-> In k [1; 2]).
Proof.
  eexists. split; [ reflexivity | ].
  apply (update_state_entries_follow_prizes
           (mkApp three_equal
                  [example_prize 6 false 1;
                   Prize.mk 2 "Silver" (PyFloat 3) true 2]
                  false [])
           [] []); [ discriminate | reflexivity ].
Defined.

Lemma delete_prize_prizes (i : Z) (st : App) :
  prizes (snd (delete_prize true i st))
  = filter (fun p => negb (Prize.id p =? i)) (prizes st) /\
  participants (snd (delete_prize true i st)) = participants st /\
  integer_only (snd (delete_prize true i st)) = integer_only st.
Proof.
  unfold delete_prize, bind, get_prizes, set_prizes, log_message, ret, find_prize.
  destruct (find _ (prizes st)) as [ p | ] eqn:E; simpl.
  - now repeat split.
  - repeat split. symmetry. apply forallb_filter_id.
    apply forallb_forall. intros p Hp.
    apply (find_none _ _ E) in Hp. now rewrite Hp.
Qed.

(** X25.  After a confirmed [delete_prize], when a prize is left, the
    recomputation of [update_current_state] has no entry under the deleted
    id; when none is left, it keeps the distributions of the saved state as
    they are. *)
Theorem deleted_prize_has_no_entry (i : Z) (st : App)
    (existing_participants : list Participant.t)
    (existing_distributions d : dict (list (string * number))) :
  update_state_distributions (snd (delete_prize true i st))
    existing_participants existing_distributions = Ok d ->
  (prizes (snd (delete_prize true i st)) <> [] -> ~ In i (keys d)) /\
  (prizes (snd (delete_prize true i st)) = [] -> d = existing_distributions).
Proof.
  intro H. split.
  - intros Hne Hin.
    destruct (update_state_distributions_keys _ _ _ _ Hne H) as [ _ [ -> | Hk ] ];
      [ destruct Hin | ].
    apply Hk in Hin. destruct (delete_prize_prizes i st) as [ Hp _ ].
    rewrite Hp in Hin. apply in_map_iff in Hin.
    destruct Hin as (p & Hid & Hp'). apply filter_In in Hp'.
    destruct Hp' as [ _ Hb ]. apply negb_true_iff, Z.eqb_neq in Hb. contradiction.
  - intro He. unfold update_state_distributions in H. rewrite He in H.
    simpl in H. now injection H.
Qed.

(** The first of two prizes is deleted. *)
Lemma deleted_prize_has_no_entry_witness :
  exists d,
    update_state_distributions
      (snd (delete_prize true 1
              (mkApp three_equal
                     [example_prize 6 false 1;
                      Prize.mk 2 "Silver" (PyFloat 3) false 1] false [])))
      [] [] = Ok d /\
    ~ In 1 (keys d).
Proof.
  eexists. split; [ reflexivity | ].
  apply (deleted_prize_has_no_entry 1
           (mkApp three_equal
                  [example_prize 6 false 1;
                   Prize.mk 2 "Silver" (PyFloat 3) false 1] false [])
           [] []); [ reflexivity | discriminate ].
Defined.

(** ** The history filters *)

Lemma filter_filter_and {A} (f g : A -> bool) (l : list A) :
  filter f (filter g l) = filter (fun x => g x && f x) l.
Proof.
  induction l as [ | a l IH ]; simpl; [ reflexivity | ].
  destruct (g a); simpl; [ | exact IH ].
  destruct (f a); now rewrite IH.
Qed.

Lemma filter_event_filter (event : string) (f : SavedState.t -> bool)
    (l : list SavedState.t) :
  filter_event event (filter f l) = filter f (filter_event event l).
Proof.
  unfold filter_event. destruct (String.eqb event ""); [ reflexivity | ].
  rewrite !filter_filter_and. apply filter_ext. intro s. apply andb_comm.
Qed.

Lemma filter_event_In (event : string) (l : list SavedState.t)
    (s : SavedState.t) :
  In s (filter_event event l) ->
  In s l /\ (event <> ""%string -> SavedState.event s = event).
Proof.
  unfold filter_event. destruct (String.eqb event "") eqn:E.
  - apply String.eqb_eq in E. intro H. split; [ exact H | ]. intro Hn. now elim Hn.
  - intro H. apply filter_In in H. destruct H as [ H Hb ].
    split; [ exact H | ]. intros _. now apply String.eqb_eq.
Qed.

Lemma in_month_of_year_in_month (year month : Z) (s : SavedState.t) :
  in_month_of_year year month s = true -> in_month month s = true.
Proof.
  unfold in_month_of_year, in_month, spans_month, opt_eqb.
  destruct (DateRange.end_month (SavedState.date_range s)) as [ em | ];
    destruct (DateRange.end_year (SavedState.date_range s)) as [ ey | ];
    rewrite ?andb_false_r, ?orb_false_r;
    rewrite ?orb_true_iff, ?andb_true_iff, ?Z.eqb_eq, ?Z.ltb_lt, ?Z.leb_le;
    try lia; try tauto.
  all: intros [ [ H | H ] | H ]; try tauto; try discriminate.
  all: destruct H as [ [ H1 H2 ] H3 ]; try discriminate.
  all: destruct (Z.lt_trichotomy
                   (DateRange.start_month (SavedState.date_range s)) month)
         as [ Hlt | [ Heq | Hgt ] ]; [ | tauto | tauto ].
  all: left; right; lia.
Qed.

(** X26.  Selecting a year in the history filters only narrows the list:
    whatever [get_filtered_states] returns with a year selected is what it
    returns without the year, the month and the event being the same, with
    some states removed and the order kept. *)
Theorem year_filter_only_narrows (int_of_str : string -> option Z)
    (saved_states : list SavedState.t)
    (year month event : string) (l : list SavedState.t) :
  get_filtered_states int_of_str saved_states year month event = Ok l ->
  exists (l' : list SavedState.t) (keep : SavedState.t -> bool),
    get_filtered_states int_of_str saved_states "" month event = Ok l' /\
    l = filter keep l'.
Proof.
  unfold get_filtered_states.
  change (negb (String.eqb "" "")) with false. cbv iota.
  destruct (negb (String.eqb year "")).
  - destruct (int_of_text int_of_str year) as [ y | ]; simpl; [ | discriminate ].
    destruct (negb (String.eqb month "")).
    + destruct (int_of_text int_of_str month) as [ m | ]; simpl; [ | discriminate ].
      intro H. injection H as <-.
      exists (filter_event event (filter (in_month m) saved_states)),
             (fun s => in_year y s && in_month_of_year y m s).
      split; [ reflexivity | ].
      rewrite <- filter_event_filter. f_equal.
      rewrite !filter_filter_and. apply filter_ext. intro s.
      destruct (in_month_of_year y m s) eqn:E.
      * now rewrite (in_month_of_year_in_month _ _ _ E).
      * now rewrite andb_false_r, andb_false_r.
    + simpl. intro H. injection H as <-.
      exists (filter_event event saved_states), (in_year y).
      split; [ reflexivity | ]. apply filter_event_filter.
  - intro H. exists l, (fun _ => true). split; [ exact H | ].
    symmetry. apply forallb_filter_id. now apply forallb_forall.
Qed.

Lemma end_date_ok (r : DateRange.t) (e : date_t) :
  end_date r = Ok e ->
  exists day n,
    e = (or_else (DateRange.end_year r) (DateRange.start_year r),
         or_else (DateRange.end_month r) (DateRange.start_month r), day) /\
    monthrange_days (or_else (DateRange.end_year r) (DateRange.start_year r))
      (or_else (DateRange.end_month r) (DateRange.start_month r)) = Ok n /\
    1 <= day <= n.
Proof.
  unfold end_date. intro H.
  match type of H with
  | rbind ?c _ = _ => destruct c as [ day | ]; simpl in H; [ | discriminate ]
  end.
  apply date_ok in H. destruct H as [ -> (n & Hn & Hday) ].
  exists day, n. now repeat split.
Qed.

Lemma in_month_of_year_overlaps (year month : Z) (s : SavedState.t) :
  1 <= year <= 9999 -> 1 <= month <= 12 ->
  in_month_of_year year month s = true ->
  (exists d, covers (SavedState.date_range s) d) ->
  overlaps (month_of year month) (SavedState.date_range s) = Ok true.
Proof.
  intros Hy Hm Hin (d & S & E & HS & HE & H1 & H2).
  destruct (month_only_dates (month_of year month)) as (n & Hn & Hqs & Hqe);
    [ now repeat split | exact Hy | exact Hm | ].
  cbn [month_of DateRange.start_year DateRange.start_month] in Hqs, Hqe.
  assert (Hmr : monthrange_days year month = Ok n).
  { pose proof Hqe as Hq. unfold end_date, month_of in Hq.
    cbn [truthy or_else DateRange.end_day DateRange.end_year DateRange.end_month
         DateRange.start_year DateRange.start_month] in Hq.
    destruct (monthrange_days year month) as [ n0 | ]; [ | discriminate ].
    cbn [rbind] in Hq. apply date_ok in Hq. destruct Hq as [ Hq _ ].
    now injection Hq as ->. }
  unfold overlaps. rewrite Hqs, Hqe, HS, HE. simpl rbind. f_equal.
  apply negb_true_iff, orb_false_iff.
  pose proof HS as HS'. apply date_ok in HS'.
  destruct HS' as [ -> (n1 & Hn1 & Hd1) ].
  pose proof HE as HE'. apply end_date_ok in HE'.
  destruct HE' as (dE & n2 & -> & Hn2 & Hd2).
  set (r := SavedState.date_range s) in *.
  unfold in_month_of_year, spans_month, opt_eqb in Hin. fold r in Hin.
  apply orb_true_iff in Hin. destruct Hin as [ Hin | Hin ];
    [ apply orb_true_iff in Hin; destruct Hin as [ Hin | Hin ] | ].
  - apply andb_true_iff in Hin. destruct Hin as [ Ey Em ].
    apply Z.eqb_eq in Ey, Em. rewrite Ey, Em in *.
    rewrite Hmr in Hn1. injection Hn1 as <-.
    split; date_order.
  - apply andb_true_iff in Hin. destruct Hin as [ Ey Hsp ].
    apply Z.eqb_eq in Ey. rewrite Ey in *.
    destruct (DateRange.end_month r) as [ em | ] eqn:Eem; [ | discriminate ].
    apply andb_true_iff in Hsp. destruct Hsp as [ Hlt Hle ].
    apply Z.ltb_lt in Hlt. apply Z.leb_le in Hle.
    assert (Eo : or_else (Some em) (DateRange.start_month r) = em).
    { unfold or_else. destruct (em =? 0) eqn:E0; [ | reflexivity ].
      apply Z.eqb_eq in E0. lia. }
    rewrite Eo in *.
    split; date_order.
  - apply andb_true_iff in Hin. destruct Hin as [ Hin Eem ].
    apply andb_true_iff in Hin. destruct Hin as [ Ey Eey ].
    apply Z.eqb_eq in Ey.
    destruct (DateRange.end_year r) as [ ey | ]; [ | discriminate ].
    destruct (DateRange.end_month r) as [ em | ]; [ | discriminate ].
    apply Z.eqb_eq in Eey, Eem. subst ey em.
    assert (Eo1 : or_else (Some year) (DateRange.start_year r) = year).
    { unfold or_else. destruct (year =? 0) eqn:E0; [ | reflexivity ].
      apply Z.eqb_eq in E0. lia. }
    assert (Eo2 : or_else (Some month) (DateRange.start_month r) = month).
    { unfold or_else. destruct (month =? 0) eqn:E0; [ | reflexivity ].
      apply Z.eqb_eq in E0. lia. }
    rewrite Eo1, Eo2 in *.
    rewrite Hmr in Hn2. injection Hn2 as <-.
    split; date_order.
Qed.

(** X27.  With a year and a month selected, every state that
    [get_filtered_states] returns is one of the saved states, has the
    selected event when one is selected, and, when its range is well formed,
    overlaps the selected month in the sense of [DateRange.overlaps]. *)
Theorem filtered_states_overlap_selected_month
    (int_of_str : string -> option Z) (saved_states : list SavedState.t)
    (history_year history_month event : string) (year month : Z)
    (l : list SavedState.t) (s : SavedState.t) :
  history_year <> ""%string -> history_month <> ""%string ->
  int_of_str history_year = Some year ->
  int_of_str history_month = Some month ->
  1 <= year <= 9999 -> 1 <= month <= 12 ->
  get_filtered_states int_of_str saved_states history_year history_month event
  = Ok l ->
  In s l ->
  In s saved_states /\
  (event <> ""%string -> SavedState.event s = event) /\
  ((exists d, covers (SavedState.date_range s) d) ->
   overlaps (month_of year month) (SavedState.date_range s) = Ok true).
Proof.
  intros Hy Hm Ey Em Hyear Hmonth H Hin.
  unfold get_filtered_states, int_of_text in H.
  apply String.eqb_neq in Hy, Hm. rewrite Hy, Hm, Ey, Em in H.
  cbn [negb rbind] in H. injection H as <-.
  apply filter_event_In in Hin. destruct Hin as [ Hin Hev ].
  apply filter_In in Hin. destruct Hin as [ Hin Hmo ].
  apply filter_In in Hin. destruct Hin as [ Hin _ ].
  split; [ exact Hin | ]. split; [ exact Hev | ].
  now apply in_month_of_year_overlaps.
Qed.

(** Of a state from 20 February to 5 March 2024 and a state of March 2023,
    the filters for 2024 and March keep the first. *)
Lemma year_filter_only_narrows_witness :
  exists l' keep,
    get_filtered_states example_int_history
      [example_state "Raid"
         (DateRange.mk 2024 2 (Some 20) (Some 2024) (Some 3) (Some 5));
       example_state "Raid" (DateRange.mk 2023 3 None None None None)]
      "" "3" "" = Ok l' /\
    [example_state "Raid"
       (DateRange.mk 2024 2 (Some 20) (Some 2024) (Some 3) (Some 5))]
    = filter keep l'.
Proof.
  apply (year_filter_only_narrows example_int_history
           [example_state "Raid"
              (DateRange.mk 2024 2 (Some 20) (Some 2024) (Some 3) (Some 5));
            example_state "Raid" (DateRange.mk 2023 3 None None None None)]
           "2024" "3" "").
  reflexivity.
Defined.

Lemma filtered_states_overlap_selected_month_witness :
  overlaps (month_of 2024 3)
           (DateRange.mk 2024 2 (Some 20) (Some 2024) (Some 3) (Some 5))
  = Ok true.
Proof.
  destruct (filtered_states_overlap_selected_month example_int_history
              [example_state "Raid"
                 (DateRange.mk 2024 2 (Some 20) (Some 2024) (Some 3) (Some 5));
               example_state "Raid" (DateRange.mk 2023 3 None None None None)]
              "2024" "3" "" 2024 3
              [example_state "Raid"
                 (DateRange.mk 2024 2 (Some 20) (Some 2024) (Some 3) (Some 5))]
              (example_state "Raid"
                 (DateRange.mk 2024 2 (Some 20) (Some 2024) (Some 3) (Some 5))))
    as (_ & _ & H);
    [ discriminate | discriminate | reflexivity | reflexivity | lia | lia
    | reflexivity | now left | ].
  apply H. exists (2024, 3, 1). eexists _, _. repeat split.
Defined.

(** ** Integer mode: a larger weight never gets less *)

Lemma add_at_In (k : nat) (d : Z) (shares : list share) (s x : share) :
  nth_error shares k = Some s -> In x (add_at k d shares) ->
  x = mkShare (sh_participant s) (sh_qty s + d) (sh_exact s) \/ In x shares.
Proof.
  revert k. induction shares as [ | y rest IH ]; intros [ | k ] Hn Hx;
    simpl in *; try discriminate.
  - injection Hn as ->. destruct Hx as [ <- | Hx ]; [ now left | right; now right ].
  - destruct Hx as [ <- | Hx ]; [ right; now left | ].
    destruct (IH k Hn Hx) as [ E | Hin ]; [ now left | right; now right ].
Qed.

Lemma py_round_monotone (x y : Q) :
  (x < y)%Q -> py_round x <= py_round y.
Proof.
  intro H. destruct (py_round_near x) as [ _ Hx ].
  destruct (py_round_near y) as [ Hy _ ].
  assert (Hlt : (inject_Z (py_round x - 1) < inject_Z (py_round y))%Q).
  { unfold Z.sub. rewrite inject_Z_plus.
    change (inject_Z (Z.opp 1)) with (-(1))%Q. lra. }
  rewrite <- Zlt_Qlt in Hlt. lia.
Qed.

Lemma decrement_once_ordered (shares : list share) :
  Forall within_after_decrements shares ->
  ordered_shares shares -> ordered_shares (decrement_once shares).
Proof.
  intros Hinv Hord. rewrite Forall_forall in Hinv.
  destruct (decrement_once_spec shares)
    as [ [ -> _ ] | (k & s & (Hn & Hc & Hmin) & ->) ]; [ exact Hord | ].
  assert (Hs := nth_error_In _ _ Hn).
  intros a b Ha Hb Hlt.
  apply (add_at_In _ _ _ s) in Ha; [ | exact Hn ].
  apply (add_at_In _ _ _ s) in Hb; [ | exact Hn ].
  destruct Ha as [ -> | Ha ]; destruct Hb as [ -> | Hb ]; simpl in *.
  - lra.
  - specialize (Hord s b Hs Hb Hlt). lia.
  - assert (Hle := Hord a s Ha Hs Hlt).
    destruct (Z.eq_dec (sh_qty a) (sh_qty s)) as [ E | E ]; [ exfalso | lia ].
    assert (Hca : can_decrement a = true).
    { unfold can_decrement in *. now rewrite E. }
    destruct (In_nth_error _ _ Ha) as (k0 & Hk0).
    destruct (Hmin k0 a Hk0 Hca) as [ Hcost _ ].
    rewrite !loss_excess in Hcost.
    destruct (Hinv s Hs) as [ _ H1 ]. destruct (Hinv a Ha) as [ _ H2 ].
    rewrite (Qabs_neg (excess s - 1)), (Qabs_neg (excess a - 1)) in Hcost
      by lra.
    unfold excess in Hcost. rewrite E in Hcost. lra.
  - now apply Hord.
Qed.

Lemma increment_once_ordered (shares : list share) :
  Forall within_after_increments shares ->
  ordered_shares shares -> ordered_shares (increment_once shares).
Proof.
  intros Hinv Hord. rewrite Forall_forall in Hinv.
  destruct shares as [ | x rest ]; [ exact Hord | ].
  destruct (increment_once_spec (x :: rest))
    as (k & s & (Hn & _ & Hmin) & ->); [ discriminate | ].
  assert (Hs := nth_error_In _ _ Hn).
  intros a b Ha Hb Hlt.
  apply (add_at_In _ _ _ s) in Ha; [ | exact Hn ].
  apply (add_at_In _ _ _ s) in Hb; [ | exact Hn ].
  destruct Ha as [ -> | Ha ]; destruct Hb as [ -> | Hb ];
    cbn [sh_qty sh_exact] in *.
  - lra.
  - assert (Hle := Hord s b Hs Hb Hlt).
    destruct (Z.eq_dec (sh_qty s) (sh_qty b)) as [ E | E ]; [ exfalso | lia ].
    destruct (In_nth_error _ _ Hb) as (k0 & Hk0).
    destruct (Hmin k0 b Hk0 eq_refl) as [ Hcost _ ].
    rewrite !gain_excess in Hcost.
    destruct (Hinv s Hs) as [ H1 _ ]. destruct (Hinv b Hb) as [ H2 _ ].
    rewrite (Qabs_pos (excess s + 1)), (Qabs_pos (excess b + 1)) in Hcost
      by lra.
    unfold excess in Hcost. rewrite E in Hcost. lra.
  - specialize (Hord a s Ha Hs Hlt). lia.
  - now apply Hord.
Qed.

Lemma decrement_iter_ordered (n : nat) (shares : list share) (T : Z) (q : Q) :
  0 <= T ->
  Forall (fun s => 0 <= sh_exact s)%Q shares ->
  Forall within_after_decrements shares ->
  (exact_sum shares == q)%Q -> (q - 1 < inject_Z T)%Q ->
  ordered_shares shares ->
  T + Z.of_nat n <= total_assigned shares ->
  ordered_shares (Nat.iter n decrement_once shares).
Proof.
  intros HT0 Hnn Hinv Hsum HT Hord.
  induction n as [ | n IH ]; intro Hover; simpl Nat.iter.
  - exact Hord.
  - apply decrement_once_ordered.
    + apply (decrement_iter_within n shares T q); try assumption. lia.
    + apply IH. lia.
Qed.

Lemma increment_iter_ordered (n : nat) (shares : list share) (T : Z) (q : Q) :
  shares <> [] ->
  Forall within_after_increments shares ->
  (exact_sum shares == q)%Q -> (inject_Z T <= q)%Q ->
  ordered_shares shares ->
  total_assigned shares + Z.of_nat n <= T ->
  ordered_shares (Nat.iter n increment_once shares).
Proof.
  intros Hne Hinv Hsum HT Hord.
  induction n as [ | n IH ]; intro Hunder; simpl Nat.iter.
  - exact Hord.
  - apply increment_once_ordered.
    + apply (increment_iter_within n shares T q); try assumption. lia.
    + apply IH. lia.
Qed.

Lemma correct_total_ordered (shares : list share) (q : Q) :
  (0 <= q)%Q -> shares <> [] ->
  Forall (fun s => 0 <= sh_exact s)%Q shares ->
  Forall (fun s => sh_qty s = py_round (sh_exact s)) shares ->
  (exact_sum shares == q)%Q ->
  ordered_shares (correct_total (total_assigned shares - Qtruncate q) shares).
Proof.
  intros Hq Hne Hnn Hround Hsum.
  destruct (Qtruncate_bounds q Hq) as [ HT1 HT2 ].
  assert (HT0 := Qtruncate_nonneg q Hq).
  assert (Hnear : Forall (fun s => -(1 # 2) <= excess s /\ excess s <= 1 # 2)%Q
                    shares).
  { eapply Forall_impl; [ | exact Hround ]. intros s Hs. unfold excess.
    rewrite Hs. apply py_round_near. }
  assert (Hord : ordered_shares shares).
  { rewrite Forall_forall in Hround. intros a b Ha Hb Hlt.
    rewrite (Hround a Ha), (Hround b Hb). now apply py_round_monotone. }
  unfold correct_total.
  destruct (total_assigned shares - Qtruncate q =? 0) eqn:E0; [ exact Hord | ].
  destruct (0 <? total_assigned shares - Qtruncate q) eqn:E1.
  - apply Z.ltb_lt in E1.
    apply (decrement_iter_ordered _ shares (Qtruncate q) q); try assumption.
    + eapply Forall_impl; [ | exact Hnear ]. intros s [ H1 H2 ]. split; lra.
    + lia.
  - apply Z.ltb_ge in E1. apply Z.eqb_neq in E0.
    apply (increment_iter_ordered _ shares (Qtruncate q) q); try assumption.
    + eapply Forall_impl; [ | exact Hnear ]. intros s [ H1 H2 ]. split; lra.
    + lia.
Qed.

Lemma same_id_same_participant (ps : list Participant.t) (p p' : Participant.t) :
  NoDup (map Participant.id ps) -> In p ps -> In p' ps ->
  Participant.id p = Participant.id p' -> p = p'.
Proof.
  induction ps as [ | x l IH ]; intros Hnd Hp Hp' Hid; [ destruct Hp | ].
  inversion Hnd as [ | ? ? Hx Hnd' ]; subst.
  destruct Hp as [ -> | Hp ]; destruct Hp' as [ -> | Hp' ].
  - reflexivity.
  - exfalso. apply Hx. rewrite Hid. now apply in_map.
  - exfalso. apply Hx. rewrite <- Hid. now apply in_map.
  - now apply IH.
Qed.

Lemma integer_rows_ordered (ps : list Participant.t) (t q : Q) :
  (0 < q)%Q -> (0 < t)%Q -> ps <> [] ->
  Forall weight_ok ps -> (weight_total ps == t)%Q ->
  (forall a b, In a ps -> In b ps ->
               Participant.id a = Participant.id b -> a = b) ->
  forall r r' p p',
    In r (integer_rows ps t q) -> In r' (integer_rows ps t q) ->
    In p ps -> In p' ps ->
    row_id r = Participant.id p -> row_id r' = Participant.id p' ->
    (damage_key p < damage_key p')%Q ->
    exists z z', row_qty r = Int z /\ row_qty r' = Int z' /\ z <= z'.
Proof.
  intros Hq Ht Hne Hw Hwt Hnd r r' p p' Hr Hr' Hp Hp' Hid Hid' Hlt.
  unfold integer_rows in Hr, Hr'. apply py_sorted_In in Hr, Hr'.
  apply in_map_iff in Hr, Hr'.
  destruct Hr as (s & <- & Hin). destruct Hr' as (s' & <- & Hin').
  set (sh := rounded_shares ps t q) in *.
  assert (Hstatic : Forall (fun s => In (sh_participant s) ps /\
                                     sh_exact s
                                     = exact_of q t (sh_participant s))
                      (correct_total (total_assigned sh - Qtruncate q) sh)).
  { apply correct_total_static; [ intros s0 z H; exact H | ].
    apply Forall_forall. intros s0 Hs0.
    unfold sh, rounded_shares, round_shares in Hs0.
    rewrite map_map in Hs0. apply in_map_iff in Hs0.
    destruct Hs0 as (p0 & <- & Hp0). simpl.
    split; [ now apply py_sorted_In in Hp0 | reflexivity ]. }
  assert (Hord : ordered_shares
                   (correct_total (total_assigned sh - Qtruncate q) sh)).
  { apply correct_total_ordered.
    - lra.
    - intro E. apply (f_equal (@List.length share)) in E. unfold sh in E.
      rewrite rounded_shares_length in E. destruct ps; [ congruence | discriminate ].
    - apply (Forall_map sh_exact (fun e => 0 <= e)%Q). unfold sh.
      rewrite rounded_shares_exact. apply Forall_map, Forall_forall.
      intros p0 Hp0. apply exact_of_nonneg; try assumption; try lra.
      rewrite Forall_forall in Hw. apply Hw. now apply py_sorted_In in Hp0.
    - apply Forall_forall. intros s0 Hs0.
      unfold sh, rounded_shares, round_shares in Hs0.
      rewrite map_map in Hs0. apply in_map_iff in Hs0.
      destruct Hs0 as (p0 & <- & Hp0). reflexivity.
    - unfold exact_sum, sh. rewrite rounded_shares_exact, exact_of_total by lra.
      rewrite (weight_total_perm _ _ (py_sorted_perm damage_key _ ps)), Hwt.
      field. lra. }
  rewrite Forall_forall in Hstatic.
  destruct (Hstatic s Hin) as [ Hps He ]. destruct (Hstatic s' Hin') as [ Hps' He' ].
  assert (E : sh_participant s = p) by (apply Hnd; assumption).
  assert (E' : sh_participant s' = p') by (apply Hnd; assumption).
  exists (sh_qty s), (sh_qty s'). split; [ reflexivity | ].
  split; [ reflexivity | ].
  apply Hord; try assumption.
  rewrite He, He', E, E'. unfold exact_of.
  apply Qmult_lt_l; [ exact Hq | ].
  unfold Qdiv. apply Qmult_lt_r; [ now apply Qinv_lt_0_compat | exact Hlt ].
Qed.

(** X28.  In integer mode, on whole numbers of moderate size, for a
    positive quantity, recipients of positive total weight and distinct
    ids: a recipient of larger weight is never allocated fewer units than
    a recipient of smaller weight, whatever corrections took place. *)
Theorem integer_mode_larger_weight_never_gets_less
    (prize : Prize.t) (st : App) (q t : Q) :
  integer_only st = true ->
  Prize.quantity prize = PyFloat q -> (0 < q)%Q ->
  shareable prize st t ->
  small_whole (recipients prize (participants st)) t q ->
  NoDup (map Participant.id (participants st)) ->
  exists rows,
    fst (calculate_distribution prize st) = Ok rows /\
    forall r r' p p',
      In r rows -> In r' rows ->
      In p (recipients prize (participants st)) ->
      In p' (recipients prize (participants st)) ->
      row_id r = Participant.id p -> row_id r' = Participant.id p' ->
      (damage_key p < damage_key p')%Q ->
      exists z z', row_qty r = Int z /\ row_qty r' = Int z' /\ z <= z'.
Proof.
  intros Hi Hq Hq0 Hs Hsm Hnd.
  assert (Hc := small_whole_converts _ _ _ Hsm).
  rewrite (integer_mode_run prize st q t Hi Hq Hc Hs). simpl fst.
  eexists. split; [ reflexivity | ].
  assert (Hne := shareable_recipients _ _ _ Hs).
  destruct Hs as (Hw & Ht & Hpos).
  apply integer_rows_ordered; try assumption.
  - now apply recipients_weight_ok.
  - apply py_sum_from_value in Ht. lra.
  - intros a b Ha Hb. apply (same_id_same_participant (participants st) a b Hnd).
    + apply recipients_In in Ha. unfold active_participants in Ha.
      now apply filter_In in Ha.
    + apply recipients_In in Hb. unfold active_participants in Hb.
      now apply filter_In in Hb.
Qed.

(** A prize of 10 among participants of weight 1, 2 and 4. *)
Lemma integer_mode_larger_weight_never_gets_less_witness :
  exists rows,
    fst (calculate_distribution (example_prize 10 false 1)
           (example_app true
              [example_participant 1 "A" 1; example_participant 2 "B" 4;
               example_participant 3 "C" 2])) = Ok rows /\
    forall r r' p p',
      In r rows -> In r' rows ->
      In p (recipients (example_prize 10 false 1)
              [example_participant 1 "A" 1; example_participant 2 "B" 4;
               example_participant 3 "C" 2]) ->
      In p' (recipients (example_prize 10 false 1)
               [example_participant 1 "A" 1; example_participant 2 "B" 4;
                example_participant 3 "C" 2]) ->
      row_id r = Participant.id p -> row_id r' = Participant.id p' ->
      (damage_key p < damage_key p')%Q ->
      exists z z', row_qty r = Int z /\ row_qty r' = Int z' /\ z <= z'.
Proof.
  apply (integer_mode_larger_weight_never_gets_less
           (example_prize 10 false 1)
           (example_app true
              [example_participant 1 "A" 1; example_participant 2 "B" 4;
               example_participant 3 "C" 2]) 10 7);
    [ reflexivity | reflexivity | lra | shareable_at | small_whole_at | ].
  simpl. repeat constructor; simpl; intuition discriminate.
Defined.
